(** * Review agent: prompt packing and response reconciliation

    A shallow embedding of the review pipeline (file filter, prompt packer,
    retry orchestration, suggestion reconciliation, inline-fix generation)
    and the properties its specification states about it. *)

From Stdlib Require Import String Ascii List ZArith Lia Bool Permutation Sorted.
Import ListNotations.
Open Scope string_scope.

(** ** JavaScript string primitives

    Strings are sequences of code units below 256, the characters of
    Latin-1; [split] takes a one-character separator, [join] is
    [Array.prototype.join], [pop] is the last element of an array. *)

Module Js.

Definition LF : ascii := "010"%char.
Definition nl : string := String LF EmptyString.

(** [s.split(sep)]: never empty, [""] for the empty string. *)
Fixpoint split (sep : ascii) (s : string) : list string :=
  match s with
  | EmptyString => [EmptyString]
  | String c rest =>
      if Ascii.eqb c sep then EmptyString :: split sep rest
      else match split sep rest with
           | [] => [String c EmptyString]
           | h :: t => String c h :: t
           end
  end.

(** [parts.join(sep)]. *)
Definition join (sep : string) (parts : list string) : string :=
  String.concat sep parts.

(** [arr.pop()] read as a value: [undefined] on the empty array. *)
Definition pop (arr : list string) : option string :=
  match arr with
  | [] => None
  | _ => Some (last arr EmptyString)
  end.

(** [line.startsWith(p)]. *)
Definition startsWith (p line : string) : bool := String.prefix p line.

(** Does character [c] occur in [s]? *)
Fixpoint occurs (c : ascii) (s : string) : bool :=
  match s with
  | EmptyString => false
  | String d rest => Ascii.eqb d c || occurs c rest
  end.

(** [toLowerCase]: the capital letters of Latin-1 are [A] to [Z] (65 to
    90) and the accented capitals 192 to 222 without the multiplication sign
    (215); the small letter is 32 further. Other characters are kept. *)
Definition lowerChar (c : ascii) : ascii :=
  let n := nat_of_ascii c in
  if ((65 <=? n)%nat && (n <=? 90)%nat)
     || ((192 <=? n)%nat && (n <=? 222)%nat && negb (n =? 215)%nat)
  then ascii_of_nat (n + 32)
  else c.

Fixpoint toLowerCase (s : string) : string :=
  match s with
  | EmptyString => EmptyString
  | String c rest => String (lowerChar c) (toLowerCase rest)
  end.

(** White space as [trim] and the regular expression class [\s] see it:
    tab, line feed, vertical tab, form feed, carriage return, space and the
    no-break space (160). *)
Definition isSpace (c : ascii) : bool :=
  let n := nat_of_ascii c in
  ((9 <=? n)%nat && (n <=? 13)%nat) || (n =? 32)%nat || (n =? 160)%nat.

Fixpoint trimStart (s : string) : string :=
  match s with
  | EmptyString => EmptyString
  | String c rest => if isSpace c then trimStart rest else s
  end.

Fixpoint trimEnd (s : string) : string :=
  match s with
  | EmptyString => EmptyString
  | String c rest =>
      match trimEnd rest with
      | EmptyString => if isSpace c then EmptyString else String c EmptyString
      | r => String c r
      end
  end.

Definition trim (s : string) : string := trimEnd (trimStart s).

(** The leading white-space run of a line, as the anchored match of a
    white-space star at the start of the line returns it. *)
Fixpoint leadingSpace (s : string) : string :=
  match s with
  | EmptyString => EmptyString
  | String c rest => if isSpace c then String c (leadingSpace rest) else EmptyString
  end.

Lemma append_assoc (a b c : string) : (a ++ b) ++ c = a ++ (b ++ c).
Proof. induction a as [|x a IH]; simpl; [|rewrite IH]; reflexivity. Qed.

Lemma append_nil_r (a : string) : a ++ "" = a.
Proof. induction a as [|x a IH]; simpl; [|rewrite IH]; reflexivity. Qed.

Lemma length_append (a b : string) :
  String.length (a ++ b) = (String.length a + String.length b)%nat.
Proof. induction a as [|x a IH]; simpl; [|rewrite IH]; reflexivity. Qed.

Lemma latin1_examples :
  lowerChar (ascii_of_nat 201) = ascii_of_nat 233 /\
  lowerChar (ascii_of_nat 215) = ascii_of_nat 215 /\
  lowerChar (ascii_of_nat 223) = ascii_of_nat 223 /\
  toLowerCase "Yarn.LOCK" = "yarn.lock" /\
  isSpace (ascii_of_nat 160) = true /\
  isSpace (ascii_of_nat 133) = false.
Proof. repeat split. Qed.

Section SplitJoin.

Variable sep : ascii.

Lemma split_nonempty (s : string) : split sep s <> [].
Proof.
  destruct s as [|c rest]; simpl; [discriminate|].
  destruct (Ascii.eqb c sep); [discriminate|].
  destruct (split sep rest); discriminate.
Qed.

Lemma split_no_sep (s : string) :
  Forall (fun part => occurs sep part = false) (split sep s).
Proof.
  induction s as [|c rest IH]; simpl.
  - constructor; [reflexivity|constructor].
  - destruct (Ascii.eqb c sep) eqn:E.
    + constructor; [reflexivity|exact IH].
    + destruct (split sep rest) as [|h t].
      * constructor; [simpl; rewrite E; reflexivity|constructor].
      * inversion IH; subst. constructor; [simpl; rewrite E; assumption|assumption].
Qed.

Lemma join_cons (x : string) (y : string) (rest : list string) :
  join (String sep "") (x :: y :: rest) = x ++ String sep (join (String sep "") (y :: rest)).
Proof. reflexivity. Qed.

Lemma join_split (s : string) : join (String sep "") (split sep s) = s.
Proof.
  induction s as [|c rest IH]; simpl; [reflexivity|].
  destruct (Ascii.eqb c sep) eqn:E.
  - apply Ascii.eqb_eq in E; subst c.
    pose proof (split_nonempty rest) as NE.
    destruct (split sep rest) as [|h t]; [contradiction|].
    rewrite join_cons. simpl. f_equal. exact IH.
  - pose proof (split_nonempty rest) as NE.
    destruct (split sep rest) as [|h t]; [contradiction|].
    destruct t as [|h' t'].
    + simpl in *. f_equal. exact IH.
    + rewrite join_cons in *. simpl. f_equal. exact IH.
Qed.

Lemma split_app_sep (x rest : string) :
  occurs sep x = false ->
  split sep (x ++ String sep rest) = x :: split sep rest.
Proof.
  induction x as [|c x IH]; simpl; intros H.
  - rewrite Ascii.eqb_refl. reflexivity.
  - apply orb_false_iff in H. destruct H as [Hc Hx].
    rewrite Hc, (IH Hx). reflexivity.
Qed.

Lemma split_single (x : string) : occurs sep x = false -> split sep x = [x].
Proof.
  induction x as [|c x IH]; simpl; intros H; [reflexivity|].
  apply orb_false_iff in H. destruct H as [Hc Hx].
  rewrite Hc, (IH Hx). reflexivity.
Qed.

(** Splitting undoes joining, for parts free of the separator. *)
Lemma split_join (parts : list string) :
  parts <> [] ->
  Forall (fun part => occurs sep part = false) parts ->
  split sep (join (String sep "") parts) = parts.
Proof.
  induction parts as [|x rest IH]; intros NE F; [contradiction|].
  inversion F as [|? ? Hx Hrest]; subst.
  destruct rest as [|y rest'].
  - simpl. apply split_single; assumption.
  - rewrite join_cons, split_app_sep by assumption.
    f_equal. apply IH; [discriminate|assumption].
Qed.

End SplitJoin.

End Js.

(** ** Data model *)

(** A changed file of the pull request. [patch] is absent for files GitHub
    sends without a diff hunk; the contents are [null] when the file does not
    exist on that branch. *)
Record PRFile : Type := mkPRFile {
  filename : string;
  patch : option string;
  patchTokenLength : Z;
  old_contents : option string;
  current_contents : option string
}.

(** ** stripRemovedLines *)

(** The template literal [String.raw`${x}`] of a possibly absent string. *)
Definition stringRaw (x : option string) : string :=
  match x with
  | Some s => s
  | None => "undefined"
  end.

Definition keptLine (line : string) : bool := negb (Js.startsWith "-" line).

(** The patch pipeline of [stripRemovedLines]: split, filter, join. *)
Definition stripPatch (originalPatch : string) : string :=
  Js.join Js.nl (filter keptLine (Js.split Js.LF originalPatch)).

Definition stripRemovedLines (originalFile : PRFile) : PRFile :=
  {| filename := filename originalFile;
     patch := Some (stripPatch (stringRaw (patch originalFile)));
     patchTokenLength := patchTokenLength originalFile;
     old_contents := old_contents originalFile;
     current_contents := current_contents originalFile |}.

Lemma filter_idem {A} (p : A -> bool) (l : list A) : filter p (filter p l) = filter p l.
Proof.
  induction l as [|x l IH]; simpl; [reflexivity|].
  destruct (p x) eqn:E; simpl; [rewrite E, IH|]; auto.
Qed.

Lemma Forall_filter {A} (P : A -> Prop) (p : A -> bool) (l : list A) :
  Forall P l -> Forall P (filter p l).
Proof.
  induction 1 as [|x l Hx Hl IH]; simpl; [constructor|].
  destruct (p x); [constructor|]; assumption.
Qed.

Lemma stripPatch_lines (p : string) :
  filter keptLine (Js.split Js.LF p) <> [] ->
  Js.split Js.LF (stripPatch p) = filter keptLine (Js.split Js.LF p).
Proof.
  intros NE. unfold stripPatch, Js.nl.
  apply Js.split_join; [assumption|].
  apply Forall_filter, Js.split_no_sep.
Qed.

Lemma stripPatch_idem (p : string) : stripPatch (stripPatch p) = stripPatch p.
Proof.
  destruct (filter keptLine (Js.split Js.LF p)) as [|x kept] eqn:E.
  - assert (H : stripPatch p = "") by (unfold stripPatch; rewrite E; reflexivity).
    rewrite H. reflexivity.
  - assert (NE : filter keptLine (Js.split Js.LF p) <> []) by (rewrite E; discriminate).
    unfold stripPatch at 1. rewrite (stripPatch_lines p NE), filter_idem. reflexivity.
Qed.

(** C9. [stripRemovedLines] keeps, in order and unchanged, exactly the lines
    of the patch that do not begin with ['-'] (when every line is removed the
    patch becomes the empty string); the patch ["+a\n-b\n c\n"] becomes
    ["+a\n c\n"]; and stripping is idempotent, on patches and on files. *)
Theorem stripRemovedLines_spec :
  (forall p : string,
      let kept := filter keptLine (Js.split Js.LF p) in
      stripPatch p = Js.join Js.nl kept /\
      (kept <> [] -> Js.split Js.LF (stripPatch p) = kept) /\
      (kept = [] -> stripPatch p = "") /\
      (forall line, In line kept <->
                    In line (Js.split Js.LF p) /\ Js.startsWith "-" line = false)) /\
  stripPatch ("+a" ++ Js.nl ++ "-b" ++ Js.nl ++ " c" ++ Js.nl)
    = "+a" ++ Js.nl ++ " c" ++ Js.nl /\
  (forall p : string, stripPatch (stripPatch p) = stripPatch p) /\
  (forall f : PRFile, stripRemovedLines (stripRemovedLines f) = stripRemovedLines f) /\
  (forall f : PRFile,
      patch (stripRemovedLines f) = Some (stripPatch (stringRaw (patch f))) /\
      filename (stripRemovedLines f) = filename f).
Proof.
  split; [|split; [|split; [|split]]].
  - intros p kept. split; [reflexivity|]. split; [|split].
    + apply stripPatch_lines.
    + intros E. unfold stripPatch. fold kept. rewrite E. reflexivity.
    + intros line. unfold kept. rewrite filter_In. unfold keptLine.
      rewrite negb_true_iff. reflexivity.
  - vm_compute. reflexivity.
  - apply stripPatch_idem.
  - intros f. unfold stripRemovedLines. simpl. rewrite stripPatch_idem. reflexivity.
  - intros f. split; reflexivity.
Qed.

(** ** filterFile *)

Module Filter.

Definition extensionsToIgnore : list string :=
  ["pdf"; "png"; "jpg"; "jpeg"; "gif"; "mp4"; "mp3"; "md"; "json"; "env";
   "toml"; "svg"; "ipynb"; "wasm"].

Definition filesToIgnore : list string :=
  ["package-lock.json"; "yarn.lock"; ".gitignore"; "package.json";
   "tsconfig.json"; "poetry.lock"; "readme.md"; "packages.txt"; "utils.py";
   "requirements.txt"; "tumor-classify.ipynb"; "tree-sitter-python.wasm"].

(** [set.has(x)] on a set of strings. *)
Definition has (set : list string) (x : string) : bool :=
  existsb (String.eqb x) set.

(** Truthiness of a possibly undefined string: defined and not empty. *)
Definition truthy (x : option string) : bool :=
  match x with
  | Some s => negb (String.eqb s "")
  | None => false
  end.

Definition hasOpt (set : list string) (x : option string) : bool :=
  match x with
  | Some s => has set s
  | None => false
  end.

Definition filterFile (file : PRFile) : bool :=
  let name := Js.pop (Js.split "/" (Js.toLowerCase (filename file))) in
  if truthy name && hasOpt filesToIgnore name then false
  else
    let splitFilename := Js.split "." (Js.toLowerCase (filename file)) in
    if (length splitFilename <=? 1)%nat then false
    else
      let extension := option_map Js.toLowerCase (Js.pop splitFilename) in
      if truthy extension && hasOpt extensionsToIgnore extension then false
      else true.

(** [lastSegment c s t]: [t] is what follows the last [c] of [s] (all of
    [s] when [c] does not occur). *)
Definition lastSegment (c : ascii) (s t : string) : Prop :=
  Js.occurs c t = false /\ (s = t \/ exists pre, s = pre ++ String c t).

(** The specification's vocabulary, read on the file's name. The name of a
    file is its lower-cased path without the directories: the last segment
    after ['/']. Its extension is what follows the last ['.'] of that name,
    and the file has no extension when its name holds no ['.']. A name that
    starts with its only ['.'] has what follows as its extension: the
    extension denylist holds [env], the extension of a file named [.env]. *)
Definition nameOf (file : PRFile) (name : string) : Prop :=
  lastSegment "/" (Js.toLowerCase (filename file)) name.

Definition extensionOf (file : PRFile) (ext : string) : Prop :=
  exists name, nameOf file name /\
    Js.occurs "." ext = false /\ exists stem, name = stem ++ String "." ext.

Definition noExtension (file : PRFile) : Prop :=
  exists name, nameOf file name /\ Js.occurs "." name = false.

Definition rejectedBySpec (file : PRFile) : Prop :=
  (exists name, nameOf file name /\ In name filesToIgnore) \/
  (exists ext, extensionOf file ext /\ In ext extensionsToIgnore) \/
  noExtension file.

(** The files the code lets through although they have no extension: the
    name is not on the name denylist and holds no ['.'], but a directory of
    the path does, so that the split of the whole path on ['.'] has more
    than one piece. *)
Definition acceptedBySlip (file : PRFile) : Prop :=
  noExtension file /\
  Js.occurs "." (Js.toLowerCase (filename file)) = true /\
  (forall name, nameOf file name -> ~ In name filesToIgnore).

Definition named (path : string) : PRFile :=
  mkPRFile path None 0 None None.

Section Segments.

Variable c : ascii.

Lemma split_app (pre rest : string) :
  Js.split c (pre ++ String c rest) = (Js.split c pre ++ Js.split c rest)%list.
Proof.
  induction pre as [|a pre IH]; simpl.
  - rewrite Ascii.eqb_refl. reflexivity.
  - destruct (Ascii.eqb a c); [rewrite IH; reflexivity|].
    rewrite IH. pose proof (Js.split_nonempty c pre) as NE.
    destruct (Js.split c pre) as [|h t]; [contradiction|reflexivity].
Qed.

Lemma occurs_decompose (s : string) :
  Js.occurs c s = true -> exists pre rest, s = pre ++ String c rest.
Proof.
  induction s as [|a s IH]; simpl; [discriminate|].
  destruct (Ascii.eqb a c) eqn:E; simpl.
  - intros _. apply Ascii.eqb_eq in E; subst a. exists "", s. reflexivity.
  - intros H. destruct (IH H) as (pre & rest & ->). exists (String a pre), rest. reflexivity.
Qed.

Lemma occurs_app (a b : string) :
  Js.occurs c (a ++ b) = Js.occurs c a || Js.occurs c b.
Proof.
  induction a as [|x a IH]; simpl; [reflexivity|].
  rewrite IH, orb_assoc. reflexivity.
Qed.

Lemma length_split_le1 (s : string) :
  (length (Js.split c s) <=? 1)%nat = negb (Js.occurs c s).
Proof.
  destruct (Js.occurs c s) eqn:E; simpl.
  - destruct (occurs_decompose s E) as (pre & rest & ->).
    rewrite split_app, length_app.
    pose proof (Js.split_nonempty c pre). pose proof (Js.split_nonempty c rest).
    destruct (Js.split c pre); [contradiction|].
    destruct (Js.split c rest); [contradiction|].
    apply Nat.leb_gt. simpl. lia.
  - rewrite Js.split_single by assumption. reflexivity.
Qed.

Lemma join_snoc (init : list string) (t : string) :
  init <> [] ->
  Js.join (String c "") (init ++ [t])%list = Js.join (String c "") init ++ String c t.
Proof.
  induction init as [|x init IH]; intros NE; [contradiction|].
  destruct init as [|y init].
  - reflexivity.
  - change ((x :: y :: init) ++ [t])%list with (x :: y :: (init ++ [t]))%list.
    rewrite !Js.join_cons.
    change (y :: init ++ [t])%list with ((y :: init) ++ [t])%list.
    rewrite IH by discriminate.
    rewrite Js.append_assoc. reflexivity.
Qed.

(** The last element of [split] is the last segment, and the only one. *)
Lemma last_split_segment (s : string) :
  lastSegment c s (last (Js.split c s) "").
Proof.
  pose proof (Js.split_nonempty c s) as NE.
  pose proof (Js.split_no_sep c s) as F.
  pose proof (Js.join_split c s) as J.
  destruct (exists_last NE) as (init & t & E). rewrite E in *.
  rewrite last_last. split.
  - apply Forall_app in F. destruct F as [_ F]. inversion F; assumption.
  - destruct init as [|x init].
    + left. symmetry. exact J.
    + right. exists (Js.join (String c "") (x :: init)).
      rewrite <- J. apply join_snoc. discriminate.
Qed.

Lemma lastSegment_unique (s t : string) :
  lastSegment c s t -> t = last (Js.split c s) "".
Proof.
  intros [Ht [-> | [pre ->]]].
  - rewrite Js.split_single by assumption. reflexivity.
  - rewrite split_app, (Js.split_single c t Ht).
    rewrite last_last. reflexivity.
Qed.

Lemma pop_split (s : string) :
  Js.pop (Js.split c s) = Some (last (Js.split c s) "").
Proof.
  pose proof (Js.split_nonempty c s).
  unfold Js.pop. destruct (Js.split c s); [contradiction|reflexivity].
Qed.

End Segments.

Lemma has_In (set : list string) (x : string) : has set x = true <-> In x set.
Proof.
  unfold has. rewrite existsb_exists. split.
  - intros (y & Hy & E). apply String.eqb_eq in E. subst. assumption.
  - intros H. exists x. split; [assumption|apply String.eqb_refl].
Qed.

Lemma lowerChar_idem (a : ascii) : Js.lowerChar (Js.lowerChar a) = Js.lowerChar a.
Proof. destruct a as [[] [] [] [] [] [] [] []]; reflexivity. Qed.

Lemma toLowerCase_app (a b : string) :
  Js.toLowerCase (a ++ b) = Js.toLowerCase a ++ Js.toLowerCase b.
Proof. induction a as [|x a IH]; simpl; [|rewrite IH]; reflexivity. Qed.

Lemma toLowerCase_idem (s : string) :
  Js.toLowerCase (Js.toLowerCase s) = Js.toLowerCase s.
Proof.
  induction s as [|a s IH]; simpl; [reflexivity|].
  rewrite lowerChar_idem, IH. reflexivity.
Qed.

Lemma app_inj_length (a b a' b' : string) :
  String.length b = String.length b' -> a ++ b = a' ++ b' -> b = b'.
Proof.
  revert a'. induction a as [|x a IH]; intros a' L E.
  - destruct a' as [|y a']; [exact E|].
    simpl in E. apply (f_equal String.length) in E.
    simpl in E. rewrite Js.length_append in E. lia.
  - destruct a' as [|y a'].
    + simpl in E. apply (f_equal String.length) in E.
      simpl in E. rewrite Js.length_append in E. lia.
    + simpl in E. injection E as _ E. eapply IH; eassumption.
Qed.

Lemma toLowerCase_length (s : string) :
  String.length (Js.toLowerCase s) = String.length s.
Proof. induction s as [|a s IH]; simpl; [|rewrite IH]; reflexivity. Qed.

(** A trailing piece of a lower-cased string is itself lower-cased. *)
Lemma lower_suffix (s pre t : string) :
  Js.toLowerCase s = pre ++ t -> Js.toLowerCase t = t.
Proof.
  intros E. pose proof (toLowerCase_idem s) as I.
  rewrite E, toLowerCase_app in I.
  eapply app_inj_length; [|exact I]. apply toLowerCase_length.
Qed.

Lemma last_split_lower (c : ascii) (s : string) :
  Js.toLowerCase (last (Js.split c (Js.toLowerCase s)) "")
  = last (Js.split c (Js.toLowerCase s)) "".
Proof.
  destruct (last_split_segment c (Js.toLowerCase s)) as [_ [E | [pre E]]].
  - rewrite <- E. apply toLowerCase_idem.
  - apply (lower_suffix s (pre ++ String c "")).
    rewrite Js.append_assoc. exact E.
Qed.

Lemma has_truthy (set : list string) (x : string) :
  has set "" = false -> has set x = true -> truthy (Some x) = true.
Proof.
  intros H0 H. destruct x; [congruence|reflexivity].
Qed.

Lemma filterFile_unfold (file : PRFile) :
  let lower := Js.toLowerCase (filename file) in
  let name := last (Js.split "/" lower) "" in
  let ext := last (Js.split "." lower) "" in
  filterFile file =
    negb (has filesToIgnore name || negb (Js.occurs "." lower) || has extensionsToIgnore ext).
Proof.
  intros lower name ext. unfold filterFile. fold lower.
  rewrite !pop_split. fold name ext. simpl option_map. unfold hasOpt.
  unfold ext, lower. rewrite last_split_lower. fold lower. fold ext.
  rewrite length_split_le1.
  destruct (has filesToIgnore name) eqn:Hn.
  - rewrite (has_truthy filesToIgnore name eq_refl Hn). reflexivity.
  - rewrite andb_false_r.
    destruct (Js.occurs "." lower); [|reflexivity].
    destruct (has extensionsToIgnore ext) eqn:He.
    + rewrite (has_truthy extensionsToIgnore ext eq_refl He). reflexivity.
    + rewrite andb_false_r. reflexivity.
Qed.

Lemma extensions_no_slash (ext : string) :
  In ext extensionsToIgnore -> Js.occurs "/" ext = false.
Proof.
  intros H.
  assert (F : forallb (fun e => negb (Js.occurs "/" e)) extensionsToIgnore = true)
    by reflexivity.
  rewrite forallb_forall in F. apply negb_true_iff, F, H.
Qed.

(** Appending text free of [c] lengthens the last segment. *)
Lemma last_split_app_free (c : ascii) (a t : string) :
  Js.occurs c t = false ->
  last (Js.split c (a ++ t)) "" = last (Js.split c a) "" ++ t.
Proof.
  intros Ht. symmetry. apply lastSegment_unique.
  destruct (last_split_segment c a) as [Hno E]. split.
  - rewrite occurs_app, Hno, Ht. reflexivity.
  - destruct E as [E | [pre E]].
    + left. rewrite <- E. reflexivity.
    + right. exists pre. rewrite E at 1. rewrite Js.append_assoc. reflexivity.
Qed.

(** The last segment of a path holds no more of [c] than the path. *)
Lemma last_segment_occurs (c d : ascii) (s : string) :
  Js.occurs c s = false -> Js.occurs c (last (Js.split d s) "") = false.
Proof.
  intros H. destruct (last_split_segment d s) as [_ [E | [pre E]]].
  - rewrite <- E. exact H.
  - rewrite E, occurs_app in H. apply orb_false_iff in H. destruct H as [_ H].
    simpl in H. apply orb_false_iff in H. apply H.
Qed.

(** An extension on the denylist that ends the path ends the name too. *)
Lemma path_extension_of_name (lower ext : string) :
  lastSegment "." lower ext -> Js.occurs "." lower = true ->
  Js.occurs "/" ext = false ->
  exists stem, last (Js.split "/" lower) "" = stem ++ String "." ext.
Proof.
  intros [Hno [E | [pre E]]] Hd Hs.
  - rewrite E in Hd. congruence.
  - exists (last (Js.split "/" pre) "").
    rewrite E.
    change (pre ++ String "." ext) with (pre ++ (String "." ext)).
    apply last_split_app_free. simpl. exact Hs.
Qed.

(** The extension of the name ends the path. *)
Lemma name_extension_of_path (lower name stem ext : string) :
  lastSegment "/" lower name -> name = stem ++ String "." ext ->
  Js.occurs "." ext = false ->
  lastSegment "." lower ext.
Proof.
  intros [_ [E | [pre E]]] -> Hno; (split; [exact Hno|right]).
  - exists stem. exact E.
  - exists (pre ++ String "/" stem). rewrite E, Js.append_assoc. reflexivity.
Qed.

(** C5, at the failing inputs and in general. [filterFile] reads the
    extension on the whole path, not on the file's name: a file without an
    extension under a directory whose name holds a ['.'] (["dir.d/Makefile"],
    [".github/CODEOWNERS"]) is accepted. That is the only divergence:
    [filterFile] rejects a file exactly when the claim rejects it (name on the
    name denylist, extension of the name on the extension denylist, or no
    extension) and it is not such a file; every such file is one the claim
    rejects; the answer depends on the lower-cased path only; and the three
    examples of the claim evaluate as it says. *)
Theorem filterFile_dotted_directory :
  (filterFile (named "dir.d/Makefile") = true /\
   noExtension (named "dir.d/Makefile") /\
   rejectedBySpec (named "dir.d/Makefile")) /\
  (filterFile (named ".github/CODEOWNERS") = true /\
   noExtension (named ".github/CODEOWNERS") /\
   rejectedBySpec (named ".github/CODEOWNERS")) /\
  (forall file : PRFile,
      filterFile file = false <-> rejectedBySpec file /\ ~ acceptedBySlip file) /\
  (forall file : PRFile,
      acceptedBySlip file -> rejectedBySpec file /\ filterFile file = true) /\
  (forall file file' : PRFile,
      Js.toLowerCase (filename file) = Js.toLowerCase (filename file') ->
      filterFile file = filterFile file') /\
  filterFile (named "package-lock.json") = false /\
  filterFile (named "main.rs") = true /\
  filterFile (named "README") = false /\
  filterFile (named "web/Package-Lock.JSON") = false /\
  filterFile (named "assets/Logo.PNG") = false.
Proof.
  assert (Hex : forall path name : string,
             lastSegment "/" (Js.toLowerCase path) name ->
             Js.occurs "." name = false ->
             noExtension (named path) /\ rejectedBySpec (named path)).
  { intros path name Hn Hd.
    assert (N : noExtension (named path)) by (exists name; split; assumption).
    split; [exact N|right; right; exact N]. }
  assert (Hiff : forall file : PRFile,
             filterFile file = false <-> rejectedBySpec file /\ ~ acceptedBySlip file).
  { intros file. rewrite filterFile_unfold. cbv zeta.
    unfold rejectedBySpec, acceptedBySlip, noExtension, extensionOf, nameOf.
    set (lower := Js.toLowerCase (filename file)).
    set (name := last (Js.split "/" lower) "").
    set (ext := last (Js.split "." lower) "").
    pose proof (last_split_segment "/" lower) as Hname. fold name in Hname.
    pose proof (last_split_segment "." lower) as Hext. fold ext in Hext.
    rewrite negb_false_iff, !orb_true_iff, negb_true_iff, !has_In.
    split.
    - intros [[Hn | Hd] | He].
      + split; [left; exists name; split; assumption|].
        intros (_ & _ & K). exact (K name Hname Hn).
      + split; [|intros (_ & K & _); congruence].
        right. right. exists name. split; [exact Hname|].
        apply last_segment_occurs. exact Hd.
      + destruct (Js.occurs "." lower) eqn:Hd.
        * destruct (path_extension_of_name lower ext Hext Hd
                      (extensions_no_slash ext He)) as [stem Estem].
          fold name in Estem.
          split.
          -- right. left. exists ext. split; [|exact He].
             exists name. split; [exact Hname|]. split; [apply Hext|].
             exists stem. exact Estem.
          -- intros ((name' & Hn' & Hd') & _ & _).
             apply lastSegment_unique in Hn'. fold name in Hn'. subst name'.
             rewrite Estem, occurs_app in Hd'. simpl in Hd'.
             rewrite orb_true_r in Hd'. discriminate.
        * split; [|intros (_ & K & _); congruence].
          right. right. exists name. split; [exact Hname|].
          apply last_segment_occurs. exact Hd.
    - intros [R NS]. destruct R as [(name' & Hn' & Hin) | [(ext' & X & Hin) | N]].
      + apply lastSegment_unique in Hn'. fold name in Hn'. subst name'.
        left. left. exact Hin.
      + destruct X as (name' & Hn' & Hno & stem & Estem).
        right.
        assert (Ee : ext' = ext).
        { apply lastSegment_unique.
          exact (name_extension_of_path lower name' stem ext' Hn' Estem Hno). }
        rewrite <- Ee. exact Hin.
      + destruct (has filesToIgnore name) eqn:Hh.
        * left. left. apply has_In. exact Hh.
        * destruct (Js.occurs "." lower) eqn:Hd; [|left; right; reflexivity].
          exfalso. apply NS. split; [exact N|]. split; [reflexivity|].
          intros name' Hn' Hin.
          apply lastSegment_unique in Hn'. fold name in Hn'. subst name'.
          apply has_In in Hin. congruence. }
  split; [|split; [|split; [|split; [|split]]]].
  - split; [vm_compute; reflexivity|].
    apply (Hex "dir.d/Makefile" "makefile"); [|reflexivity].
    split; [reflexivity|]. right. exists "dir.d". reflexivity.
  - split; [vm_compute; reflexivity|].
    apply (Hex ".github/CODEOWNERS" "codeowners"); [|reflexivity].
    split; [reflexivity|]. right. exists ".github". reflexivity.
  - exact Hiff.
  - intros file S. pose proof S as (N & _ & _).
    split; [right; right; exact N|].
    destruct (filterFile file) eqn:E; [reflexivity|].
    apply Hiff in E. destruct E as [_ E]. contradiction.
  - intros file file' E. unfold filterFile. rewrite E. reflexivity.
  - repeat split; vm_compute; reflexivity.
Qed.

(** The extension is read on the whole path and the name on its last
    component; both are compared in lower case. *)
Lemma filterFile_path_examples :
  filterFile (named "Docs/README.MD") = false /\
  filterFile (named "assets/Logo.PNG") = false /\
  filterFile (named "src/context/review.ts") = true /\
  filterFile (named ".github/CODEOWNERS") = true /\
  filterFile (named "docs/notes.") = true.
Proof. repeat split; vm_compute; reflexivity. Qed.

End Filter.

(** ** Structured suggestions (processXMLSuggestions) *)

(** A parsed [<suggestion>] element: xml2js gives every child as an array,
    of which the conversion reads element 0. *)
Record RawSuggestion : Type := mkRaw {
  raw_describe : string;
  raw_type : string;
  raw_comment : string;
  raw_code : string;
  raw_filename : string
}.

Module Suggestion.

(** [PRSuggestionImpl]: the five fields of a review suggestion. *)
Record t : Type := make {
  describe : string;
  type : string;
  comment : string;
  code : string;
  filename : string
}.

End Suggestion.

(** [lines[i] = v] for an index inside the array. *)
Fixpoint setAt {A : Type} (i : nat) (v : A) (l : list A) : list A :=
  match l, i with
  | [], _ => []
  | _ :: rest, O => v :: rest
  | x :: rest, S j => x :: setAt j v rest
  end.

(** The code field of a converted suggestion: trim the block, split it in
    lines, trim line 0 and the last line in place, join. *)
Definition convertCode (rawCode : string) : string :=
  let lines := Js.split Js.LF (Js.trim rawCode) in
  let lines := setAt 0 (Js.trim (nth 0 lines "")) lines in
  let lines := setAt (length lines - 1) (Js.trim (nth (length lines - 1) lines "")) lines in
  Js.join Js.nl lines.

Definition convertSuggestion (rawSuggestion : RawSuggestion) : Suggestion.t :=
  Suggestion.make
    (raw_describe rawSuggestion)
    (raw_type rawSuggestion)
    (raw_comment rawSuggestion)
    (convertCode (raw_code rawSuggestion))
    (raw_filename rawSuggestion).

(** The lines of a code block, and its interior line numbers. *)
Definition linesOf (s : string) : list string := Js.split Js.LF s.

Definition interior (i : nat) (lines : list string) : Prop :=
  (0 < i /\ i < length lines - 1)%nat.

Section SetAt.

Context {A : Type}.

Lemma length_setAt (i : nat) (v : A) (l : list A) : length (setAt i v l) = length l.
Proof.
  revert i. induction l as [|x l IH]; intros [|i]; simpl; auto.
Qed.

Lemma nth_setAt_eq (i : nat) (v d : A) (l : list A) :
  (i < length l)%nat -> nth i (setAt i v l) d = v.
Proof.
  revert i. induction l as [|x l IH]; intros [|i] H; simpl in *; try lia; auto.
  apply IH. lia.
Qed.

Lemma nth_setAt_neq (i j : nat) (v d : A) (l : list A) :
  i <> j -> nth j (setAt i v l) d = nth j l d.
Proof.
  revert i j. induction l as [|x l IH]; intros [|i] [|j] H; simpl; auto; try lia.
Qed.

Lemma Forall_setAt (P : A -> Prop) (i : nat) (v : A) (l : list A) :
  P v -> Forall P l -> Forall P (setAt i v l).
Proof.
  intros Hv F. revert i. induction F as [|x l Hx Hl IH]; intros [|i]; simpl;
    constructor; auto.
Qed.

End SetAt.

Section Trim.

Lemma trimEnd_idem (s : string) : Js.trimEnd (Js.trimEnd s) = Js.trimEnd s.
Proof.
  induction s as [|c s IH]; simpl; [reflexivity|].
  destruct (Js.trimEnd s) as [|d r] eqn:E.
  - destruct (Js.isSpace c) eqn:Hc; simpl; [reflexivity|]. rewrite Hc. reflexivity.
  - change (Js.trimEnd (String c (String d r))) with
      (match Js.trimEnd (String d r) with
       | "" => if Js.isSpace c then "" else String c ""
       | r' => String c r'
       end).
    rewrite IH. reflexivity.
Qed.

Definition noLeadingSpace (s : string) : Prop :=
  match s with
  | EmptyString => True
  | String c _ => Js.isSpace c = false
  end.

Lemma trimStart_noLeading (s : string) : noLeadingSpace (Js.trimStart s).
Proof.
  induction s as [|c s IH]; simpl; [exact I|].
  destruct (Js.isSpace c) eqn:Hc; [exact IH|exact Hc].
Qed.

Lemma trimStart_fixed (s : string) : noLeadingSpace s -> Js.trimStart s = s.
Proof.
  destruct s as [|c s]; simpl; [reflexivity|]. intros ->. reflexivity.
Qed.

Lemma trimEnd_noLeading (s : string) : noLeadingSpace s -> noLeadingSpace (Js.trimEnd s).
Proof.
  destruct s as [|c s]; simpl; [auto|]. intros Hc.
  destruct (Js.trimEnd s); [rewrite Hc|]; exact Hc.
Qed.

Lemma trim_idem (s : string) : Js.trim (Js.trim s) = Js.trim s.
Proof.
  unfold Js.trim.
  rewrite (trimStart_fixed (Js.trimEnd (Js.trimStart s))).
  - apply trimEnd_idem.
  - apply trimEnd_noLeading, trimStart_noLeading.
Qed.

Variable c : ascii.

Lemma occurs_trimStart (s : string) :
  Js.occurs c s = false -> Js.occurs c (Js.trimStart s) = false.
Proof.
  induction s as [|a s IH]; simpl; [auto|]. intros H.
  apply orb_false_iff in H. destruct H as [Ha Hs].
  destruct (Js.isSpace a); [auto|]. simpl. rewrite Ha, Hs. reflexivity.
Qed.

Lemma occurs_trimEnd (s : string) :
  Js.occurs c s = false -> Js.occurs c (Js.trimEnd s) = false.
Proof.
  induction s as [|a s IH]; simpl; [auto|]. intros H.
  apply orb_false_iff in H. destruct H as [Ha Hs]. specialize (IH Hs).
  destruct (Js.trimEnd s) as [|d r].
  - destruct (Js.isSpace a); simpl; [reflexivity|]. rewrite Ha. reflexivity.
  - simpl in *. rewrite Ha. exact IH.
Qed.

Lemma occurs_trim (s : string) :
  Js.occurs c s = false -> Js.occurs c (Js.trim s) = false.
Proof. intros H. apply occurs_trimEnd, occurs_trimStart, H. Qed.

End Trim.

Lemma Forall_nth_default {A : Type} (P : A -> Prop) (l : list A) (i : nat) (d : A) :
  P d -> Forall P l -> P (nth i l d).
Proof.
  intros Hd F. revert i. induction F as [|x l Hx Hl IH]; intros [|i]; simpl; auto.
Qed.

(** The lines of the converted code, from the lines of the trimmed block. *)
Lemma convertCode_lines (rawCode : string) :
  let block := linesOf (Js.trim rawCode) in
  let first := setAt 0 (Js.trim (nth 0 block "")) block in
  linesOf (convertCode rawCode)
  = setAt (length first - 1) (Js.trim (nth (length first - 1) first "")) first.
Proof.
  intros block first. unfold convertCode, linesOf, Js.nl.
  fold (linesOf (Js.trim rawCode)). fold block. fold first.
  assert (Fb : Forall (fun part => Js.occurs Js.LF part = false) block)
    by apply Js.split_no_sep.
  assert (Ff : Forall (fun part => Js.occurs Js.LF part = false) first).
  { apply Forall_setAt; [|exact Fb].
    apply occurs_trim, Forall_nth_default; [reflexivity|exact Fb]. }
  apply Js.split_join.
  - intros E. apply (f_equal (@length string)) in E.
    unfold first in E. rewrite !length_setAt in E.
    pose proof (Js.split_nonempty Js.LF (Js.trim rawCode)) as NE.
    unfold block, linesOf in E. destruct (Js.split Js.LF (Js.trim rawCode));
      [contradiction|simpl in E; discriminate E].
  - apply Forall_setAt; [|exact Ff].
    apply occurs_trim, Forall_nth_default; [reflexivity|exact Ff].
Qed.

(** The claim read on the raw block: every interior line of the raw code
    block occurs verbatim among the lines of the converted code. *)
Definition rawInteriorKept (rawCode : string) : Prop :=
  forall i, interior i (linesOf rawCode) ->
            In (nth i (linesOf rawCode) "") (linesOf (convertCode rawCode)).

(** C10, as stated, fails: a block that starts and ends with a line break
    (the usual layout of a [<code>] element) loses the indentation of its
    interior lines, because the block is trimmed as a whole first. *)
Lemma convertCode_raw_interior_changed :
  convertCode (Js.nl ++ "  a" ++ Js.nl ++ "  b" ++ Js.nl) = "a" ++ Js.nl ++ "b" /\
  interior 1 (linesOf (Js.nl ++ "  a" ++ Js.nl ++ "  b" ++ Js.nl)) /\
  nth 1 (linesOf (Js.nl ++ "  a" ++ Js.nl ++ "  b" ++ Js.nl)) "" = "  a" /\
  ~ rawInteriorKept (Js.nl ++ "  a" ++ Js.nl ++ "  b" ++ Js.nl).
Proof.
  assert (I1 : interior 1 (linesOf (Js.nl ++ "  a" ++ Js.nl ++ "  b" ++ Js.nl)))
    by (unfold interior; vm_compute; lia).
  split; [vm_compute; reflexivity|].
  split; [exact I1|]. split; [vm_compute; reflexivity|].
  intros K. specialize (K 1%nat I1).
  assert (L : linesOf (convertCode (Js.nl ++ "  a" ++ Js.nl ++ "  b" ++ Js.nl)) = ["a"; "b"])
    by (vm_compute; reflexivity).
  assert (N : nth 1 (linesOf (Js.nl ++ "  a" ++ Js.nl ++ "  b" ++ Js.nl)) "" = "  a")
    by (vm_compute; reflexivity).
  rewrite L, N in K. simpl in K.
  destruct K as [K | [K | []]]; discriminate K.
Qed.

(** C10 (amended). The code block is trimmed as a whole; of the lines of
    the trimmed block only the first and the last are trimmed again, and
    every interior line is kept verbatim, at its position, in the code field
    of the resulting suggestion. *)
Theorem convertSuggestion_interior_verbatim :
  forall rawSuggestion : RawSuggestion,
    let block := linesOf (Js.trim (raw_code rawSuggestion)) in
    let out := linesOf (Suggestion.code (convertSuggestion rawSuggestion)) in
    length out = length block /\
    nth 0 out "" = Js.trim (nth 0 block "") /\
    nth (length block - 1) out "" = Js.trim (nth (length block - 1) block "") /\
    (forall i, interior i block -> nth i out "" = nth i block "").
Proof.
  intros rawSuggestion block out.
  assert (E : out = setAt (length block - 1)
                      (Js.trim (nth (length block - 1)
                                  (setAt 0 (Js.trim (nth 0 block "")) block) ""))
                      (setAt 0 (Js.trim (nth 0 block "")) block)).
  { unfold out. simpl. rewrite convertCode_lines. fold block.
    rewrite length_setAt. reflexivity. }
  assert (NE : (0 < length block)%nat).
  { pose proof (Js.split_nonempty Js.LF (Js.trim (raw_code rawSuggestion))) as NE.
    unfold block, linesOf. destruct (Js.split Js.LF _); [contradiction|simpl; lia]. }
  rewrite E. split; [rewrite !length_setAt; reflexivity|].
  destruct (Nat.eq_dec (length block - 1) 0) as [Z | NZ].
  - rewrite Z. rewrite !nth_setAt_eq by (rewrite ?length_setAt; lia).
    rewrite trim_idem. split; [reflexivity|]. split; [reflexivity|].
    intros i [Hi Hj]. lia.
  - split; [|split].
    + rewrite nth_setAt_neq by exact NZ. apply nth_setAt_eq. lia.
    + rewrite nth_setAt_eq by (rewrite length_setAt; lia).
      rewrite nth_setAt_neq by lia. reflexivity.
    + intros i [Hi Hj]. rewrite !nth_setAt_neq by lia. reflexivity.
Qed.

(** ** JavaScript [Map] with string keys

    A [Map] iterates in insertion order of its keys, and [set] on a present
    key replaces the value in place: an association list in key-insertion
    order, without repeated keys. *)

Module JsMap.

Section Ops.

Context {V : Type}.

Definition t : Type := list (string * V).

Definition empty : t := [].

Fixpoint set (k : string) (v : V) (m : t) : t :=
  match m with
  | [] => [(k, v)]
  | (k', v') :: rest =>
      if String.eqb k' k then (k', v) :: rest else (k', v') :: set k v rest
  end.

Fixpoint get (k : string) (m : t) : option V :=
  match m with
  | [] => None
  | (k', v') :: rest => if String.eqb k' k then Some v' else get k rest
  end.

Definition has (k : string) (m : t) : bool :=
  match get k m with
  | Some _ => true
  | None => false
  end.

Definition keys (m : t) : list string := map fst m.
Definition values (m : t) : list V := map snd m.

Lemma get_None_keys (k : string) (m : t) : get k m = None <-> ~ In k (keys m).
Proof.
  induction m as [|[k' v'] m IH]; simpl; [tauto|].
  destruct (String.eqb_spec k' k) as [E|N].
  - split; [discriminate|]. intros H. exfalso. apply H. left. exact E.
  - rewrite IH. tauto.
Qed.

Lemma get_set_eq (k : string) (v : V) (m : t) : get k (set k v m) = Some v.
Proof.
  induction m as [|[k' v'] m IH]; simpl.
  - rewrite String.eqb_refl. reflexivity.
  - destruct (String.eqb k' k) eqn:E; simpl; rewrite E; [reflexivity|exact IH].
Qed.

Lemma get_set_neq (k k2 : string) (v : V) (m : t) :
  k <> k2 -> get k2 (set k v m) = get k2 m.
Proof.
  intros N. induction m as [|[k' v'] m IH]; simpl.
  - destruct (String.eqb_spec k k2); [contradiction|reflexivity].
  - destruct (String.eqb_spec k' k) as [E|_]; simpl.
    + subst k'. destruct (String.eqb_spec k k2); [contradiction|reflexivity].
    + destruct (String.eqb k' k2); [reflexivity|exact IH].
Qed.

(** [set] on an absent key appends the entry. *)
Lemma set_fresh (k : string) (v : V) (m : t) :
  ~ In k (keys m) -> set k v m = (m ++ [(k, v)])%list.
Proof.
  induction m as [|[k' v'] m IH]; simpl; intros H; [reflexivity|].
  destruct (String.eqb_spec k' k) as [E|_]; [exfalso; apply H; left; exact E|].
  rewrite IH; [reflexivity|]. intros Hin. apply H. right. exact Hin.
Qed.

(** [set] on a present key leaves the key order alone. *)
Lemma keys_set_present (k : string) (v : V) (m : t) :
  In k (keys m) -> keys (set k v m) = keys m.
Proof.
  induction m as [|[k' v'] m IH]; simpl; intros H; [contradiction|].
  destruct (String.eqb_spec k' k) as [E|N]; simpl; [reflexivity|].
  f_equal. apply IH. destruct H as [H|H]; [contradiction|exact H].
Qed.

Lemma keys_set_NoDup (k : string) (v : V) (m : t) :
  NoDup (keys m) -> NoDup (keys (set k v m)).
Proof.
  intros ND. destruct (in_dec string_dec k (keys m)) as [Hin|Hout].
  - rewrite keys_set_present by exact Hin. exact ND.
  - rewrite set_fresh by exact Hout. unfold keys. rewrite map_app. simpl.
    apply NoDup_app; [exact ND|repeat constructor; intros []|].
    intros x Hx [<- | []]. exact (Hout Hx).
Qed.

Lemma In_get (k : string) (v : V) (m : t) :
  NoDup (keys m) -> (In (k, v) m <-> get k m = Some v).
Proof.
  induction m as [|[k' v'] m IH]; simpl; intros ND.
  - split; [intros []|discriminate].
  - inversion ND as [|? ? Hk ND']; subst.
    destruct (String.eqb_spec k' k) as [E|N].
    + subst k'. split.
      * intros [H|H]; [congruence|]. exfalso. apply Hk.
        change k with (fst (k, v)). apply in_map. exact H.
      * intros H. left. congruence.
    + rewrite <- (IH ND'). split; [intros [H|H]; [congruence|exact H]|auto].
Qed.

Lemma has_get (k : string) (m : t) :
  has k m = true <-> exists v, get k m = Some v.
Proof.
  unfold has. destruct (get k m) as [v|]; split; try discriminate; eauto.
  intros [v H]. discriminate H.
Qed.

Lemma set_set (k : string) (v1 v2 : V) (m : t) : set k v2 (set k v1 m) = set k v2 m.
Proof.
  induction m as [|[k' v'] m IH]; simpl.
  - rewrite String.eqb_refl. reflexivity.
  - destruct (String.eqb k' k) eqn:E; simpl; rewrite E; [reflexivity|].
    rewrite IH. reflexivity.
Qed.

Lemma values_app (m1 m2 : t) : values (m1 ++ m2)%list = (values m1 ++ values m2)%list.
Proof. apply map_app. Qed.

(** A present key splits the map around its entry; [set] rewrites it there. *)
Lemma set_present (k : string) (old v : V) (m : t) :
  get k m = Some old ->
  exists m1 m2 k',
    m = (m1 ++ (k', old) :: m2)%list /\ set k v m = (m1 ++ (k', v) :: m2)%list.
Proof.
  induction m as [|[k' v'] m IH]; simpl; [discriminate|].
  destruct (String.eqb k' k) eqn:E.
  - intros [= ->]. exists [], m, k'. split; reflexivity.
  - intros H. destruct (IH H) as (m1 & m2 & k2 & -> & ->).
    exists ((k', v') :: m1), m2, k2. split; reflexivity.
Qed.

End Ops.

Arguments t : clear implicits.

End JsMap.

(** ** dedupSuggestions *)

Section Dedup.

(** [suggestion.identity()]: the class computing it, [PRSuggestionImpl], is
    defined elsewhere, so deduplication is studied for an arbitrary identity. *)
Variable identity : Suggestion.t -> string.

Definition dedupStep (suggestionsMap : JsMap.t Suggestion.t) (suggestion : Suggestion.t)
  : JsMap.t Suggestion.t :=
  JsMap.set (identity suggestion) suggestion suggestionsMap.

Definition dedupSuggestions (suggestions : list Suggestion.t) : list Suggestion.t :=
  JsMap.values (fold_left dedupStep suggestions JsMap.empty).

(** The last suggestion of a list with a given identity. *)
Fixpoint lastWith (k : string) (l : list Suggestion.t) : option Suggestion.t :=
  match l with
  | [] => None
  | s :: rest =>
      match lastWith k rest with
      | Some t => Some t
      | None => if String.eqb (identity s) k then Some s else None
      end
  end.

(** Every entry is filed under the identity of its value. *)
Definition keyed (m : JsMap.t Suggestion.t) : Prop :=
  Forall (fun kv => fst kv = identity (snd kv)) m.

Lemma keyed_set (m : JsMap.t Suggestion.t) (s : Suggestion.t) :
  keyed m -> keyed (dedupStep m s).
Proof.
  unfold keyed, dedupStep. induction 1 as [|[k v] m Hk Hm IH]; simpl.
  - repeat constructor.
  - destruct (String.eqb_spec k (identity s)) as [E|N]; constructor; auto.
Qed.

Lemma fold_keyed (l : list Suggestion.t) (m : JsMap.t Suggestion.t) :
  keyed m -> keyed (fold_left dedupStep l m).
Proof.
  revert m. induction l as [|s l IH]; simpl; intros m H; [exact H|].
  apply IH, keyed_set, H.
Qed.

Lemma fold_NoDup (l : list Suggestion.t) (m : JsMap.t Suggestion.t) :
  NoDup (JsMap.keys m) -> NoDup (JsMap.keys (fold_left dedupStep l m)).
Proof.
  revert m. induction l as [|s l IH]; simpl; intros m H; [exact H|].
  apply IH, JsMap.keys_set_NoDup, H.
Qed.

Lemma fold_get (k : string) (l : list Suggestion.t) (m : JsMap.t Suggestion.t) :
  JsMap.get k (fold_left dedupStep l m)
  = match lastWith k l with
    | Some s => Some s
    | None => JsMap.get k m
    end.
Proof.
  revert m. induction l as [|s l IH]; simpl; intros m; [reflexivity|].
  rewrite IH. destruct (lastWith k l); [reflexivity|]. unfold dedupStep.
  destruct (String.eqb_spec (identity s) k) as [E|N].
  - subst k. apply JsMap.get_set_eq.
  - apply JsMap.get_set_neq. exact N.
Qed.

Lemma keyed_values (m : JsMap.t Suggestion.t) :
  keyed m -> map identity (JsMap.values m) = JsMap.keys m.
Proof.
  unfold JsMap.values, JsMap.keys.
  induction 1 as [|[k v] m Hk Hm IH]; simpl in *; [reflexivity|].
  rewrite IH, Hk. reflexivity.
Qed.

Lemma keyed_In_values (m : JsMap.t Suggestion.t) (s : Suggestion.t) :
  keyed m -> (In s (JsMap.values m) <-> In (identity s, s) m).
Proof.
  intros K. unfold JsMap.values. rewrite in_map_iff. split.
  - intros ([k v] & E & Hin). simpl in E. subst v.
    unfold keyed in K. rewrite Forall_forall in K.
    specialize (K _ Hin). simpl in K. subst k. exact Hin.
  - intros H. exists (identity s, s). split; [reflexivity|exact H].
Qed.

(** On suggestions of pairwise distinct identities nothing collapses. *)
Lemma fold_distinct (l : list Suggestion.t) (m : JsMap.t Suggestion.t) :
  NoDup (JsMap.keys m ++ map identity l) ->
  fold_left dedupStep l m = (m ++ map (fun s => (identity s, s)) l)%list.
Proof.
  revert m. induction l as [|s l IH]; simpl; intros m ND.
  - rewrite app_nil_r. reflexivity.
  - assert (Hout : ~ In (identity s) (JsMap.keys m)).
    { intros Hin. apply NoDup_remove_2 in ND. apply ND.
      apply in_or_app. left. exact Hin. }
    unfold dedupStep at 2. rewrite (JsMap.set_fresh _ _ _ Hout).
    rewrite IH.
    + rewrite <- app_assoc. reflexivity.
    + unfold JsMap.keys in *. rewrite map_app. simpl.
      rewrite <- app_assoc. exact ND.
Qed.

Lemma lastWith_Some (k : string) (l : list Suggestion.t) (s : Suggestion.t) :
  lastWith k l = Some s <->
  exists before after,
    l = (before ++ s :: after)%list /\ identity s = k /\
    Forall (fun t => identity t <> k) after.
Proof.
  revert s. induction l as [|x l IH]; intros s; simpl.
  - split; [discriminate|]. intros (b & a & E & _). destruct b; discriminate E.
  - destruct (lastWith k l) as [t|] eqn:L.
    + split.
      * intros [= ->]. destruct (proj1 (IH s) eq_refl) as (b & a & -> & Hs & Ha).
        exists (x :: b), a. auto.
      * intros (b & a & E & Hs & Ha). destruct b as [|y b]; simpl in E.
        -- injection E as -> ->.
           assert (HN : lastWith k a = None).
           { clear -Ha. induction Ha as [|y a Hy Ha IHa]; simpl; [reflexivity|].
             rewrite IHa. destruct (String.eqb_spec (identity y) k); [contradiction|reflexivity]. }
           congruence.
        -- injection E as -> ->. apply IH. exists b, a. auto.
    + split.
      * destruct (String.eqb_spec (identity x) k) as [E|N]; [|discriminate].
        intros [= ->]. exists [], l. split; [reflexivity|]. split; [exact E|].
        clear -L. induction l as [|y l IHl]; [constructor|]. simpl in L.
        destruct (lastWith k l); [discriminate|].
        destruct (String.eqb_spec (identity y) k); [discriminate|].
        constructor; auto.
      * intros (b & a & E & Hs & Ha). destruct b as [|y b]; simpl in E.
        -- injection E as -> ->. rewrite Hs, String.eqb_refl. reflexivity.
        -- injection E as -> ->.
           assert (H : None = Some s) by (apply IH; exists b, a; auto).
           discriminate H.
Qed.

Lemma dedup_In (l : list Suggestion.t) (s : Suggestion.t) :
  In s (dedupSuggestions l) <-> lastWith (identity s) l = Some s.
Proof.
  unfold dedupSuggestions.
  rewrite keyed_In_values by (apply fold_keyed; constructor).
  rewrite JsMap.In_get by (apply fold_NoDup; constructor).
  rewrite fold_get. simpl. destruct (lastWith (identity s) l); split; congruence.
Qed.

Lemma dedup_NoDup (l : list Suggestion.t) : NoDup (map identity (dedupSuggestions l)).
Proof.
  unfold dedupSuggestions. rewrite keyed_values by (apply fold_keyed; constructor).
  apply fold_NoDup. constructor.
Qed.

Lemma dedup_idem (l : list Suggestion.t) :
  dedupSuggestions (dedupSuggestions l) = dedupSuggestions l.
Proof.
  unfold dedupSuggestions at 1. rewrite fold_distinct by (simpl; apply dedup_NoDup).
  simpl. unfold JsMap.values. rewrite map_map. simpl. apply map_id.
Qed.

End Dedup.

(** C4. For any identity function, [dedupSuggestions] is idempotent; its
    output holds at most one suggestion per identity; a suggestion is in the
    output exactly when it is the last one of the input with its identity
    (the later occurrence wins); and every identity of the input is kept. *)
Theorem dedupSuggestions_idempotent_last_wins :
  forall (identity : Suggestion.t -> string) (suggestions : list Suggestion.t),
    dedupSuggestions identity (dedupSuggestions identity suggestions)
      = dedupSuggestions identity suggestions /\
    NoDup (map identity (dedupSuggestions identity suggestions)) /\
    (forall s,
        In s (dedupSuggestions identity suggestions) <->
        exists before after,
          suggestions = (before ++ s :: after)%list /\
          Forall (fun t => identity t <> identity s) after) /\
    (forall s, In s suggestions ->
               exists t, In t (dedupSuggestions identity suggestions) /\
                         identity t = identity s).
Proof.
  intros identity suggestions.
  split; [apply dedup_idem|]. split; [apply dedup_NoDup|]. split.
  - intros s. rewrite dedup_In, lastWith_Some. split.
    + intros (b & a & E & _ & Ha). exists b, a. auto.
    + intros (b & a & E & Ha). exists b, a. auto.
  - intros s Hin.
    destruct (lastWith identity (identity s) suggestions) as [t|] eqn:L.
    + pose proof L as L'. apply lastWith_Some in L'.
      destruct L' as (b & a & E & Ht & Ha).
      exists t. split; [|exact Ht]. apply dedup_In. rewrite Ht. exact L.
    + exfalso. clear -Hin L. induction suggestions as [|x l IH]; [contradiction|].
      simpl in L. destruct (lastWith identity (identity s) l); [discriminate|].
      destruct (String.eqb_spec (identity x) (identity s)) as [E|N]; [discriminate|].
      destruct Hin as [->|Hin]; [contradiction|]. apply IH; auto.
Qed.

(** ** Exceptions and promises

    A computation that may throw returns a [result]; an [async] function is
    its body in this monad, [await] is [bind], a rejected promise is
    [Throw]. *)

Inductive exn : Type :=
| TypeError (message : string)
| SyntaxError (message : string)
| Error (message : string)
| Rejected (reason : string).

Inductive result (A : Type) : Type :=
| Ok (value : A)
| Throw (e : exn).

Arguments Ok {A} value.
Arguments Throw {A} e.

Definition bind {A B : Type} (c : result A) (k : A -> result B) : result B :=
  match c with
  | Ok a => k a
  | Throw e => Throw e
  end.

Notation "x <- c ;; k" := (bind c (fun x => k))
  (at level 61, c at next level, right associativity).

(** [try { body } catch (exc) { handler(exc) }]. *)
Definition tryCatch {A : Type} (body : result A) (handler : exn -> result A) : result A :=
  match body with
  | Ok a => Ok a
  | Throw e => handler e
  end.

(** [Promise.all]: all the values, in order, or a rejection when some
    promise rejects. Which rejection wins depends on timing; the model takes
    the first in list order, and no caller below looks at it. *)
Fixpoint promiseAll {A : Type} (promises : list (result A)) : result (list A) :=
  match promises with
  | [] => Ok []
  | p :: rest =>
      match p, promiseAll rest with
      | Ok a, Ok others => Ok (a :: others)
      | Throw e, _ => Throw e
      | Ok _, Throw e => Throw e
      end
  end.

Definition settled {A : Type} (p : result A) : bool :=
  match p with
  | Ok _ => true
  | Throw _ => false
  end.

Lemma promiseAll_Ok {A : Type} (promises : list (result A)) :
  forallb settled promises = true ->
  exists values, promiseAll promises = Ok values /\ map Ok values = promises.
Proof.
  induction promises as [|p rest IH]; simpl; intros H.
  - exists []. split; reflexivity.
  - apply andb_true_iff in H. destruct H as [Hp Hrest].
    destruct (IH Hrest) as (values & E & M). destruct p as [a|e]; [|discriminate].
    rewrite E. exists (a :: values). simpl. rewrite M. split; reflexivity.
Qed.

Lemma promiseAll_Throw {A : Type} (promises : list (result A)) :
  forallb settled promises = false -> exists e, promiseAll promises = Throw e.
Proof.
  induction promises as [|p rest IH]; simpl; intros H; [discriminate|].
  destruct p as [a|e]; simpl in H.
  - destruct (IH H) as (e & E). rewrite E. exists e. reflexivity.
  - exists e. reflexivity.
Qed.

(** ** Inline fixes *)

Record Message : Type := mkMessage {
  role : string;
  content : string
}.

Record FunctionCall : Type := mkCall {
  name : string;
  arguments : string
}.

(** The reply of the model: generated text and, when the model called a
    function, the call. *)
Record ChatMessage : Type := mkReply {
  reply_content : option string;
  function_call : option FunctionCall
}.

(** The parsed arguments of the inline-fix function, for payloads that fit
    its schema: [code] and [comment] strings, [lineStart] and [lineEnd]
    integers. *)
Record FixArgs : Type := mkArgs {
  arg_code : string;
  arg_lineStart : Z;
  arg_lineEnd : Z;
  arg_comment : string
}.

Module CodeSuggestion.

Record t : Type := make {
  file : string;
  line_start : Z;
  line_end : Z;
  correction : string;
  comment : string
}.

End CodeSuggestion.

(** [arr[i]] for an integer [i]: [undefined] outside the array. *)
Definition jsIndex {A : Type} (arr : list A) (i : Z) : option A :=
  if (0 <=? i)%Z && (i <? Z.of_nat (length arr))%Z
  then nth_error arr (Z.to_nat i)
  else None.

(** A relative index of [slice]: negative counts from the end, and the
    result is clamped to the array. *)
Definition relativeIndex (len i : Z) : Z :=
  if (i <? 0)%Z then Z.max (len + i) 0 else Z.min i len.

(** [arr.slice(start, end)]. *)
Definition jsSlice {A : Type} (arr : list A) (from to : Z) : list A :=
  let len := Z.of_nat (length arr) in
  let k := relativeIndex len from in
  let final := relativeIndex len to in
  firstn (Z.to_nat (final - k)) (skipn (Z.to_nat k) arr).

Definition indentCodeFix (file : option string) (code : string) (lineStart : Z)
  : result string :=
  match file with
  | None => Throw (TypeError "Cannot read properties of null (reading 'split')")
  | Some contents =>
      let fileLines := Js.split Js.LF contents in
      match jsIndex fileLines (lineStart - 1) with
      | None => Throw (TypeError "Cannot read properties of undefined (reading 'match')")
      | Some firstLine =>
          let codeLines := Js.split Js.LF code in
          let indentation := Js.leadingSpace firstLine in
          let indentedCodeLines := map (fun line => indentation ++ line) codeLines in
          Ok (Js.join Js.nl indentedCodeLines)
      end
  end.

(** The text of the file spanned by the lines of a suggestion. *)
Definition targetLines (contents : string) (line_start line_end : Z) : string :=
  let fileLines := Js.split Js.LF contents in
  Js.join Js.nl (jsSlice fileLines (line_start - 1) line_end).

Definition isCodeSuggestionNew (contents : string) (suggestion : CodeSuggestion.t) : bool :=
  if String.eqb
       (Js.trim (targetLines contents (CodeSuggestion.line_start suggestion)
                                      (CodeSuggestion.line_end suggestion)))
       (Js.trim (CodeSuggestion.correction suggestion))
  then false
  else true.

Section InlineFix.

(** The collaborators: the prompt builder, the model call and the JSON
    parser, each free to throw. *)
Variable getInlineFixPrompt : option string -> Suggestion.t -> result (list Message).
Variable generateChatCompletion : list Message -> result ChatMessage.
Variable JSON_parse : string -> result FixArgs.

(** The body of the [try] block. *)
Definition inlineFixAttempt (suggestion : Suggestion.t) (file : PRFile)
  : result (option CodeSuggestion.t) :=
  messages <- getInlineFixPrompt (current_contents file) suggestion ;;
  reply <- generateChatCompletion messages ;;
  match function_call reply with
  | None => Throw (Error "No function call found")
  | Some call =>
      args <- JSON_parse (arguments call) ;;
      let initialCode := arg_code args in
      indentedCode <- indentCodeFix (current_contents file) initialCode (arg_lineStart args) ;;
      let codeFix :=
        CodeSuggestion.make (Suggestion.filename suggestion) (arg_lineStart args)
          (arg_lineEnd args) indentedCode (arg_comment args) in
      match current_contents file with
      | None => Throw (TypeError "Cannot read properties of null (reading 'split')")
      | Some contents =>
          if isCodeSuggestionNew contents codeFix then Ok (Some codeFix) else Ok None
      end
  end.

Definition generateInlineComments (suggestion : Suggestion.t) (file : PRFile)
  : result (option CodeSuggestion.t) :=
  tryCatch (inlineFixAttempt suggestion file) (fun exc => Ok None).

(** The fan-out of [processPullRequest]: one attempt per structured
    suggestion whose file is found, then the non-null fixes. *)
Definition inlineCommentFor (files : list PRFile) (suggestion : Suggestion.t)
  : result (option CodeSuggestion.t) :=
  match find (fun file => String.eqb (filename file) (Suggestion.filename suggestion)) files with
  | None => Ok None
  | Some file => generateInlineComments suggestion file
  end.

Fixpoint nonNull {A : Type} (l : list (option A)) : list A :=
  match l with
  | [] => []
  | Some a :: rest => a :: nonNull rest
  | None :: rest => nonNull rest
  end.

Definition inlineComments (files : list PRFile) (structuredComments : list Suggestion.t)
  : result (list CodeSuggestion.t) :=
  fixes <- promiseAll (map (inlineCommentFor files) structuredComments) ;;
  Ok (nonNull fixes).

Lemma generateInlineComments_settled (suggestion : Suggestion.t) (file : PRFile) :
  settled (generateInlineComments suggestion file) = true.
Proof.
  unfold generateInlineComments, tryCatch.
  destruct (inlineFixAttempt suggestion file); reflexivity.
Qed.

Lemma generateInlineComments_caught (suggestion : Suggestion.t) (file : PRFile) (e : exn) :
  inlineFixAttempt suggestion file = Throw e ->
  generateInlineComments suggestion file = Ok None.
Proof. intros H. unfold generateInlineComments. rewrite H. reflexivity. Qed.

End InlineFix.

(** C7. When the model's replacement, re-indented and trimmed, equals the
    trimmed text of the current contents at lines [lineStart..lineEnd],
    [generateInlineComments] returns no fix. *)
Theorem generateInlineComments_redundant_fix_dropped :
  forall (getInlineFixPrompt : option string -> Suggestion.t -> result (list Message))
         (generateChatCompletion : list Message -> result ChatMessage)
         (JSON_parse : string -> result FixArgs)
         (suggestion : Suggestion.t) (file : PRFile)
         (contents : string) (messages : list Message) (reply : ChatMessage)
         (call : FunctionCall) (args : FixArgs) (indentedCode : string),
    current_contents file = Some contents ->
    getInlineFixPrompt (Some contents) suggestion = Ok messages ->
    generateChatCompletion messages = Ok reply ->
    function_call reply = Some call ->
    JSON_parse (arguments call) = Ok args ->
    indentCodeFix (Some contents) (arg_code args) (arg_lineStart args) = Ok indentedCode ->
    Js.trim indentedCode
      = Js.trim (targetLines contents (arg_lineStart args) (arg_lineEnd args)) ->
    generateInlineComments getInlineFixPrompt generateChatCompletion JSON_parse
      suggestion file = Ok None.
Proof.
  intros prompt chat parse suggestion file contents messages reply call args
    indentedCode Hc Hp Hr Hf Ha Hi Heq.
  unfold generateInlineComments, inlineFixAttempt.
  rewrite Hc, Hp. cbn [bind]. rewrite Hr. cbn [bind]. rewrite Hf, Ha. cbn [bind].
  rewrite Hi. cbn [bind]. unfold isCodeSuggestionNew.
  cbn [CodeSuggestion.line_start CodeSuggestion.line_end CodeSuggestion.correction].
  rewrite Heq, String.eqb_refl. reflexivity.
Qed.

(** The example of the specification: contents ["def f():\n    pass\n"],
    and a model proposing ["pass"] for lines 2 to 2. *)
Definition exampleContents : string :=
  "def f():" ++ Js.nl ++ "    pass" ++ Js.nl.

Definition exampleFile : PRFile :=
  mkPRFile "f.py" None 0 None (Some exampleContents).

Definition exampleSuggestion : Suggestion.t :=
  Suggestion.make "Replace the body" "style" "The body can be simplified." "pass" "f.py".

Definition examplePrompt (contents : option string) (suggestion : Suggestion.t)
  : result (list Message) :=
  Ok [mkMessage "user" (stringRaw contents ++ Js.nl ++ Suggestion.comment suggestion)].

Definition exampleReply (messages : list Message) : result ChatMessage :=
  Ok (mkReply None (Some (mkCall "fix" "{code: pass, lineStart: 2, lineEnd: 2}"))).

Definition exampleParse (payload : string) : result FixArgs :=
  Ok (mkArgs "pass" 2 2 "Same as before").

Lemma generateInlineComments_redundant_fix_example :
  indentCodeFix (Some exampleContents) "pass" 2 = Ok "    pass" /\
  targetLines exampleContents 2 2 = "    pass" /\
  generateInlineComments examplePrompt exampleReply exampleParse
    exampleSuggestion exampleFile = Ok None.
Proof.
  split; [vm_compute; reflexivity|]. split; [vm_compute; reflexivity|].
  apply (generateInlineComments_redundant_fix_dropped
           examplePrompt exampleReply exampleParse exampleSuggestion exampleFile
           exampleContents
           [mkMessage "user" (exampleContents ++ Js.nl ++ "The body can be simplified.")]
           (mkReply None (Some (mkCall "fix" "{code: pass, lineStart: 2, lineEnd: 2}")))
           (mkCall "fix" "{code: pass, lineStart: 2, lineEnd: 2}")
           (mkArgs "pass" 2 2 "Same as before")
           "    pass");
    vm_compute; reflexivity.
Defined.

(** C8. [generateInlineComments] always returns and never throws: a throw
    of the prompt builder, of the model call, of the argument parser or of
    the re-indentation, a reply without a function call, and a fix that is
    not new, all give [null]; so the fan-out over the structured suggestions
    always returns its list of fixes. *)
Theorem generateInlineComments_never_throws :
  forall (getInlineFixPrompt : option string -> Suggestion.t -> result (list Message))
         (generateChatCompletion : list Message -> result ChatMessage)
         (JSON_parse : string -> result FixArgs)
         (suggestion : Suggestion.t) (file : PRFile),
    let run := generateInlineComments getInlineFixPrompt generateChatCompletion JSON_parse in
    (exists outcome, run suggestion file = Ok outcome) /\
    (forall e,
        inlineFixAttempt getInlineFixPrompt generateChatCompletion JSON_parse
          suggestion file = Throw e ->
        run suggestion file = Ok None) /\
    (forall e,
        getInlineFixPrompt (current_contents file) suggestion = Throw e ->
        run suggestion file = Ok None) /\
    (forall messages,
        getInlineFixPrompt (current_contents file) suggestion = Ok messages ->
        (forall e, generateChatCompletion messages = Throw e ->
                   run suggestion file = Ok None) /\
        (forall reply,
            generateChatCompletion messages = Ok reply ->
            (function_call reply = None -> run suggestion file = Ok None) /\
            (forall call,
                function_call reply = Some call ->
                (forall e, JSON_parse (arguments call) = Throw e ->
                           run suggestion file = Ok None) /\
                (forall args,
                    JSON_parse (arguments call) = Ok args ->
                    (forall e,
                        indentCodeFix (current_contents file) (arg_code args)
                          (arg_lineStart args) = Throw e ->
                        run suggestion file = Ok None) /\
                    (forall contents indentedCode,
                        current_contents file = Some contents ->
                        indentCodeFix (current_contents file) (arg_code args)
                          (arg_lineStart args) = Ok indentedCode ->
                        isCodeSuggestionNew contents
                          (CodeSuggestion.make (Suggestion.filename suggestion)
                             (arg_lineStart args) (arg_lineEnd args) indentedCode
                             (arg_comment args)) = false ->
                        run suggestion file = Ok None))))) /\
    (forall (files : list PRFile) (structuredComments : list Suggestion.t),
        exists fixes,
          inlineComments getInlineFixPrompt generateChatCompletion JSON_parse
            files structuredComments = Ok fixes).
Proof.
  intros prompt chat parse suggestion file run.
  assert (Caught : forall e,
             inlineFixAttempt prompt chat parse suggestion file = Throw e ->
             run suggestion file = Ok None)
    by (intros e; apply generateInlineComments_caught).
  split.
  { unfold run, generateInlineComments, tryCatch.
    destruct (inlineFixAttempt prompt chat parse suggestion file) as [outcome|e];
      eexists; reflexivity. }
  split; [exact Caught|].
  unfold run, generateInlineComments, inlineFixAttempt.
  split; [intros e H; rewrite H; reflexivity|].
  split.
  - intros messages Hm. rewrite Hm. cbn [bind].
    split; [intros e H; rewrite H; reflexivity|].
    intros reply Hr. rewrite Hr. cbn [bind].
    split; [intros H; rewrite H; reflexivity|].
    intros call Hc. rewrite Hc.
    split; [intros e H; rewrite H; reflexivity|].
    intros args Ha. rewrite Ha. cbn [bind].
    split; [intros e H; rewrite H; reflexivity|].
    intros contents indentedCode Hcont Hi Hnew.
    rewrite Hi. cbn [bind]. rewrite Hcont, Hnew. reflexivity.
  - intros files structuredComments. unfold inlineComments.
    destruct (promiseAll_Ok (map (inlineCommentFor prompt chat parse files) structuredComments))
      as (values & E & _).
    + apply forallb_forall. intros p Hp. apply in_map_iff in Hp.
      destruct Hp as (s & <- & _). unfold inlineCommentFor.
      destruct (find _ files); [apply generateInlineComments_settled|reflexivity].
    + rewrite E. simpl. eexists. reflexivity.
Qed.

(** ** The prompt packer *)

(** A stable sort of an array of files by [patchTokenLength], ascending:
    what [Array.prototype.sort] with the comparator [a - b] yields. *)
Fixpoint insertByTokenLength (file : PRFile) (sorted : list PRFile) : list PRFile :=
  match sorted with
  | [] => [file]
  | x :: rest =>
      if (patchTokenLength file <=? patchTokenLength x)%Z
      then file :: x :: rest
      else x :: insertByTokenLength file rest
  end.

Definition sortByTokenLength (files : list PRFile) : list PRFile :=
  fold_right insertByTokenLength [] files.

Definition isEmpty {A : Type} (l : list A) : bool :=
  match l with
  | [] => true
  | _ => false
  end.

(** The extension [groupFilesByExtension] files a file under. *)
Definition extensionKey (file : PRFile) : option string :=
  option_map Js.toLowerCase (Js.pop (Js.split "." (filename file))).

(** [filesByExtension.get(extension)?.push(file)]. *)
Definition pushTo (extension : string) (file : PRFile)
  (filesByExtension : JsMap.t (list PRFile)) : JsMap.t (list PRFile) :=
  match JsMap.get extension filesByExtension with
  | Some bucket => JsMap.set extension (bucket ++ [file])%list filesByExtension
  | None => filesByExtension
  end.

Definition groupStep (filesByExtension : JsMap.t (list PRFile)) (file : PRFile)
  : JsMap.t (list PRFile) :=
  match extensionKey file with
  | Some extension =>
      if Filter.truthy (Some extension) then
        let filesByExtension :=
          if negb (JsMap.has extension filesByExtension)
          then JsMap.set extension [] filesByExtension
          else filesByExtension in
        pushTo extension file filesByExtension
      else filesByExtension
  | None => filesByExtension
  end.

Definition groupFilesByExtension (files : list PRFile) : JsMap.t (list PRFile) :=
  fold_left groupStep files JsMap.empty.

Section Packer.

(** The collaborators of [./prompts], which the packer only calls:
    [buildPatchPrompt] renders a file from its name, diff hunk and contents;
    [getTokenLength] and [isConversationWithinLimit] estimate token costs;
    [convoBuilder] is the conversation builder of the strategy at hand. *)
Variable renderPatch : string -> option string -> option string -> option string -> string.
Variable getTokenLength : string -> Z.
Variable isConversationWithinLimit : list Message -> bool.
Variable convoBuilder : string -> list Message.

(** Modelled from the spec: [buildPatchPrompt], of [./prompts], is missing; by
    section 4.2 it turns one file's diff hunk and old and current contents
    into a string, deterministically (the cached token length is no input). *)
Definition buildPatchPrompt (file : PRFile) : string :=
  renderPatch (filename file) (patch file) (old_contents file) (current_contents file).

Definition patchBuilder (file : PRFile) : string := buildPatchPrompt file.

(** Modelled from the spec: [constructPrompt], of [./prompts], is missing; by
    sections 4.3 and 4.4 a group's conversation is the scaffolding of the
    conversation builder around the joined rendered patches, as [reviewFiles]
    builds it. *)
Definition constructPrompt (files : list PRFile) : list Message :=
  convoBuilder (Js.join Js.nl (map patchBuilder files)).

(** The budget probe: build the conversation of a group and estimate it. *)
Definition fits (files : list PRFile) : bool :=
  isConversationWithinLimit (constructPrompt files).

(** One turn of the greedy loop over a sorted bucket. *)
Definition greedyStep (state : list (list PRFile) * list PRFile) (file : PRFile)
  : list (list PRFile) * list PRFile :=
  let (processGroups, currentGroup) := state in
  if fits (currentGroup ++ [file])%list
  then (processGroups, (currentGroup ++ [file])%list)
  else ((if isEmpty currentGroup then processGroups
         else (processGroups ++ [currentGroup])%list),
        [file]).

(** The body of the loop over the extension buckets. *)
Definition packBucket (processGroups : list (list PRFile)) (filesForExt : list PRFile)
  : list (list PRFile) :=
  if fits filesForExt then (processGroups ++ [filesForExt])%list
  else
    let sorted := sortByTokenLength filesForExt in
    let (processGroups, currentGroup) := fold_left greedyStep sorted (processGroups, []) in
    if isEmpty currentGroup then processGroups
    else (processGroups ++ [currentGroup])%list.

Definition processWithinLimitFiles (files : list PRFile) : list (list PRFile) :=
  if fits files then [files]
  else fold_left packBucket (JsMap.values (groupFilesByExtension files)) [].

Definition processOutsideLimitFiles (files : list PRFile) : list (list PRFile) :=
  if isEmpty files then []
  else
    let files := map stripRemovedLines files in
    if fits files then [files]
    else
      let withinLimits := filter (fun file => fits [file]) files in
      processWithinLimitFiles withinLimits.

(** [file.patchTokenLength = getTokenLength(await patchBuilder(file))]. *)
Definition withTokenLength (file : PRFile) : PRFile :=
  {| filename := filename file;
     patch := patch file;
     patchTokenLength := getTokenLength (patchBuilder file);
     old_contents := old_contents file;
     current_contents := current_contents file |}.

(** The files [reviewChanges] works on: filtered, their token length cached. *)
Definition filteredFiles (files : list PRFile) : list PRFile :=
  map withTokenLength (filter Filter.filterFile files).

Definition patchesWithinModelLimit (files : list PRFile) : list PRFile :=
  filter (fun file => fits [file]) (filteredFiles files).

Definition patchesOutsideModelLimit (files : list PRFile) : list PRFile :=
  filter (fun file => negb (fits [file])) (filteredFiles files).

(** The groups [reviewChanges] sends to the model. *)
Definition packGroups (files : list PRFile) : list (list PRFile) :=
  let withinLimitsPatchGroups := processWithinLimitFiles (patchesWithinModelLimit files) in
  let exceedingLimitsPatchGroups := processOutsideLimitFiles (patchesOutsideModelLimit files) in
  (withinLimitsPatchGroups ++ exceedingLimitsPatchGroups)%list.

(** *** Sorting *)

Lemma insert_perm (file : PRFile) (sorted : list PRFile) :
  Permutation (file :: sorted) (insertByTokenLength file sorted).
Proof.
  induction sorted as [|x rest IH]; simpl; [apply Permutation_refl|].
  destruct (patchTokenLength file <=? patchTokenLength x)%Z; [apply Permutation_refl|].
  eapply perm_trans; [apply perm_swap|]. apply perm_skip, IH.
Qed.

Lemma sort_perm (files : list PRFile) : Permutation files (sortByTokenLength files).
Proof.
  induction files as [|x rest IH]; simpl; [constructor|].
  eapply perm_trans; [apply perm_skip, IH|apply insert_perm].
Qed.

Definition ascending (files : list PRFile) : Prop :=
  StronglySorted (fun a b => (patchTokenLength a <= patchTokenLength b)%Z) files.

Lemma insert_ascending (file : PRFile) (sorted : list PRFile) :
  ascending sorted -> ascending (insertByTokenLength file sorted).
Proof.
  unfold ascending. induction 1 as [|x rest Hrest IH Hx]; simpl.
  - constructor; constructor.
  - destruct (patchTokenLength file <=? patchTokenLength x)%Z eqn:E.
    + apply Z.leb_le in E. constructor; [constructor; assumption|].
      constructor; [exact E|].
      rewrite Forall_forall in *. intros y Hy. specialize (Hx y Hy). lia.
    + apply Z.leb_gt in E. constructor; [exact IH|].
      eapply Permutation_Forall; [apply insert_perm|].
      constructor; [lia|exact Hx].
Qed.

Lemma sort_ascending (files : list PRFile) : ascending (sortByTokenLength files).
Proof.
  induction files as [|x rest IH]; simpl; [constructor|].
  apply insert_ascending, IH.
Qed.

(** Files of one token length keep their relative order. *)
Definition ofLength (n : Z) (file : PRFile) : bool := (patchTokenLength file =? n)%Z.

Lemma insert_stable (n : Z) (file : PRFile) (sorted : list PRFile) :
  ascending sorted ->
  filter (ofLength n) (insertByTokenLength file sorted)
  = filter (ofLength n) (file :: sorted).
Proof.
  unfold ascending. induction 1 as [|x rest Hrest IH Hx]; [reflexivity|].
  cbn [insertByTokenLength].
  destruct (patchTokenLength file <=? patchTokenLength x)%Z eqn:E; [reflexivity|].
  apply Z.leb_gt in E.
  change (filter (ofLength n) (x :: insertByTokenLength file rest))
    with (if ofLength n x then x :: filter (ofLength n) (insertByTokenLength file rest)
          else filter (ofLength n) (insertByTokenLength file rest)).
  rewrite IH. cbn [filter].
  destruct (ofLength n x) eqn:Ex; destruct (ofLength n file) eqn:Ef; try reflexivity.
  unfold ofLength in Ex, Ef. apply Z.eqb_eq in Ex, Ef. lia.
Qed.

Lemma sort_stable (n : Z) (files : list PRFile) :
  filter (ofLength n) (sortByTokenLength files) = filter (ofLength n) files.
Proof.
  induction files as [|x rest IH]; [reflexivity|].
  cbn [sortByTokenLength fold_right].
  rewrite insert_stable by apply sort_ascending.
  cbn [filter]. fold (sortByTokenLength rest). rewrite IH. reflexivity.
Qed.

(** *** Extension buckets *)

Definition hasKey (file : PRFile) : bool := Filter.truthy (extensionKey file).

Lemma groupStep_eq (m : JsMap.t (list PRFile)) (file : PRFile) :
  groupStep m file
  = if hasKey file then
      match extensionKey file with
      | Some extension =>
          match JsMap.get extension m with
          | Some bucket => JsMap.set extension (bucket ++ [file])%list m
          | None => (m ++ [(extension, [file])])%list
          end
      | None => m
      end
    else m.
Proof.
  unfold groupStep, hasKey. destruct (extensionKey file) as [e|]; [|reflexivity].
  destruct (Filter.truthy (Some e)); [|reflexivity].
  unfold pushTo, JsMap.has. destruct (JsMap.get e m) as [bucket|] eqn:G; cbn [negb].
  - rewrite G. reflexivity.
  - rewrite JsMap.get_set_eq, JsMap.set_set. cbn [app].
    apply JsMap.set_fresh. apply JsMap.get_None_keys. exact G.
Qed.

Lemma groupStep_perm (m : JsMap.t (list PRFile)) (file : PRFile) :
  Permutation (concat (JsMap.values (groupStep m file)))
              (concat (JsMap.values m) ++ (if hasKey file then [file] else []))%list.
Proof.
  rewrite groupStep_eq. destruct (hasKey file) eqn:K;
    [|rewrite app_nil_r; apply Permutation_refl].
  unfold hasKey in K. destruct (extensionKey file) as [e|]; [|discriminate K].
  destruct (JsMap.get e m) as [bucket|] eqn:G.
  - destruct (JsMap.set_present e bucket (bucket ++ [file])%list m G)
      as (m1 & m2 & k' & -> & ->).
    rewrite !JsMap.values_app. cbn [JsMap.values map snd].
    rewrite !concat_app. cbn [concat].
    rewrite <- !app_assoc. apply Permutation_app_head.
    apply Permutation_app_head. apply Permutation_app_comm.
  - rewrite JsMap.values_app, concat_app. cbn [JsMap.values map snd concat app].
    apply Permutation_refl.
Qed.

Lemma group_fold_perm (files : list PRFile) (m : JsMap.t (list PRFile)) :
  Permutation (concat (JsMap.values (fold_left groupStep files m)))
              (concat (JsMap.values m) ++ filter hasKey files)%list.
Proof.
  revert m. induction files as [|f files IH]; intros m; cbn [fold_left filter].
  - rewrite app_nil_r. apply Permutation_refl.
  - eapply perm_trans; [apply IH|].
    eapply perm_trans; [apply Permutation_app_tail, groupStep_perm|].
    rewrite <- app_assoc. apply Permutation_app_head.
    destruct (hasKey f); apply Permutation_refl.
Qed.

(** The buckets hold, between them, the files with a non-empty extension. *)
Lemma group_perm (files : list PRFile) :
  Permutation (concat (JsMap.values (groupFilesByExtension files)))
              (filter hasKey files).
Proof. apply (group_fold_perm files JsMap.empty). Qed.

Lemma bucket_incl (files bucket : list PRFile) (file : PRFile) :
  In bucket (JsMap.values (groupFilesByExtension files)) ->
  In file bucket -> In file files.
Proof.
  intros Hb Hf.
  assert (H : In file (concat (JsMap.values (groupFilesByExtension files))))
    by (apply in_concat; exists bucket; auto).
  apply (Permutation_in _ (group_perm files)) in H.
  apply filter_In in H. apply H.
Qed.

(** *** The greedy loop *)

(** After the loop: push the running group when it is not empty. *)
Definition closeGroup (state : list (list PRFile) * list PRFile) : list (list PRFile) :=
  let (processGroups, currentGroup) := state in
  if isEmpty currentGroup then processGroups
  else (processGroups ++ [currentGroup])%list.

Lemma packBucket_eq (processGroups : list (list PRFile)) (filesForExt : list PRFile) :
  packBucket processGroups filesForExt
  = if fits filesForExt then (processGroups ++ [filesForExt])%list
    else closeGroup (fold_left greedyStep (sortByTokenLength filesForExt) (processGroups, [])).
Proof. reflexivity. Qed.

Lemma greedyStep_eq (pg : list (list PRFile)) (cur : list PRFile) (file : PRFile) :
  greedyStep (pg, cur) file
  = if fits (cur ++ [file])%list then (pg, (cur ++ [file])%list)
    else (closeGroup (pg, cur), [file]).
Proof. reflexivity. Qed.

Lemma concat_closeGroup (pg : list (list PRFile)) (cur : list PRFile) :
  concat (closeGroup (pg, cur)) = (concat pg ++ cur)%list.
Proof.
  unfold closeGroup. destruct cur as [|x cur]; cbn [isEmpty].
  - rewrite app_nil_r. reflexivity.
  - rewrite concat_app. cbn [concat]. rewrite app_nil_r. reflexivity.
Qed.

(** The emitted groups are consecutive runs of the files, in order. *)
Lemma greedy_concat (files : list PRFile) (pg : list (list PRFile)) (cur : list PRFile) :
  concat (closeGroup (fold_left greedyStep files (pg, cur)))
  = (concat pg ++ cur ++ files)%list.
Proof.
  revert pg cur. induction files as [|f files IH]; intros pg cur; cbn [fold_left].
  - rewrite concat_closeGroup, app_nil_r. reflexivity.
  - rewrite greedyStep_eq. destruct (fits (cur ++ [f])%list).
    + rewrite IH, <- app_assoc. reflexivity.
    + rewrite IH, concat_closeGroup, <- app_assoc. reflexivity.
Qed.

Definition fitsAlone (file : PRFile) : Prop := fits [file] = true.
Definition groupFits (group : list PRFile) : Prop := fits group = true.

Lemma closeGroup_fits (pg : list (list PRFile)) (cur : list PRFile) :
  Forall groupFits pg -> (cur = [] \/ groupFits cur) ->
  Forall groupFits (closeGroup (pg, cur)).
Proof.
  intros Hpg Hcur. unfold closeGroup. destruct cur as [|x cur]; cbn [isEmpty]; [exact Hpg|].
  apply Forall_app. split; [exact Hpg|]. constructor; [|constructor].
  destruct Hcur as [E|H]; [discriminate E|exact H].
Qed.

(** Every group the loop emits passed a probe, or is a seed that fits alone. *)
Lemma greedy_fits (files : list PRFile) (pg : list (list PRFile)) (cur : list PRFile) :
  Forall fitsAlone files ->
  Forall groupFits pg -> (cur = [] \/ groupFits cur) ->
  Forall groupFits (closeGroup (fold_left greedyStep files (pg, cur))).
Proof.
  intros Hfiles. revert pg cur.
  induction Hfiles as [|f files Hf Hfiles IH]; intros pg cur Hpg Hcur; cbn [fold_left].
  - apply closeGroup_fits; assumption.
  - rewrite greedyStep_eq. destruct (fits (cur ++ [f])%list) eqn:P.
    + apply IH; [exact Hpg|right; exact P].
    + apply IH; [apply closeGroup_fits; assumption|right; exact Hf].
Qed.

Lemma packBucket_fits (pg : list (list PRFile)) (bucket : list PRFile) :
  Forall fitsAlone bucket -> Forall groupFits pg ->
  Forall groupFits (packBucket pg bucket).
Proof.
  intros Hb Hpg. rewrite packBucket_eq. destruct (fits bucket) eqn:P.
  - apply Forall_app. split; [exact Hpg|]. constructor; [exact P|constructor].
  - apply greedy_fits; [|exact Hpg|left; reflexivity].
    eapply Permutation_Forall; [apply sort_perm|exact Hb].
Qed.

Lemma packBuckets_fits (buckets : list (list PRFile)) (pg : list (list PRFile)) :
  Forall (Forall fitsAlone) buckets -> Forall groupFits pg ->
  Forall groupFits (fold_left packBucket buckets pg).
Proof.
  intros Hb. revert pg. induction Hb as [|b buckets Hb Hbs IH]; intros pg Hpg;
    cbn [fold_left]; [exact Hpg|].
  apply IH, packBucket_fits; assumption.
Qed.

Lemma processWithinLimitFiles_fits (files : list PRFile) :
  Forall fitsAlone files -> Forall groupFits (processWithinLimitFiles files).
Proof.
  intros Hfiles. unfold processWithinLimitFiles. destruct (fits files) eqn:P.
  - constructor; [exact P|constructor].
  - apply packBuckets_fits; [|constructor].
    apply Forall_forall. intros bucket Hb. apply Forall_forall. intros f Hf.
    rewrite Forall_forall in Hfiles. apply Hfiles.
    eapply bucket_incl; eassumption.
Qed.

Lemma filter_fitsAlone (files : list PRFile) :
  Forall fitsAlone (filter (fun file => fits [file]) files).
Proof.
  apply Forall_forall. intros f Hf. apply filter_In in Hf. apply Hf.
Qed.

Lemma processOutsideLimitFiles_fits (files : list PRFile) :
  Forall groupFits (processOutsideLimitFiles files).
Proof.
  unfold processOutsideLimitFiles. destruct (isEmpty files); [constructor|].
  destruct (fits (map stripRemovedLines files)) eqn:P.
  - constructor; [exact P|constructor].
  - apply processWithinLimitFiles_fits, filter_fitsAlone.
Qed.

(** C1. Every group that [reviewChanges] sends to the model, whether packed
    from the files that fit alone or from the stripped files of the second
    phase, has a conversation within the budget. *)
Theorem packGroups_within_budget :
  forall (files group : list PRFile),
    In group (packGroups files) ->
    isConversationWithinLimit (constructPrompt group) = true.
Proof.
  intros files group Hin. unfold packGroups in Hin. apply in_app_or in Hin.
  assert (H : Forall groupFits (processWithinLimitFiles (patchesWithinModelLimit files))
              /\ Forall groupFits (processOutsideLimitFiles (patchesOutsideModelLimit files))).
  { split; [|apply processOutsideLimitFiles_fits].
    apply processWithinLimitFiles_fits, filter_fitsAlone. }
  destruct H as [HA HB]. rewrite Forall_forall in HA, HB.
  destruct Hin as [Hin|Hin]; [apply (HA _ Hin)|apply (HB _ Hin)].
Qed.

(** *** The greedy packing, in the words of the specification

    [GreedyPacking current files groups]: starting with the running group
    [current], going through [files] in order and probing before each
    addition, the packer emits [groups]. A file that passes the probe joins
    the running group; at a failed probe the running group is closed, when
    it is not empty, and the failing file seeds the next one; at the end the
    running group is closed, when it is not empty. *)

Definition closed (current : list PRFile) : list (list PRFile) :=
  if isEmpty current then [] else [current].

Inductive GreedyPacking : list PRFile -> list PRFile -> list (list PRFile) -> Prop :=
| greedy_end : forall current,
    GreedyPacking current [] (closed current)
| greedy_add : forall current file rest groups,
    fits (current ++ [file])%list = true ->
    GreedyPacking (current ++ [file])%list rest groups ->
    GreedyPacking current (file :: rest) groups
| greedy_seed : forall current file rest groups,
    fits (current ++ [file])%list = false ->
    GreedyPacking [file] rest groups ->
    GreedyPacking current (file :: rest) (closed current ++ groups)%list.

Lemma closeGroup_closed (pg : list (list PRFile)) (cur : list PRFile) :
  closeGroup (pg, cur) = (pg ++ closed cur)%list.
Proof.
  unfold closeGroup, closed. destruct (isEmpty cur); [rewrite app_nil_r|]; reflexivity.
Qed.

Lemma greedy_refines (files : list PRFile) (pg : list (list PRFile)) (cur : list PRFile) :
  exists groups,
    closeGroup (fold_left greedyStep files (pg, cur)) = (pg ++ groups)%list /\
    GreedyPacking cur files groups.
Proof.
  revert pg cur. induction files as [|f files IH]; intros pg cur; cbn [fold_left].
  - exists (closed cur). split; [apply closeGroup_closed|constructor].
  - rewrite greedyStep_eq. destruct (fits (cur ++ [f])%list) eqn:P.
    + destruct (IH pg (cur ++ [f])%list) as (groups & E & G).
      exists groups. split; [exact E|]. apply greedy_add; assumption.
    + destruct (IH (closeGroup (pg, cur)) [f]) as (groups & E & G).
      exists (closed cur ++ groups)%list. split.
      * rewrite E, closeGroup_closed, <- app_assoc. reflexivity.
      * apply greedy_seed; assumption.
Qed.

Lemma GreedyPacking_nonempty (cur files : list PRFile) (groups : list (list PRFile)) :
  GreedyPacking cur files groups -> Forall (fun group => group <> []) groups.
Proof.
  assert (C : forall current, Forall (fun group : list PRFile => group <> []) (closed current)).
  { intros [|x current]; unfold closed; cbn [isEmpty]; constructor;
      [discriminate|constructor]. }
  induction 1 as [current|current file rest groups P G IH|current file rest groups P G IH].
  - apply C.
  - exact IH.
  - apply Forall_app. split; [apply C|exact IH].
Qed.

Lemma GreedyPacking_concat (cur files : list PRFile) (groups : list (list PRFile)) :
  GreedyPacking cur files groups -> concat groups = (cur ++ files)%list.
Proof.
  assert (C : forall current : list PRFile, concat (closed current) = current).
  { intros [|x current]; unfold closed; cbn [isEmpty concat];
      [reflexivity|apply app_nil_r]. }
  induction 1 as [current|current file rest groups P G IH|current file rest groups P G IH].
  - rewrite C, app_nil_r. reflexivity.
  - rewrite IH, <- app_assoc. reflexivity.
  - rewrite concat_app, C, IH. reflexivity.
Qed.

(** A bucket whose files share one non-empty extension is a single bucket. *)
Lemma group_same_key (extension : string) (files : list PRFile) (bucket : list PRFile) :
  Filter.truthy (Some extension) = true ->
  Forall (fun file => extensionKey file = Some extension) files ->
  fold_left groupStep files [(extension, bucket)] = [(extension, (bucket ++ files)%list)].
Proof.
  intros T F. revert bucket. induction F as [|f files Hf Hfiles IH]; intros bucket;
    cbn [fold_left].
  - rewrite app_nil_r. reflexivity.
  - rewrite groupStep_eq. unfold hasKey. rewrite Hf, T.
    cbn [JsMap.get]. rewrite String.eqb_refl.
    cbn [JsMap.set]. rewrite String.eqb_refl.
    rewrite IH, <- app_assoc. reflexivity.
Qed.

Lemma group_one_bucket (extension : string) (file : PRFile) (files : list PRFile) :
  Filter.truthy (Some extension) = true ->
  Forall (fun f => extensionKey f = Some extension) (file :: files) ->
  groupFilesByExtension (file :: files) = [(extension, file :: files)].
Proof.
  intros T F. inversion F as [|? ? Hf Hfiles]; subst.
  unfold groupFilesByExtension. cbn [fold_left].
  rewrite groupStep_eq. unfold hasKey. rewrite Hf, T. cbn [JsMap.get JsMap.empty app].
  apply (group_same_key extension files [file] T Hfiles).
Qed.

(** C6. A bucket that does not fit as a whole is sorted by token length,
    ascending and stably, and packed greedily in that order: the groups are
    the greedy packing of the sorted bucket, consecutive non-empty runs of
    it. In particular three files of one extension with token lengths 5, 5
    and 10, where the two of length 5 fit together and the three do not, are
    packed as the two of length 5, in their original order, and the one of
    length 10 alone. *)
Theorem packBucket_sorted_greedy :
  (forall (processGroups : list (list PRFile)) (filesForExt : list PRFile),
      fits filesForExt = false ->
      let sorted := sortByTokenLength filesForExt in
      ascending sorted /\
      Permutation filesForExt sorted /\
      (forall n, filter (ofLength n) sorted = filter (ofLength n) filesForExt) /\
      exists groups,
        packBucket processGroups filesForExt = (processGroups ++ groups)%list /\
        GreedyPacking [] sorted groups /\
        concat groups = sorted /\
        Forall (fun group => group <> []) groups) /\
  (forall (a b c : PRFile) (extension : string) (files : list PRFile),
      patchTokenLength a = 5%Z -> patchTokenLength b = 5%Z -> patchTokenLength c = 10%Z ->
      Filter.truthy (Some extension) = true ->
      extensionKey a = Some extension ->
      extensionKey b = Some extension ->
      extensionKey c = Some extension ->
      fits [a] = true -> fits [a; b] = true -> fits [a; b; c] = false ->
      In files [[a; b; c]; [a; c; b]; [c; a; b]] ->
      fits files = false ->
      sortByTokenLength files = [a; b; c] /\
      processWithinLimitFiles files = [[a; b]; [c]]).
Proof.
  split.
  - intros pg bucket P sorted.
    split; [apply sort_ascending|]. split; [apply sort_perm|].
    split; [intros n; apply sort_stable|].
    destruct (greedy_refines sorted pg []) as (groups & E & G).
    exists groups. rewrite packBucket_eq, P. fold sorted.
    split; [exact E|]. split; [exact G|].
    split; [apply (GreedyPacking_concat [] sorted groups G)
           |apply (GreedyPacking_nonempty [] sorted groups G)].
  - intros a b c e files La Lb Lc T Ka Kb Kc Fa Fab Fabc Hfiles Pfiles.
    assert (S : sortByTokenLength files = [a; b; c]).
    { destruct Hfiles as [<-|[<-|[<-|[]]]]; unfold sortByTokenLength;
        cbn [fold_right insertByTokenLength]; rewrite ?La, ?Lb, ?Lc;
        cbn [Z.leb Z.compare Pos.compare Pos.compare_cont];
        cbn [insertByTokenLength]; rewrite ?La, ?Lb, ?Lc; reflexivity. }
    split; [exact S|].
    unfold processWithinLimitFiles. rewrite Pfiles.
    assert (G : groupFilesByExtension files = [(e, files)]).
    { destruct Hfiles as [<-|[<-|[<-|[]]]]; apply group_one_bucket; auto. }
    rewrite G. cbn [JsMap.values map snd fold_left].
    rewrite packBucket_eq, Pfiles, S. cbn [fold_left].
    rewrite greedyStep_eq. cbn [app]. rewrite Fa.
    rewrite greedyStep_eq. cbn [app]. rewrite Fab.
    rewrite greedyStep_eq. cbn [app]. rewrite Fabc. reflexivity.
Qed.

(** *** The files of the emitted groups *)

Lemma packBucket_perm (pg : list (list PRFile)) (bucket : list PRFile) :
  Permutation (concat (packBucket pg bucket)) (concat pg ++ bucket)%list.
Proof.
  rewrite packBucket_eq. destruct (fits bucket).
  - rewrite concat_app. cbn [concat]. rewrite app_nil_r. apply Permutation_refl.
  - rewrite greedy_concat. cbn [app]. apply Permutation_app_head.
    apply Permutation_sym, sort_perm.
Qed.

Lemma packBuckets_perm (buckets : list (list PRFile)) (pg : list (list PRFile)) :
  Permutation (concat (fold_left packBucket buckets pg)) (concat pg ++ concat buckets)%list.
Proof.
  revert pg. induction buckets as [|b buckets IH]; intros pg; cbn [fold_left concat].
  - rewrite app_nil_r. apply Permutation_refl.
  - eapply perm_trans; [apply IH|].
    eapply perm_trans; [apply Permutation_app_tail, packBucket_perm|].
    rewrite <- app_assoc. apply Permutation_refl.
Qed.

(** What the first phase keeps: everything when the whole set fits, the
    files with a non-empty extension otherwise. *)
Definition keptWithin (files : list PRFile) : list PRFile :=
  if fits files then files else filter hasKey files.

Lemma processWithinLimitFiles_perm (files : list PRFile) :
  Permutation (concat (processWithinLimitFiles files)) (keptWithin files).
Proof.
  unfold processWithinLimitFiles, keptWithin. destruct (fits files).
  - cbn [concat]. rewrite app_nil_r. apply Permutation_refl.
  - eapply perm_trans; [apply packBuckets_perm|]. cbn [concat app]. apply group_perm.
Qed.

(** What the second phase keeps of the stripped files. *)
Definition keptOutside (files : list PRFile) : list PRFile :=
  let stripped := map stripRemovedLines files in
  if fits stripped then stripped
  else keptWithin (filter (fun file => fits [file]) stripped).

Lemma processOutsideLimitFiles_perm (files : list PRFile) :
  Permutation (concat (processOutsideLimitFiles files)) (keptOutside files).
Proof.
  unfold processOutsideLimitFiles, keptOutside. destruct files as [|f files].
  - cbn [isEmpty map concat]. destruct (fits []); [apply Permutation_refl|].
    cbn [filter]. unfold keptWithin. destruct (fits []); apply Permutation_refl.
  - cbn [isEmpty]. destruct (fits (map stripRemovedLines (f :: files))).
    + cbn [concat]. rewrite app_nil_r. apply Permutation_refl.
    + apply processWithinLimitFiles_perm.
Qed.

(** The files of all emitted groups, counted with multiplicity. *)
Lemma packGroups_files (files : list PRFile) :
  Permutation (concat (packGroups files))
              (keptWithin (patchesWithinModelLimit files)
               ++ keptOutside (patchesOutsideModelLimit files))%list.
Proof.
  unfold packGroups. rewrite concat_app.
  apply Permutation_app;
    [apply processWithinLimitFiles_perm|apply processOutsideLimitFiles_perm].
Qed.

(** *** When nothing is lost

    With a non-empty extension on every file that passes the filter, and an
    estimator for which a file of a fitting group fits alone, the emitted
    groups hold each file that fits alone and each stripped file that fits
    alone, once, and nothing else. *)

Lemma filter_all {A : Type} (p : A -> bool) (l : list A) :
  Forall (fun x => p x = true) l -> filter p l = l.
Proof.
  induction 1 as [|x l Hx Hl IH]; cbn [filter]; [reflexivity|].
  rewrite Hx, IH. reflexivity.
Qed.

Lemma filter_partition {A : Type} (p : A -> bool) (l : list A) :
  Permutation (filter p l ++ filter (fun x => negb (p x)) l) l.
Proof.
  induction l as [|x l IH]; cbn [filter]; [constructor|].
  destruct (p x); cbn [negb app].
  - apply perm_skip, IH.
  - apply Permutation_sym, Permutation_cons_app, Permutation_sym, IH.
Qed.

Lemma NoDup_map_filter {A B : Type} (g : A -> B) (p : A -> bool) (l : list A) :
  NoDup (map g l) -> NoDup (map g (filter p l)).
Proof.
  induction l as [|x l IH]; cbn [map filter]; intros ND; [constructor|].
  inversion ND as [|? ? Hx ND']; subst. destruct (p x); cbn [map]; [|auto].
  constructor; [|auto]. intros Hin. apply Hx.
  apply in_map_iff in Hin. destruct Hin as (y & E & Hy).
  apply in_map_iff. exists y. split; [exact E|]. apply filter_In in Hy. apply Hy.
Qed.

Lemma keptWithin_all (files : list PRFile) :
  Forall (fun file => hasKey file = true) files -> keptWithin files = files.
Proof.
  intros H. unfold keptWithin. destruct (fits files); [reflexivity|].
  apply filter_all, H.
Qed.

Lemma filenames_filtered (files : list PRFile) :
  map filename (filteredFiles files) = map filename (filter Filter.filterFile files).
Proof. unfold filteredFiles. rewrite map_map. reflexivity. Qed.

Lemma filenames_stripped (files : list PRFile) :
  map filename (map stripRemovedLines files) = map filename files.
Proof. rewrite map_map. reflexivity. Qed.

(** X9. When every file that passes the filter has a non-empty extension,
    a file of a fitting group fits alone, and the file names are distinct,
    the emitted groups hold exactly the files that fit alone and the stripped
    files that fit alone, and no file name occurs twice among them. *)
Lemma packGroups_partition (files : list PRFile) :
  Forall (fun file => hasKey file = true) (filter Filter.filterFile files) ->
  (forall group file, fits group = true -> In file group -> fits [file] = true) ->
  NoDup (map filename files) ->
  Permutation (concat (packGroups files))
    (patchesWithinModelLimit files
     ++ filter (fun file => fits [file])
          (map stripRemovedLines (patchesOutsideModelLimit files)))%list /\
  NoDup (map filename (concat (packGroups files))).
Proof.
  intros Hkey Hmono Hnodup.
  assert (KF : Forall (fun file => hasKey file = true) (filteredFiles files)).
  { unfold filteredFiles. apply Forall_forall. intros f Hf.
    apply in_map_iff in Hf. destruct Hf as (g & <- & Hg).
    rewrite Forall_forall in Hkey. exact (Hkey g Hg). }
  assert (KW : Forall (fun file => hasKey file = true) (patchesWithinModelLimit files))
    by apply Forall_filter, KF.
  assert (KS : Forall (fun file => hasKey file = true)
                 (map stripRemovedLines (patchesOutsideModelLimit files))).
  { apply Forall_forall. intros f Hf. apply in_map_iff in Hf.
    destruct Hf as (g & <- & Hg). apply filter_In in Hg.
    rewrite Forall_forall in KF. exact (KF g (proj1 Hg)). }
  assert (P : Permutation (concat (packGroups files))
                (patchesWithinModelLimit files
                 ++ filter (fun file => fits [file])
                      (map stripRemovedLines (patchesOutsideModelLimit files)))%list).
  { eapply perm_trans; [apply packGroups_files|].
    rewrite (keptWithin_all _ KW). apply Permutation_app_head.
    unfold keptOutside.
    destruct (fits (map stripRemovedLines (patchesOutsideModelLimit files))) eqn:E.
    - rewrite filter_all; [apply Permutation_refl|].
      apply Forall_forall. intros f Hf. exact (Hmono _ f E Hf).
    - rewrite keptWithin_all; [apply Permutation_refl|]. apply Forall_filter, KS. }
  split; [exact P|].
  eapply Permutation_NoDup; [apply Permutation_map, Permutation_sym, P|].
  assert (NF : NoDup (map filename (filteredFiles files))).
  { rewrite filenames_filtered. apply NoDup_map_filter, Hnodup. }
  assert (NP : NoDup (map filename
                        (patchesWithinModelLimit files ++ patchesOutsideModelLimit files))).
  { eapply Permutation_NoDup; [|exact NF].
    apply Permutation_map, Permutation_sym, filter_partition. }
  rewrite map_app in NP |- *.
  apply NoDup_app.
  - exact (NoDup_app_remove_r _ _ NP).
  - apply NoDup_map_filter. rewrite filenames_stripped.
    exact (NoDup_app_remove_l _ _ NP).
  - intros name Hw Hs.
    assert (Ho : In name (map filename (patchesOutsideModelLimit files))).
    { rewrite <- filenames_stripped. apply in_map_iff in Hs.
      destruct Hs as (f & <- & Hf). apply in_map. apply filter_In in Hf. apply Hf. }
    apply in_split in Hw. destruct Hw as (l1 & l2 & Ew). rewrite Ew in NP.
    rewrite <- app_assoc in NP. cbn [app] in NP.
    apply NoDup_remove_2 in NP. apply NP.
    rewrite app_assoc. apply in_or_app. right. exact Ho.
Qed.

End Packer.

(** ** A small instance of the collaborators

    To run the packer on small inputs: a patch is rendered as its diff hunk,
    a token is a character, the conversation is a system turn followed by
    the diff, and the budget is 19 tokens. *)

Module Demo.

Definition renderPatch (name : string) (hunk old current : option string) : string :=
  stringRaw hunk.

Definition getTokenLength (text : string) : Z := Z.of_nat (String.length text).

Definition convoBuilder (diff : string) : list Message :=
  [mkMessage "system" "Review:"; mkMessage "user" diff].

Definition tokenLimit : Z := 19.

Definition isConversationWithinLimit (convo : list Message) : bool :=
  (fold_right (fun m total => (getTokenLength (content m) + total)%Z) 0%Z convo
   <? tokenLimit)%Z.

Definition probe : list PRFile -> bool :=
  fits renderPatch isConversationWithinLimit convoBuilder.

Definition packGroups : list PRFile -> list (list PRFile) :=
  packGroups renderPatch getTokenLength isConversationWithinLimit convoBuilder.

Definition changed (name hunk : string) : PRFile :=
  mkPRFile name (Some hunk) 0 None None.

(** As [reviewChanges] leaves a file: its token length cached. *)
Definition cached (file : PRFile) : PRFile :=
  withTokenLength renderPatch getTokenLength file.

(** Three files of one extension, of 5, 5 and 10 tokens. *)
Definition a : PRFile := changed "src/a.ts" "+aaaa".
Definition b : PRFile := changed "src/b.ts" "+bbbb".
Definition c : PRFile := changed "src/c.ts" "+ccccccccc".

(** Two files that fit alone and not together; the name of the first ends
    with a dot. *)
Definition notes : PRFile := changed "docs/notes." "+aaaaaaaaa".
Definition main : PRFile := changed "src/main.ts" "+bbbbbbbbb".

(** A file too large alone, and small enough without its removed line. *)
Definition big : PRFile :=
  changed "src/big.ts" ("+x" ++ Js.nl ++ "-yyyyyyyyyyyyyyyy").

Lemma join_length_ge (sep part : string) (parts : list string) :
  In part parts -> (String.length part <= String.length (Js.join sep parts))%nat.
Proof.
  induction parts as [|x rest IH]; intros Hin; [contradiction|].
  destruct rest as [|y rest].
  - destruct Hin as [<-|[]]. apply Nat.le_refl.
  - change (Js.join sep (x :: y :: rest)) with (x ++ sep ++ Js.join sep (y :: rest)).
    rewrite !Js.length_append. destruct Hin as [<-|Hin]; [lia|].
    specialize (IH Hin). lia.
Qed.

(** A file of a group that fits fits alone. *)
Lemma fits_monotone (group : list PRFile) (file : PRFile) :
  probe group = true -> In file group -> probe [file] = true.
Proof.
  unfold probe, fits. intros H Hin.
  apply Z.ltb_lt in H. apply Z.ltb_lt.
  pose proof (join_length_ge Js.nl (patchBuilder renderPatch file)
                (map (patchBuilder renderPatch) group) (in_map _ _ _ Hin)) as L.
  cbn [isConversationWithinLimit constructPrompt convoBuilder fold_right content
       map Js.join String.concat] in *.
  unfold getTokenLength in *. lia.
Qed.

End Demo.

Lemma packGroups_within_budget_example :
  (In [Demo.cached Demo.a; Demo.cached Demo.b] (Demo.packGroups [Demo.c; Demo.a; Demo.b]) /\
   Demo.isConversationWithinLimit
     (constructPrompt Demo.renderPatch Demo.convoBuilder
        [Demo.cached Demo.a; Demo.cached Demo.b]) = true) /\
  (Demo.probe [Demo.cached Demo.big] = false /\
   In [stripRemovedLines (Demo.cached Demo.big)] (Demo.packGroups [Demo.big; Demo.a]) /\
   Demo.isConversationWithinLimit
     (constructPrompt Demo.renderPatch Demo.convoBuilder
        [stripRemovedLines (Demo.cached Demo.big)]) = true).
Proof.
  assert (H1 : In [Demo.cached Demo.a; Demo.cached Demo.b]
                  (Demo.packGroups [Demo.c; Demo.a; Demo.b]))
    by (vm_compute; left; reflexivity).
  assert (H2 : In [stripRemovedLines (Demo.cached Demo.big)]
                  (Demo.packGroups [Demo.big; Demo.a]))
    by (vm_compute; right; left; reflexivity).
  split; [split; [exact H1|]|split; [vm_compute; reflexivity|split; [exact H2|]]].
  - exact (packGroups_within_budget Demo.renderPatch Demo.getTokenLength
             Demo.isConversationWithinLimit Demo.convoBuilder
             [Demo.c; Demo.a; Demo.b] [Demo.cached Demo.a; Demo.cached Demo.b] H1).
  - exact (packGroups_within_budget Demo.renderPatch Demo.getTokenLength
             Demo.isConversationWithinLimit Demo.convoBuilder
             [Demo.big; Demo.a] [stripRemovedLines (Demo.cached Demo.big)] H2).
Defined.

(** With no file that fits alone the first phase still emits one group,
    the empty one, whenever the scaffolding alone fits. *)
Lemma packGroups_empty_group_example :
  Demo.packGroups [] = [[]] /\
  Demo.packGroups [Demo.big] = [[]; [stripRemovedLines (Demo.cached Demo.big)]].
Proof. split; vm_compute; reflexivity. Qed.

(** The partition of the files among the groups, on the small instance. *)
Lemma packGroups_partition_example :
  Permutation (concat (Demo.packGroups [Demo.big; Demo.c; Demo.a; Demo.b]))
    [Demo.cached Demo.c; Demo.cached Demo.a; Demo.cached Demo.b;
     stripRemovedLines (Demo.cached Demo.big)] /\
  NoDup (map filename (concat (Demo.packGroups [Demo.big; Demo.c; Demo.a; Demo.b]))).
Proof.
  destruct (packGroups_partition Demo.renderPatch Demo.getTokenLength
              Demo.isConversationWithinLimit Demo.convoBuilder
              [Demo.big; Demo.c; Demo.a; Demo.b]) as [P N].
  - vm_compute. repeat constructor.
  - apply Demo.fits_monotone.
  - cbn [map filename Demo.big Demo.a Demo.b Demo.c Demo.changed].
    repeat constructor; cbn [In]; intros H;
      repeat (destruct H as [H|H]; [discriminate H|]); exact H.
  - split; [|exact N]. eapply perm_trans; [exact P|].
    vm_compute. apply Permutation_refl.
Defined.

Lemma packBucket_sorted_greedy_example :
  Demo.packGroups [Demo.c; Demo.a; Demo.b]
  = [[Demo.cached Demo.a; Demo.cached Demo.b]; [Demo.cached Demo.c]].
Proof.
  destruct (proj2 (packBucket_sorted_greedy Demo.renderPatch
                     Demo.isConversationWithinLimit Demo.convoBuilder)
              (Demo.cached Demo.a) (Demo.cached Demo.b) (Demo.cached Demo.c) "ts"
              [Demo.cached Demo.c; Demo.cached Demo.a; Demo.cached Demo.b]
              eq_refl eq_refl eq_refl eq_refl eq_refl eq_refl eq_refl
              eq_refl eq_refl eq_refl
              (or_intror (or_intror (or_introl eq_refl))) eq_refl) as [_ H].
  rewrite <- H. vm_compute. reflexivity.
Defined.

(** C2, at a failing input. Both files pass the filter and fit the budget
    alone, so neither is "still too large after stripping"; they do not fit
    together, the set is bucketed by extension, and the file whose name ends
    with a dot, having an empty extension, is filed in no bucket: it is in no
    group, though nothing exceeds the budget. When the two fit together the
    same file is kept. *)
Theorem packGroups_drops_empty_extension :
  Filter.filterFile Demo.notes = true /\
  Filter.filterFile Demo.main = true /\
  Demo.probe [Demo.cached Demo.notes] = true /\
  Demo.probe [Demo.cached Demo.main] = true /\
  Demo.probe [Demo.cached Demo.notes; Demo.cached Demo.main] = false /\
  extensionKey Demo.notes = Some "" /\
  Demo.packGroups [Demo.notes; Demo.main] = [[Demo.cached Demo.main]] /\
  ~ In (Demo.cached Demo.notes) (concat (Demo.packGroups [Demo.notes; Demo.main])) /\
  Demo.packGroups [Demo.changed "docs/notes." "+a"; Demo.changed "src/main.ts" "+b"]
  = [[Demo.cached (Demo.changed "docs/notes." "+a");
      Demo.cached (Demo.changed "src/main.ts" "+b")]].
Proof.
  assert (G : Demo.packGroups [Demo.notes; Demo.main] = [[Demo.cached Demo.main]])
    by (vm_compute; reflexivity).
  repeat split; try (vm_compute; reflexivity).
  rewrite G. cbn [concat app]. intros [H|[]].
  apply (f_equal filename) in H. vm_compute in H. discriminate H.
Qed.

(** ** Response builders *)

Record BuilderResponse : Type := mkResponse {
  comment : string;
  structuredComments : list Suggestion.t
}.

(** A feedback is the content of the reply of the model to one group: its
    text, or null when the reply holds no text. *)
Definition Feedback : Type := option string.

(** A strategy: how to build the conversation, how to read the feedback. *)
Record Builders : Type := mkBuilders {
  convoBuilder : string -> list Message;
  responseBuilder : list Feedback -> result BuilderResponse
}.

(** [arr.join(sep)] on an array that may hold null: null is joined as the
    empty string. *)
Definition joinNullable (sep : string) (arr : list (option string)) : string :=
  Js.join sep (map (fun element => match element with
                                   | Some text => text
                                   | None => EmptyString
                                   end) arr).

Definition basicResponseBuilder (feedbacks : list Feedback) : result BuilderResponse :=
  let commentBlob := joinNullable Js.nl feedbacks in
  Ok (mkResponse commentBlob []).

(** *** The feedback given to the XML parser *)

(** [n] characters dropped from the front. *)
Fixpoint dropChars (n : nat) (s : string) : string :=
  match n, s with
  | O, _ => s
  | S m, String _ rest => dropChars m rest
  | S _, EmptyString => EmptyString
  end.

(** The text before and after the first occurrence of [pattern] in [s]. *)
Fixpoint findSplit (pattern s : string) : option (string * string) :=
  if String.prefix pattern s then Some (EmptyString, dropChars (String.length pattern) s)
  else
    match s with
    | EmptyString => None
    | String c rest =>
        match findSplit pattern rest with
        | Some (before, after) => Some (String c before, after)
        | None => None
        end
    end.

(** [s.split(separator)] for a separator of one character or more: the
    pieces between the occurrences of the separator, found from the left
    and not overlapping. [skip] counts the characters of a separator that
    was met and is not yet passed. *)
Fixpoint splitSkip (separator : string) (skip : nat) (s : string) : list string :=
  match s with
  | EmptyString => [EmptyString]
  | String c rest =>
      match skip with
      | S k => splitSkip separator k rest
      | O =>
          if String.prefix separator s
          then EmptyString :: splitSkip separator (String.length separator - 1) rest
          else match splitSkip separator 0 rest with
               | [] => [String c EmptyString]
               | h :: t => String c h :: t
               end
      end
  end.

Definition splitOn (separator s : string) : list string := splitSkip separator 0 s.

(** The code payloads wrapped in CDATA sections, so that the parser takes
    them as text. *)
Definition wrapCdata (fb : string) : string :=
  Js.join "]]></code>"
    (splitOn "</code>" (Js.join "<code><![CDATA[" (splitOn "<code>" fb))).

(** *** What the parser returns *)

(** What xml2js makes of a feedback, as far as the conversion reads it. The
    parser returns null for an empty document and otherwise an object with
    one property, named after the root element. The children of an element
    are arrays under their tag names; an element without child elements is
    its text. Of each child of a suggestion the conversion reads element 0:
    for [code] its text or, when the element holds attributes or elements
    of its own, an object; for [describe], [type], [comment] and [filename]
    the text of the element, which the conversion hands on unread (markup
    inside these four is not modelled). A child that is absent is [None]; a
    suggestion element without child elements, which the parser gives as
    its text, has all five absent. *)
Inductive XmlCode : Type :=
| CodeText (text : string)
| CodeObject.

Record XmlSuggestion : Type := mkXmlSuggestion {
  xml_describe : option string;
  xml_type : option string;
  xml_comment : option string;
  xml_code : option XmlCode;
  xml_filename : option string
}.

Inductive XmlDocument : Type :=
| EmptyDocument
| OtherRoot
| ReviewWithoutSuggestion
| Review (suggestion : list XmlSuggestion).

(** The TypeError of a property read on [undefined] or [null]. *)
Definition cannotRead (value property : string) : exn :=
  TypeError ("Cannot read properties of " ++ value ++ " (reading '" ++ property ++ "')").

(** [sug.review.suggestion]: [undefined] when the review has no suggestion
    element; the read throws when there is no review. *)
Definition suggestionOf (sug : XmlDocument) : result (list (option XmlSuggestion)) :=
  match sug with
  | EmptyDocument => Throw (cannotRead "null" "review")
  | OtherRoot => Throw (cannotRead "undefined" "suggestion")
  | ReviewWithoutSuggestion => Ok [None]
  | Review suggestion => Ok (map Some suggestion)
  end.

(** [child[0]] of a child array that may be absent. *)
Definition elementZero (child : option string) : result string :=
  match child with
  | Some text => Ok text
  | None => Throw (cannotRead "undefined" "0")
  end.

(** [arr.map(f)] for an [f] that may throw: the first throw ends the map. *)
Fixpoint mapThrow {A B : Type} (f : A -> result B) (l : list A) : result (list B) :=
  match l with
  | [] => Ok []
  | x :: rest =>
      y <- f x ;;
      ys <- mapThrow f rest ;;
      Ok (y :: ys)
  end.

(** The callback of the conversion: the code block first, then the
    arguments of the constructor from left to right. *)
Definition convertRawSuggestion (rawSuggestion : option XmlSuggestion) : result Suggestion.t :=
  match rawSuggestion with
  | None => Throw (cannotRead "undefined" "code")
  | Some raw =>
      match xml_code raw with
      | None => Throw (cannotRead "undefined" "0")
      | Some CodeObject => Throw (TypeError "rawSuggestion.code[0].trim is not a function")
      | Some (CodeText code) =>
          describe <- elementZero (xml_describe raw) ;;
          type <- elementZero (xml_type raw) ;;
          comment <- elementZero (xml_comment raw) ;;
          filename <- elementZero (xml_filename raw) ;;
          Ok (convertSuggestion (mkRaw describe type comment code filename))
      end
  end.

Section XmlResponse.

(** [xmlParser.parseStringPromise] of xml2js: the parsed document, or a
    rejection on malformed input. The rendering of suggestions as comments
    depends on the comment template of [./prompts], which is missing. *)
Variable parseStringPromise : string -> result XmlDocument.
Variable identity : Suggestion.t -> string.
Variable convertPRSuggestionToComment : list Suggestion.t -> list string.

(** The callback of the first map: wrapping a null feedback throws, before
    any promise is awaited. *)
Definition parseFeedback (fb : Feedback) : result (result XmlDocument) :=
  match fb with
  | None => Throw (cannotRead "null" "split")
  | Some text => Ok (parseStringPromise (wrapCdata text))
  end.

Definition processXMLSuggestions (feedbacks : list Feedback) : result (list Suggestion.t) :=
  promises <- mapThrow parseFeedback feedbacks ;;
  parsedSuggestions <- promiseAll promises ;;
  perFeedback <- mapThrow suggestionOf parsedSuggestions ;;
  let allSuggestions := concat perFeedback in
  mapThrow convertRawSuggestion allSuggestions.

Definition xmlResponseBuilder (feedbacks : list Feedback) : result BuilderResponse :=
  parsedXMLSuggestions <- processXMLSuggestions feedbacks ;;
  let comments :=
    convertPRSuggestionToComment (dedupSuggestions identity parsedXMLSuggestions) in
  let commentBlob := Js.join Js.nl comments in
  Ok (mkResponse commentBlob parsedXMLSuggestions).

End XmlResponse.

(** ** reviewChanges and reviewChangesRetry *)

(** [arr.map((x, i) => f(i, x))], counting from [i]. *)
Fixpoint mapi {A B : Type} (f : nat -> A -> B) (i : nat) (l : list A) : list B :=
  match l with
  | [] => []
  | x :: rest => f i x :: mapi f (S i) rest
  end.

(** The first attempt that returned, or the aggregate error. *)
Fixpoint firstSuccess (attempts : list (result BuilderResponse)) : result BuilderResponse :=
  match attempts with
  | [] => Throw (Error "All convoBuilders failed.")
  | Ok response :: _ => Ok response
  | Throw _ :: rest => firstSuccess rest
  end.

Section Review.

Variable renderPatch : string -> option string -> option string -> option string -> string.
Variable getTokenLength : string -> Z.
Variable isConversationWithinLimit : list Message -> bool.

(** The model. It need not answer the same conversation twice alike: the
    answer may depend on the attempt (the position of the strategy) and on
    the position of the group among the groups of that attempt. *)
Variable reviewDiff : nat -> nat -> list Message -> result Feedback.

Definition reviewFiles (attempt index : nat) (convo : string -> list Message)
  (files : list PRFile) : result Feedback :=
  let patches := map (patchBuilder renderPatch) files in
  let messages := convo (Js.join Js.nl patches) in
  reviewDiff attempt index messages.

Definition reviewChanges (attempt : nat) (files : list PRFile) (builders : Builders)
  : result BuilderResponse :=
  let groups :=
    packGroups renderPatch getTokenLength isConversationWithinLimit
      (convoBuilder builders) files in
  feedbacks <-
    promiseAll (mapi (fun index patchGroup =>
                        reviewFiles attempt index (convoBuilder builders) patchGroup)
                     0 groups) ;;
  tryCatch (responseBuilder builders feedbacks) (fun exc => Throw exc).

(** The caller's files after a call of [reviewChanges]: the files that pass
    the filter carry their token length. *)
Definition cacheTokenLengths (files : list PRFile) : list PRFile :=
  map (fun file =>
         if Filter.filterFile file
         then withTokenLength renderPatch getTokenLength file
         else file)
      files.

Fixpoint reviewChangesRetryFrom (attempt : nat) (files : list PRFile)
  (builders : list Builders) : result BuilderResponse :=
  match builders with
  | [] => Throw (Error "All convoBuilders failed.")
  | strategy :: rest =>
      tryCatch (reviewChanges attempt files strategy)
        (fun error => reviewChangesRetryFrom (S attempt) (cacheTokenLengths files) rest)
  end.

Definition reviewChangesRetry (files : list PRFile) (builders : list Builders)
  : result BuilderResponse :=
  reviewChangesRetryFrom 0 files builders.

Lemma filteredFiles_cached (files : list PRFile) :
  filteredFiles renderPatch getTokenLength (cacheTokenLengths files)
  = filteredFiles renderPatch getTokenLength files.
Proof.
  unfold filteredFiles, cacheTokenLengths.
  induction files as [|f files IH]; [reflexivity|]. cbn [map filter].
  destruct (Filter.filterFile f) eqn:E.
  - change (Filter.filterFile (withTokenLength renderPatch getTokenLength f))
      with (Filter.filterFile f).
    rewrite E. cbn [map]. rewrite IH. reflexivity.
  - rewrite E. exact IH.
Qed.

(** A later attempt sees the same files: only the cache was refreshed. *)
Lemma reviewChanges_cached (attempt : nat) (files : list PRFile) (builders : Builders) :
  reviewChanges attempt (cacheTokenLengths files) builders
  = reviewChanges attempt files builders.
Proof.
  unfold reviewChanges, packGroups, patchesWithinModelLimit, patchesOutsideModelLimit.
  rewrite filteredFiles_cached. reflexivity.
Qed.

Lemma retryFrom_firstSuccess (builders : list Builders) (attempt : nat)
  (files current : list PRFile) :
  (forall k strategy, reviewChanges k current strategy = reviewChanges k files strategy) ->
  reviewChangesRetryFrom attempt current builders
  = firstSuccess (mapi (fun k strategy => reviewChanges k files strategy) attempt builders).
Proof.
  revert attempt current. induction builders as [|b rest IH]; intros attempt current Same;
    cbn [reviewChangesRetryFrom mapi firstSuccess]; [reflexivity|].
  rewrite Same. destruct (reviewChanges attempt files b) as [response|e];
    cbn [tryCatch]; [reflexivity|].
  apply IH. intros k strategy. rewrite reviewChanges_cached. apply Same.
Qed.

End Review.

Lemma nth_error_mapi {A B : Type} (f : nat -> A -> B) (l : list A) (i k : nat) :
  nth_error (mapi f i l) k = option_map (f (i + k)%nat) (nth_error l k).
Proof.
  revert i k. induction l as [|x l IH]; intros i [|k]; cbn [mapi nth_error option_map];
    try reflexivity.
  - rewrite Nat.add_0_r. reflexivity.
  - rewrite IH. replace (S i + k)%nat with (i + S k)%nat by lia. reflexivity.
Qed.

Lemma firstSuccess_at (attempts : list (result BuilderResponse)) (k : nat)
  (response : BuilderResponse) :
  nth_error attempts k = Some (Ok response) ->
  (forall j earlier, (j < k)%nat -> nth_error attempts j = Some earlier ->
                     settled earlier = false) ->
  firstSuccess attempts = Ok response.
Proof.
  revert k. induction attempts as [|a rest IH]; intros [|k] Hk Hbefore;
    cbn [nth_error] in Hk; try discriminate.
  - injection Hk as ->. reflexivity.
  - cbn [firstSuccess]. destruct a as [r|e].
    + specialize (Hbefore 0%nat (Ok r) (Nat.lt_0_succ k) eq_refl). discriminate Hbefore.
    + apply (IH k Hk). intros j earlier Hj Hn.
      apply (Hbefore (S j) earlier); [lia|exact Hn].
Qed.

Lemma firstSuccess_none (attempts : list (result BuilderResponse)) :
  (forall k a, nth_error attempts k = Some a -> settled a = false) ->
  firstSuccess attempts = Throw (Error "All convoBuilders failed.").
Proof.
  induction attempts as [|a rest IH]; intros H; cbn [firstSuccess]; [reflexivity|].
  destruct a as [r|e].
  - specialize (H 0%nat (Ok r) eq_refl). discriminate H.
  - apply IH. intros k a Hk. apply (H (S k) a Hk).
Qed.

(** C3. [reviewChangesRetry] runs the strategies in order, each end to end
    on the same files with its own conversation builder, and returns the
    result of the first whose run does not throw; a run throws as soon as
    the model call of one of its groups or its response builder throws; when
    every run throws, the aggregate error is thrown. *)
Theorem reviewChangesRetry_first_success :
  forall (renderPatch : string -> option string -> option string -> option string -> string)
         (getTokenLength : string -> Z)
         (isConversationWithinLimit : list Message -> bool)
         (reviewDiff : nat -> nat -> list Message -> result Feedback)
         (files : list PRFile) (builders : list Builders),
    let run := reviewChanges renderPatch getTokenLength isConversationWithinLimit reviewDiff in
    let retry :=
      reviewChangesRetry renderPatch getTokenLength isConversationWithinLimit reviewDiff in
    retry files builders
      = firstSuccess (mapi (fun k strategy => run k files strategy) 0 builders) /\
    (forall k strategy response,
        nth_error builders k = Some strategy ->
        run k files strategy = Ok response ->
        (forall j earlier, (j < k)%nat -> nth_error builders j = Some earlier ->
                           exists e, run j files earlier = Throw e) ->
        retry files builders = Ok response) /\
    ((forall k strategy, nth_error builders k = Some strategy ->
                         exists e, run k files strategy = Throw e) ->
     retry files builders = Throw (Error "All convoBuilders failed.")) /\
    (forall k strategy index group e,
        nth_error (packGroups renderPatch getTokenLength isConversationWithinLimit
                     (convoBuilder strategy) files) index = Some group ->
        reviewFiles renderPatch reviewDiff k index (convoBuilder strategy) group = Throw e ->
        exists e', run k files strategy = Throw e') /\
    (forall k strategy feedbacks,
        promiseAll
          (mapi (fun index group =>
                   reviewFiles renderPatch reviewDiff k index (convoBuilder strategy) group)
                0 (packGroups renderPatch getTokenLength isConversationWithinLimit
                     (convoBuilder strategy) files)) = Ok feedbacks ->
        run k files strategy = responseBuilder strategy feedbacks).
Proof.
  intros renderPatch getTokenLength isConversationWithinLimit reviewDiff files builders
    run retry.
  assert (Spec : retry files builders
                 = firstSuccess (mapi (fun k strategy => run k files strategy) 0 builders)).
  { unfold retry, reviewChangesRetry. apply retryFrom_firstSuccess. reflexivity. }
  split; [exact Spec|]. split; [|split; [|split]].
  - intros k strategy response Hk Hrun Hbefore. rewrite Spec.
    apply (firstSuccess_at _ k).
    + rewrite nth_error_mapi, Hk. cbn [option_map Nat.add]. rewrite Hrun. reflexivity.
    + intros j earlier Hj Hn. rewrite nth_error_mapi in Hn. cbn [Nat.add] in Hn.
      destruct (nth_error builders j) as [bj|] eqn:Ej; [|discriminate Hn].
      injection Hn as <-. destruct (Hbefore j bj Hj Ej) as [e He].
      rewrite He. reflexivity.
  - intros Hall. rewrite Spec. apply firstSuccess_none.
    intros k a Hn. rewrite nth_error_mapi in Hn. cbn [Nat.add] in Hn.
    destruct (nth_error builders k) as [bk|] eqn:Ek; [|discriminate Hn].
    injection Hn as <-. destruct (Hall k bk Ek) as [e He]. rewrite He. reflexivity.
  - intros k strategy index group e Hg Hthrow. unfold run, reviewChanges.
    destruct (promiseAll_Throw
                (mapi (fun i g => reviewFiles renderPatch reviewDiff k i
                                    (convoBuilder strategy) g)
                      0 (packGroups renderPatch getTokenLength isConversationWithinLimit
                           (convoBuilder strategy) files))) as [e' He'].
    + apply not_true_is_false. intros Hall. rewrite forallb_forall in Hall.
      specialize (Hall (Throw e)). cbn [settled] in Hall.
      assert (F : false = true); [|discriminate F]. apply Hall.
      eapply nth_error_In. rewrite nth_error_mapi, Hg. cbn [option_map Nat.add].
      rewrite Hthrow. reflexivity.
    + rewrite He'. exists e'. reflexivity.
  - intros k strategy feedbacks Hall. unfold run, reviewChanges.
    rewrite Hall. cbn [bind]. unfold tryCatch.
    destruct (responseBuilder strategy feedbacks); reflexivity.
Qed.

(** ** The two strategies of [processPullRequest], on the small instance *)

Module DemoReview.

(** A model that answers every group alike, in prose. *)
Definition reviewDiff (attempt index : nat) (messages : list Message) : result Feedback :=
  Ok (Some "Looks fine.").

(** An XML parser given prose: there is no tag. *)
Definition parseStringPromise (feedback : string) : result XmlDocument :=
  Throw (SyntaxError "Non-whitespace before first tag.").

(** Modelled from the spec: [PRSuggestionImpl.identity] is missing; by
    section 3 the identity of a suggestion is derived from its file name,
    comment and code. *)
Definition identity (suggestion : Suggestion.t) : string :=
  Suggestion.filename suggestion ++ ":" ++ Suggestion.comment suggestion ++ ":"
    ++ Suggestion.code suggestion.

Definition render (suggestions : list Suggestion.t) : list string :=
  map Suggestion.comment suggestions.

Definition xmlStrategy : Builders :=
  mkBuilders Demo.convoBuilder (xmlResponseBuilder parseStringPromise identity render).

Definition basicStrategy : Builders :=
  mkBuilders Demo.convoBuilder basicResponseBuilder.

Definition run : nat -> list PRFile -> Builders -> result BuilderResponse :=
  reviewChanges Demo.renderPatch Demo.getTokenLength Demo.isConversationWithinLimit
    reviewDiff.

Definition retry : list PRFile -> list Builders -> result BuilderResponse :=
  reviewChangesRetry Demo.renderPatch Demo.getTokenLength Demo.isConversationWithinLimit
    reviewDiff.

Definition files : list PRFile := [Demo.c; Demo.a; Demo.b].

Definition first : Suggestion.t :=
  Suggestion.make "Rename" "style" "Use a longer name." "let total = 0;" "src/a.ts".

Definition second : Suggestion.t :=
  Suggestion.make "Rename it" "naming" "Use a longer name." "let total = 0;" "src/a.ts".

Definition other : Suggestion.t :=
  Suggestion.make "Guard" "bug" "Check for null." "if (x) {}" "src/b.ts".

End DemoReview.

(** The XML strategy throws on prose, the plain strategy is then run on the
    same files and its result returned; with the XML strategy alone the
    aggregate error is thrown. *)
Lemma reviewChangesRetry_fallback_example :
  DemoReview.run 0 DemoReview.files DemoReview.xmlStrategy
    = Throw (SyntaxError "Non-whitespace before first tag.") /\
  DemoReview.retry DemoReview.files [DemoReview.xmlStrategy; DemoReview.basicStrategy]
    = Ok (mkResponse ("Looks fine." ++ Js.nl ++ "Looks fine.") []) /\
  DemoReview.retry DemoReview.files [DemoReview.xmlStrategy]
    = Throw (Error "All convoBuilders failed.").
Proof.
  destruct (reviewChangesRetry_first_success Demo.renderPatch Demo.getTokenLength
              Demo.isConversationWithinLimit DemoReview.reviewDiff DemoReview.files
              [DemoReview.xmlStrategy; DemoReview.basicStrategy])
    as (_ & First & _).
  destruct (reviewChangesRetry_first_success Demo.renderPatch Demo.getTokenLength
              Demo.isConversationWithinLimit DemoReview.reviewDiff DemoReview.files
              [DemoReview.xmlStrategy])
    as (_ & _ & None & _).
  split; [vm_compute; reflexivity|]. split.
  - apply (First 1%nat DemoReview.basicStrategy); [reflexivity|vm_compute; reflexivity|].
    intros [|j] earlier Hj Hn; [|lia]. injection Hn as <-.
    eexists. vm_compute. reflexivity.
  - apply None. intros [|[|k]] strategy Hn; cbn [nth_error] in Hn; try discriminate Hn.
    injection Hn as <-. eexists. vm_compute. reflexivity.
Defined.

(** Deduplication on the small instance: of two suggestions with one
    identity the later is kept, at the place of the earlier. *)
Lemma dedupSuggestions_example :
  dedupSuggestions DemoReview.identity
    [DemoReview.first; DemoReview.other; DemoReview.second]
  = [DemoReview.second; DemoReview.other].
Proof. vm_compute. reflexivity. Qed.

(** * Further properties of the pipeline *)

(** ** groupFilesByExtension: what the buckets are *)

Section Buckets.

(** The files filed under key [k]. *)
Definition keyIs (k : string) (file : PRFile) : bool :=
  match extensionKey file with
  | Some extension => String.eqb extension k
  | None => false
  end.

(** The bucket of key [k] after the files [files] were added to a map in
    which the bucket was [before]. *)
Definition bucketAfter (k : string) (before : option (list PRFile)) (files : list PRFile)
  : option (list PRFile) :=
  if String.eqb k "" then before
  else
    match before, filter (keyIs k) files with
    | Some bucket, added => Some (bucket ++ added)%list
    | None, [] => None
    | None, added => Some added
    end.

Lemma keyIs_key (k : string) (file : PRFile) :
  extensionKey file = Some k -> keyIs k file = true.
Proof. unfold keyIs. intros ->. apply String.eqb_refl. Qed.

Lemma keyIs_other (k e : string) (file : PRFile) :
  extensionKey file = Some e -> e <> k -> keyIs k file = false.
Proof. unfold keyIs. intros -> N. apply String.eqb_neq. exact N. Qed.

Lemma truthy_nonempty (e : string) : Filter.truthy (Some e) = true <-> e <> "".
Proof.
  unfold Filter.truthy. rewrite negb_true_iff. apply String.eqb_neq.
Qed.

Lemma get_app_fresh {V : Type} (k e : string) (v : V) (m : JsMap.t V) :
  JsMap.get e m = None ->
  JsMap.get k (m ++ [(e, v)])%list
  = if String.eqb e k then Some v else JsMap.get k m.
Proof.
  intros H. rewrite <- (JsMap.set_fresh e v m) by (apply JsMap.get_None_keys; exact H).
  destruct (String.eqb_spec e k) as [<-|N].
  - apply JsMap.get_set_eq.
  - apply JsMap.get_set_neq. exact N.
Qed.

Lemma groupStep_get (k : string) (m : JsMap.t (list PRFile)) (file : PRFile) :
  JsMap.get k (groupStep m file) = bucketAfter k (JsMap.get k m) [file].
Proof.
  rewrite groupStep_eq. unfold bucketAfter, hasKey. cbn [filter].
  destruct (extensionKey file) as [e|] eqn:K.
  - destruct (Filter.truthy (Some e)) eqn:T.
    + apply truthy_nonempty in T.
      destruct (String.eqb_spec k "") as [->|Nk].
      * destruct (JsMap.get e m) as [bucket|] eqn:G.
        -- apply JsMap.get_set_neq. exact T.
        -- rewrite get_app_fresh by exact G.
           destruct (String.eqb_spec e ""); [contradiction|reflexivity].
      * destruct (String.eqb_spec e k) as [<-|N].
        -- rewrite (keyIs_key e file K).
           destruct (JsMap.get e m) as [bucket|] eqn:G.
           ++ rewrite JsMap.get_set_eq. reflexivity.
           ++ rewrite get_app_fresh by exact G. rewrite String.eqb_refl. reflexivity.
        -- rewrite (keyIs_other k e file K N).
           destruct (JsMap.get e m) as [bucket|] eqn:G.
           ++ rewrite JsMap.get_set_neq by exact N.
              destruct (JsMap.get k m); [rewrite app_nil_r|]; reflexivity.
           ++ rewrite get_app_fresh by exact G.
              destruct (String.eqb_spec e k); [contradiction|].
              destruct (JsMap.get k m); [rewrite app_nil_r|]; reflexivity.
    + assert (E : e = "").
      { destruct (String.eqb_spec e "") as [E|N]; [exact E|].
        apply truthy_nonempty in N. congruence. }
      subst e. destruct (String.eqb_spec k "") as [->|Nk]; [reflexivity|].
      rewrite (keyIs_other k "" file K) by congruence.
      destruct (JsMap.get k m); [rewrite app_nil_r|]; reflexivity.
  - unfold keyIs. rewrite K. cbn [Filter.truthy].
    destruct (String.eqb k ""); [reflexivity|].
    destruct (JsMap.get k m); [rewrite app_nil_r|]; reflexivity.
Qed.

Lemma bucketAfter_app (k : string) (before : option (list PRFile)) (l1 l2 : list PRFile) :
  bucketAfter k (bucketAfter k before l1) l2 = bucketAfter k before (l1 ++ l2)%list.
Proof.
  unfold bucketAfter. destruct (String.eqb k ""); [reflexivity|].
  rewrite filter_app.
  destruct before as [bucket|].
  - rewrite app_assoc. reflexivity.
  - destruct (filter (keyIs k) l1) as [|x l]; [reflexivity|].
    cbn [app]. reflexivity.
Qed.

Lemma group_fold_get (k : string) (files : list PRFile) (m : JsMap.t (list PRFile)) :
  JsMap.get k (fold_left groupStep files m) = bucketAfter k (JsMap.get k m) files.
Proof.
  revert m. induction files as [|f files IH]; intros m; cbn [fold_left].
  - unfold bucketAfter. cbn [filter]. destruct (String.eqb k ""); [reflexivity|].
    destruct (JsMap.get k m); [rewrite app_nil_r|]; reflexivity.
  - rewrite IH, groupStep_get. apply (bucketAfter_app k (JsMap.get k m) [f] files).
Qed.

Lemma groupStep_NoDup (m : JsMap.t (list PRFile)) (file : PRFile) :
  NoDup (JsMap.keys m) -> NoDup (JsMap.keys (groupStep m file)).
Proof.
  intros ND. rewrite groupStep_eq. destruct (hasKey file); [|exact ND].
  destruct (extensionKey file) as [e|]; [|exact ND].
  destruct (JsMap.get e m) as [bucket|] eqn:G.
  - apply JsMap.keys_set_NoDup, ND.
  - rewrite <- (JsMap.set_fresh e [file] m) by (apply JsMap.get_None_keys; exact G).
    apply JsMap.keys_set_NoDup, ND.
Qed.

Lemma group_fold_NoDup (files : list PRFile) (m : JsMap.t (list PRFile)) :
  NoDup (JsMap.keys m) -> NoDup (JsMap.keys (fold_left groupStep files m)).
Proof.
  revert m. induction files as [|f files IH]; intros m ND; cbn [fold_left]; [exact ND|].
  apply IH, groupStep_NoDup, ND.
Qed.

Lemma group_keys_NoDup (files : list PRFile) :
  NoDup (JsMap.keys (groupFilesByExtension files)).
Proof. apply group_fold_NoDup. constructor. Qed.

Lemma group_get (files : list PRFile) (k : string) :
  JsMap.get k (groupFilesByExtension files) = bucketAfter k None files.
Proof. apply (group_fold_get k files JsMap.empty). Qed.

(** The entries of the map. *)
Lemma group_entry (files : list PRFile) (k : string) (bucket : list PRFile) :
  In (k, bucket) (groupFilesByExtension files) <->
  k <> "" /\ bucket <> [] /\ bucket = filter (keyIs k) files.
Proof.
  rewrite (JsMap.In_get k bucket _ (group_keys_NoDup files)), group_get.
  unfold bucketAfter. destruct (String.eqb_spec k "") as [->|N].
  - split; [discriminate|]. intros [H _]. contradiction.
  - destruct (filter (keyIs k) files) as [|x l] eqn:F.
    + split; [discriminate|]. intros (_ & H1 & H2). congruence.
    + split.
      * intros [= <-]. split; [exact N|]. split; [discriminate|reflexivity].
      * intros (_ & _ & ->). reflexivity.
Qed.

(** X1. [groupFilesByExtension] holds every key once; the bucket of a key
    is never empty and is exactly the files of that lower-cased extension, in
    input order; and the empty extension is no key. *)
Theorem groupFilesByExtension_buckets :
  forall files : list PRFile,
    NoDup (JsMap.keys (groupFilesByExtension files)) /\
    (forall k bucket,
        In (k, bucket) (groupFilesByExtension files) <->
        k <> "" /\ bucket <> [] /\ bucket = filter (keyIs k) files) /\
    (forall k, JsMap.get k (groupFilesByExtension files) = None <->
               k = "" \/ filter (keyIs k) files = []).
Proof.
  intros files. split; [apply group_keys_NoDup|]. split.
  - intros k bucket. apply group_entry.
  - intros k. rewrite group_get. unfold bucketAfter.
    destruct (String.eqb_spec k "") as [->|N].
    + split; auto.
    + destruct (filter (keyIs k) files) as [|x l]; split; auto.
      * discriminate.
      * intros [H|H]; [contradiction|discriminate H].
Qed.

End Buckets.

(** ** groupFilesByExtension: the order of the buckets *)

Section BucketOrder.

Definition fileKey (file : PRFile) : string :=
  match extensionKey file with
  | Some extension => extension
  | None => ""
  end.

(** The keys of the files that have one, in input order, with repeats. *)
Definition presentKeys (files : list PRFile) : list string :=
  map fileKey (filter hasKey files).

(** Each string once, at the place of its first occurrence. *)
Fixpoint firstOccurrences (l : list string) : list string :=
  match l with
  | [] => []
  | k :: rest => k :: filter (fun x => negb (String.eqb x k)) (firstOccurrences rest)
  end.

Definition mem (k : string) (ks : list string) : bool := existsb (String.eqb k) ks.

Definition addKey (ks : list string) (k : string) : list string :=
  if mem k ks then ks else (ks ++ [k])%list.

Lemma mem_In (k : string) (ks : list string) : mem k ks = true <-> In k ks.
Proof. apply Filter.has_In. Qed.

Lemma groupStep_keys (m : JsMap.t (list PRFile)) (file : PRFile) :
  JsMap.keys (groupStep m file)
  = if hasKey file then addKey (JsMap.keys m) (fileKey file) else JsMap.keys m.
Proof.
  rewrite groupStep_eq. unfold fileKey, addKey. destruct (hasKey file) eqn:H; [|reflexivity].
  unfold hasKey in H. destruct (extensionKey file) as [e|]; [|discriminate H].
  destruct (JsMap.get e m) as [bucket|] eqn:G.
  - assert (Hin : In e (JsMap.keys m)).
    { destruct (in_dec string_dec e (JsMap.keys m)) as [Hin|Hout]; [exact Hin|].
      apply JsMap.get_None_keys in Hout. congruence. }
    rewrite (JsMap.keys_set_present e _ m Hin).
    apply mem_In in Hin. rewrite Hin. reflexivity.
  - assert (Hout : mem e (JsMap.keys m) = false).
    { apply not_true_is_false. intros Hin. apply mem_In in Hin.
      apply JsMap.get_None_keys in G. contradiction. }
    rewrite Hout. unfold JsMap.keys. rewrite map_app. reflexivity.
Qed.

Lemma group_fold_keys (files : list PRFile) (m : JsMap.t (list PRFile)) :
  JsMap.keys (fold_left groupStep files m)
  = fold_left addKey (presentKeys files) (JsMap.keys m).
Proof.
  revert m. unfold presentKeys.
  induction files as [|f files IH]; intros m; cbn [fold_left filter]; [reflexivity|].
  rewrite IH, groupStep_keys. destruct (hasKey f); reflexivity.
Qed.

Lemma filter_filter {A : Type} (p q : A -> bool) (l : list A) :
  filter p (filter q l) = filter (fun x => q x && p x) l.
Proof.
  induction l as [|x l IH]; cbn [filter]; [reflexivity|].
  destruct (q x); cbn [filter andb]; [destruct (p x)|]; rewrite IH; reflexivity.
Qed.

Lemma mem_app (k : string) (l1 l2 : list string) : mem k (l1 ++ l2) = mem k l1 || mem k l2.
Proof. apply existsb_app. Qed.

Lemma addKey_fold (l acc : list string) :
  fold_left addKey l acc
  = (acc ++ filter (fun x => negb (mem x acc)) (firstOccurrences l))%list.
Proof.
  revert acc. induction l as [|k rest IH]; intros acc; cbn [fold_left firstOccurrences filter].
  - rewrite app_nil_r. reflexivity.
  - rewrite IH. unfold addKey. destruct (mem k acc) eqn:M; cbn [negb].
    + f_equal. rewrite filter_filter. apply filter_ext_in. intros x _.
      destruct (String.eqb_spec x k) as [->|N]; cbn [negb andb]; [rewrite M|]; reflexivity.
    + rewrite <- app_assoc. cbn [app]. f_equal. f_equal.
      rewrite filter_filter. apply filter_ext_in. intros x _.
      rewrite mem_app. cbn [mem existsb]. rewrite orb_false_r, negb_orb.
      rewrite andb_comm. reflexivity.
Qed.

Lemma map_keyed {A : Type} (g : string -> A) (m : list (string * A)) :
  Forall (fun kv => snd kv = g (fst kv)) m ->
  m = map (fun k => (k, g k)) (map fst m).
Proof.
  induction 1 as [|[k b] m Hk Hm IH]; cbn [map fst]; [reflexivity|].
  cbn [fst snd] in Hk. rewrite <- Hk, <- IH. reflexivity.
Qed.

(** X2. The buckets of [groupFilesByExtension] come in the order in which
    their extensions first occur among the files. *)
Theorem groupFilesByExtension_order :
  forall files : list PRFile,
    JsMap.keys (groupFilesByExtension files) = firstOccurrences (presentKeys files) /\
    groupFilesByExtension files
    = map (fun k => (k, filter (keyIs k) files)) (firstOccurrences (presentKeys files)).
Proof.
  intros files.
  assert (K : JsMap.keys (groupFilesByExtension files) = firstOccurrences (presentKeys files)).
  { unfold groupFilesByExtension. rewrite group_fold_keys, addKey_fold. cbn [JsMap.keys map app].
    apply filter_all. apply Forall_forall. intros x _. reflexivity. }
  split; [exact K|]. rewrite <- K.
  apply (map_keyed (fun k => filter (keyIs k) files)).
  apply Forall_forall. intros [k b] Hin. apply group_entry in Hin. cbn [fst snd]. apply Hin.
Qed.

End BucketOrder.

(** ** The filter and the buckets *)

Section FilterAndBuckets.










End FilterAndBuckets.

(** ** stripRemovedLines: size *)

Section StripSize.

Lemma join_filter_length (sep : string) (p : string -> bool) (parts : list string) :
  (String.length (Js.join sep (filter p parts)) <= String.length (Js.join sep parts))%nat.
Proof.
  induction parts as [|x rest IH]; [apply Nat.le_refl|].
  assert (Hrest : (String.length (Js.join sep rest)
                   <= String.length (Js.join sep (x :: rest)))%nat).
  { destruct rest as [|y rest]; [cbn; lia|].
    change (Js.join sep (x :: y :: rest)) with (x ++ sep ++ Js.join sep (y :: rest)).
    rewrite !Js.length_append. lia. }
  cbn [filter]. destruct (p x); [|lia].
  destruct (filter p rest) as [|y kept] eqn:F.
  - destruct rest as [|z rest]; [apply Nat.le_refl|].
    change (Js.join sep (x :: z :: rest)) with (x ++ sep ++ Js.join sep (z :: rest)).
    change (Js.join sep [x]) with x. rewrite !Js.length_append. lia.
  - destruct rest as [|z rest]; [discriminate F|].
    change (Js.join sep (x :: z :: rest)) with (x ++ sep ++ Js.join sep (z :: rest)).
    change (Js.join sep (x :: y :: kept)) with (x ++ sep ++ Js.join sep (y :: kept)).
    rewrite !Js.length_append. lia.
Qed.

(** The patch has no removed line. *)
Definition noRemovedLine (p : string) : Prop :=
  Forall (fun line => Js.startsWith "-" line = false) (Js.split Js.LF p).

(** X4. Stripping the removed lines never lengthens a patch, and leaves a
    patch without removed lines as it is. *)
Theorem stripPatch_shrinks :
  (forall p : string, (String.length (stripPatch p) <= String.length p)%nat) /\
  (forall p : string, noRemovedLine p -> stripPatch p = p) /\
  (forall p : string, noRemovedLine (stripPatch p)).
Proof.
  split; [|split].
  - intros p. unfold stripPatch.
    rewrite <- (Js.join_split Js.LF p) at 2. apply join_filter_length.
  - intros p H. unfold stripPatch. rewrite filter_all.
    + apply Js.join_split.
    + eapply Forall_impl; [|exact H]. intros line Hl. unfold keptLine. rewrite Hl. reflexivity.
  - intros p. unfold noRemovedLine.
    destruct (filter keptLine (Js.split Js.LF p)) as [|x kept] eqn:E.
    + assert (H : stripPatch p = "") by (unfold stripPatch; rewrite E; reflexivity).
      rewrite H. repeat constructor.
    + rewrite stripPatch_lines by (rewrite E; discriminate). rewrite E.
      apply Forall_forall. intros line Hin. rewrite <- E in Hin.
      apply filter_In in Hin. destruct Hin as [_ Hk]. unfold keptLine in Hk.
      apply negb_true_iff in Hk. exact Hk.
Qed.

End StripSize.

(** ** The packer: empty groups, extensions, maximal groups *)

Section PackerFacts.

Variable renderPatch : string -> option string -> option string -> option string -> string.
Variable getTokenLength : string -> Z.
Variable isConversationWithinLimit : list Message -> bool.
Variable convoBuilder : string -> list Message.

Abbreviation fits := (fits renderPatch isConversationWithinLimit convoBuilder).
Abbreviation packBucket := (packBucket renderPatch isConversationWithinLimit convoBuilder).
Abbreviation greedyStep := (greedyStep renderPatch isConversationWithinLimit convoBuilder).
Abbreviation GreedyPacking := (GreedyPacking renderPatch isConversationWithinLimit convoBuilder).
Abbreviation processWithinLimitFiles :=
  (processWithinLimitFiles renderPatch isConversationWithinLimit convoBuilder).
Abbreviation processOutsideLimitFiles :=
  (processOutsideLimitFiles renderPatch isConversationWithinLimit convoBuilder).
Abbreviation patchesWithinModelLimit :=
  (patchesWithinModelLimit renderPatch getTokenLength isConversationWithinLimit convoBuilder).
Abbreviation patchesOutsideModelLimit :=
  (patchesOutsideModelLimit renderPatch getTokenLength isConversationWithinLimit convoBuilder).
Abbreviation packGroups :=
  (packGroups renderPatch getTokenLength isConversationWithinLimit convoBuilder).
Abbreviation filteredFiles := (filteredFiles renderPatch getTokenLength).
Abbreviation withTokenLength := (withTokenLength renderPatch getTokenLength).
Abbreviation greedy_refines :=
  (greedy_refines renderPatch isConversationWithinLimit convoBuilder).
Abbreviation packBucket_eq :=
  (packBucket_eq renderPatch isConversationWithinLimit convoBuilder).
Abbreviation GreedyPacking_nonempty :=
  (GreedyPacking_nonempty renderPatch isConversationWithinLimit convoBuilder).
Abbreviation GreedyPacking_concat :=
  (GreedyPacking_concat renderPatch isConversationWithinLimit convoBuilder).
Abbreviation packGroups_files :=
  (packGroups_files renderPatch getTokenLength isConversationWithinLimit convoBuilder).
Abbreviation keptWithin := (keptWithin renderPatch isConversationWithinLimit convoBuilder).
Abbreviation keptOutside := (keptOutside renderPatch isConversationWithinLimit convoBuilder).

(** *** Empty groups *)

Definition nonEmpty (group : list PRFile) : Prop := group <> [].

Lemma closed_nonEmpty (current : list PRFile) : Forall nonEmpty (closed current).
Proof.
  destruct current as [|x current]; unfold closed; cbn [isEmpty]; constructor;
    [discriminate|constructor].
Qed.

Lemma packBucket_nonEmpty (pg : list (list PRFile)) (bucket : list PRFile) :
  bucket <> [] -> Forall nonEmpty pg -> Forall nonEmpty (packBucket pg bucket).
Proof.
  intros Hb Hpg. rewrite packBucket_eq. destruct (fits bucket).
  - apply Forall_app. split; [exact Hpg|]. constructor; [exact Hb|constructor].
  - destruct (greedy_refines (sortByTokenLength bucket) pg []) as (groups & -> & G).
    apply Forall_app. split; [exact Hpg|].
    exact (GreedyPacking_nonempty [] _ groups G).
Qed.

Lemma packBuckets_nonEmpty (buckets pg : list (list PRFile)) :
  Forall nonEmpty buckets -> Forall nonEmpty pg ->
  Forall nonEmpty (fold_left packBucket buckets pg).
Proof.
  intros Hb. revert pg. induction Hb as [|b buckets Hb Hbs IH]; intros pg Hpg;
    cbn [fold_left]; [exact Hpg|].
  apply IH, packBucket_nonEmpty; assumption.
Qed.

Lemma buckets_nonEmpty (files : list PRFile) :
  Forall nonEmpty (JsMap.values (groupFilesByExtension files)).
Proof.
  apply Forall_forall. intros bucket Hin. unfold JsMap.values in Hin.
  apply in_map_iff in Hin. destruct Hin as ([k b] & <- & Hin).
  apply group_entry in Hin. apply Hin.
Qed.

Lemma processWithinLimitFiles_nonEmpty (files : list PRFile) :
  files <> [] -> Forall nonEmpty (processWithinLimitFiles files).
Proof.
  intros Hf. unfold processWithinLimitFiles. destruct (fits files).
  - constructor; [exact Hf|constructor].
  - apply packBuckets_nonEmpty; [apply buckets_nonEmpty|constructor].
Qed.

Lemma processWithinLimitFiles_nil :
  processWithinLimitFiles [] = if fits [] then [[]] else [].
Proof. reflexivity. Qed.

(** The stripped files of the second phase that fit alone. *)
Definition strippedWithin (files : list PRFile) : list PRFile :=
  filter (fun file => fits [file])
    (map stripRemovedLines (patchesOutsideModelLimit files)).

(** X5. The packer hands the model an empty group exactly when the
    scaffolding alone fits the budget and either no file fits alone, or the
    files of the second phase do not fit together when stripped and none of
    them fits alone; every other group holds a file. *)
Theorem packGroups_empty_group :
  forall files : list PRFile,
    In [] (packGroups files) <->
    fits [] = true /\
    (patchesWithinModelLimit files = [] \/
     (patchesOutsideModelLimit files <> [] /\
      fits (map stripRemovedLines (patchesOutsideModelLimit files)) = false /\
      strippedWithin files = [])).
Proof.
  intros files. unfold packGroups, strippedWithin. rewrite in_app_iff.
  assert (A : In [] (processWithinLimitFiles (patchesWithinModelLimit files)) <->
              fits [] = true /\ patchesWithinModelLimit files = []).
  { destruct (patchesWithinModelLimit files) as [|w ws] eqn:W.
    - rewrite processWithinLimitFiles_nil. destruct (fits []); cbn [In]; intuition congruence.
    - split.
      + intros Hin. exfalso.
        assert (NE : w :: ws <> []) by discriminate.
        pose proof (processWithinLimitFiles_nonEmpty (w :: ws) NE) as F.
        rewrite Forall_forall in F. exact (F [] Hin eq_refl).
      + intros [_ H]. discriminate H. }
  assert (B : In [] (processOutsideLimitFiles (patchesOutsideModelLimit files)) <->
              fits [] = true /\ patchesOutsideModelLimit files <> [] /\
              fits (map stripRemovedLines (patchesOutsideModelLimit files)) = false /\
              filter (fun file => fits [file])
                (map stripRemovedLines (patchesOutsideModelLimit files)) = []).
  { unfold processOutsideLimitFiles.
    destruct (patchesOutsideModelLimit files) as [|o os] eqn:O; cbn [isEmpty].
    - cbn [In]. intuition congruence.
    - destruct (fits (map stripRemovedLines (o :: os))) eqn:P.
      + cbn [In map]. split; [intros [H|[]]; discriminate H|]. intros (_ & _ & H & _).
        discriminate H.
      + destruct (filter (fun file => fits [file]) (map stripRemovedLines (o :: os)))
          as [|x xs] eqn:F.
        * rewrite processWithinLimitFiles_nil. destruct (fits []); cbn [In].
          -- split; [intros _|intros _; left; reflexivity].
             repeat split; try reflexivity. discriminate.
          -- split; [intros []|]. intros [H _]. discriminate H.
        * split.
          -- intros Hin. exfalso.
             assert (NE : x :: xs <> []) by discriminate.
             pose proof (processWithinLimitFiles_nonEmpty (x :: xs) NE) as G.
             rewrite Forall_forall in G. exact (G [] Hin eq_refl).
          -- intros (_ & _ & _ & H). discriminate H. }
  rewrite A, B. tauto.
Qed.

(** *** One extension per group *)

(** All the files of [group] have the extension [k]. *)
Definition ofExtension (k : string) (group : list PRFile) : Prop :=
  Forall (fun file => keyIs k file = true) group.

Definition singleExtension (group : list PRFile) : Prop :=
  exists k, k <> "" /\ ofExtension k group.

Lemma packBucket_incl (pg : list (list PRFile)) (bucket group : list PRFile) :
  In group (packBucket pg bucket) ->
  In group pg \/ (forall file, In file group -> In file bucket).
Proof.
  rewrite packBucket_eq. destruct (fits bucket).
  - intros Hin. apply in_app_or in Hin. destruct Hin as [H|[<-|[]]]; auto.
  - destruct (greedy_refines (sortByTokenLength bucket) pg []) as (groups & -> & G).
    intros Hin. apply in_app_or in Hin. destruct Hin as [H|H]; [left; exact H|].
    right. intros file Hf.
    apply (Permutation_in _ (Permutation_sym (sort_perm bucket))).
    pose proof (GreedyPacking_concat [] _ groups G) as C. cbn [app] in C.
    rewrite <- C. apply in_concat. exists group. split; assumption.
Qed.

Lemma packBuckets_single (entries : JsMap.t (list PRFile)) (pg : list (list PRFile)) :
  Forall (fun kv => fst kv <> "" /\ ofExtension (fst kv) (snd kv)) entries ->
  Forall singleExtension pg ->
  Forall singleExtension (fold_left packBucket (JsMap.values entries) pg).
Proof.
  intros He. revert pg. induction He as [|[k b] entries [Hk Hb] Hes IH]; intros pg Hpg;
    cbn [JsMap.values map fold_left snd]; [exact Hpg|].
  apply IH. apply Forall_forall. intros group Hin.
  apply packBucket_incl in Hin. destruct Hin as [Hin|Hin].
  - rewrite Forall_forall in Hpg. exact (Hpg group Hin).
  - exists k. split; [exact Hk|]. apply Forall_forall. intros file Hf.
    cbn [fst snd] in Hb. unfold ofExtension in Hb. rewrite Forall_forall in Hb.
    exact (Hb file (Hin file Hf)).
Qed.

(** X6. When the files given to [processWithinLimitFiles] do not fit as one
    group, no emitted group mixes extensions: the files of a group share one
    non-empty lower-cased extension. *)
Theorem processWithinLimitFiles_single_extension :
  forall (files group : list PRFile),
    fits files = false ->
    In group (processWithinLimitFiles files) ->
    exists k, k <> "" /\ Forall (fun file => extensionKey file = Some k) group.
Proof.
  intros files group P Hin. unfold processWithinLimitFiles in Hin. rewrite P in Hin.
  assert (S : Forall singleExtension
                (fold_left packBucket (JsMap.values (groupFilesByExtension files)) [])).
  { apply packBuckets_single; [|constructor].
    apply Forall_forall. intros [k b] Hkb.
    apply group_entry in Hkb. destruct Hkb as (Nk & _ & ->). cbn [fst snd]. split; [exact Nk|].
    apply Forall_forall. intros file Hf. apply filter_In in Hf. apply Hf. }
  rewrite Forall_forall in S. destruct (S group Hin) as (k & Nk & Hk).
  exists k. split; [exact Nk|]. eapply Forall_impl; [|exact Hk].
  intros file Hf. unfold keyIs in Hf. destruct (extensionKey file) as [e|]; [|discriminate Hf].
  apply String.eqb_eq in Hf. congruence.
Qed.

(** *** Maximal groups *)

(** A group is within the budget, or is a single file. *)
Definition fitsOrSingle (group : list PRFile) : Prop :=
  fits group = true \/ exists file, group = [file].

(** Each group was closed by the first file of the next one. *)
Definition closedByNext (groups : list (list PRFile)) : Prop :=
  forall before g1 g2 after,
    groups = (before ++ g1 :: g2 :: after)%list ->
    exists file rest, g2 = file :: rest /\ fits (g1 ++ [file])%list = false.

Lemma GreedyPacking_fitsOrSingle (cur files : list PRFile) (groups : list (list PRFile)) :
  GreedyPacking cur files groups ->
  cur = [] \/ fitsOrSingle cur ->
  Forall fitsOrSingle groups.
Proof.
  assert (C : forall current, current = [] \/ fitsOrSingle current ->
                              Forall fitsOrSingle (closed current)).
  { intros [|x current] H; unfold closed; cbn [isEmpty]; constructor; [|constructor].
    destruct H as [H|H]; [discriminate H|exact H]. }
  induction 1 as [current|current file rest groups P G IH|current file rest groups P G IH];
    intros Hcur.
  - apply C, Hcur.
  - apply IH. right. left. exact P.
  - apply Forall_app. split; [apply C, Hcur|]. apply IH. right. right. exists file. reflexivity.
Qed.

Lemma GreedyPacking_closedByNext (cur files : list PRFile) (groups : list (list PRFile)) :
  GreedyPacking cur files groups ->
  closedByNext groups /\
  (cur <> [] -> exists rest others, groups = (cur ++ rest)%list :: others).
Proof.
  induction 1 as [current|current file rest groups P G [IHc IHf]
                 |current file rest groups P G [IHc IHf]].
  - split.
    + intros before g1 g2 after E. unfold closed in E.
      destruct (isEmpty current); destruct before as [|x [|y before]]; discriminate E.
    + intros NE. exists [], []. rewrite app_nil_r. unfold closed.
      destruct current; [contradiction|reflexivity].
  - split; [exact IHc|]. intros _.
    destruct IHf as (tl & others & ->); [destruct current; discriminate|].
    exists (file :: tl), others. rewrite <- app_assoc. reflexivity.
  - destruct IHf as (tl & others & ->); [discriminate|]. cbn [app] in *.
    split.
    + unfold closed. destruct current as [|x current]; cbn [isEmpty app]; [exact IHc|].
      intros before g1 g2 after E. destruct before as [|y before]; cbn [app] in E.
      * injection E as <- <- <-. exists file, tl. split; [reflexivity|exact P].
      * injection E as _ E. exact (IHc before g1 g2 after E).
    + intros NE. unfold closed. destruct current as [|x current]; [contradiction|].
      cbn [isEmpty app]. exists [], ((file :: tl) :: others). rewrite app_nil_r. reflexivity.
Qed.

(** X7. In a bucket that does not fit as a whole, a group is closed only
    when the next file of the sorted bucket would not fit into it: each
    group followed by another fails the probe with the first file of the
    next; and a group over the budget can only be a single file. *)
Theorem packBucket_groups_maximal :
  forall (bucket : list PRFile),
    fits bucket = false ->
    Forall fitsOrSingle (packBucket [] bucket) /\
    (forall i g1 g2,
        nth_error (packBucket [] bucket) i = Some g1 ->
        nth_error (packBucket [] bucket) (S i) = Some g2 ->
        exists file rest, g2 = file :: rest /\ fits (g1 ++ [file])%list = false).
Proof.
  intros bucket P. rewrite packBucket_eq, P.
  destruct (greedy_refines (sortByTokenLength bucket) [] []) as (groups & -> & G).
  cbn [app]. split.
  - apply (GreedyPacking_fitsOrSingle [] _ groups G). left. reflexivity.
  - intros i g1 g2 H1 H2.
    destruct (GreedyPacking_closedByNext [] _ groups G) as [C _].
    destruct (nth_error_split groups i H1) as (before & after & E & L).
    subst groups. rewrite <- L in H2.
    replace (S (length before)) with (length before + 1)%nat in H2 by lia.
    rewrite nth_error_app2 in H2 by lia.
    replace (length before + 1 - length before)%nat with 1%nat in H2 by lia.
    cbn [nth_error] in H2. destruct after as [|g after]; [discriminate H2|].
    cbn [nth_error] in H2. injection H2 as ->.
    exact (C before g1 g2 after eq_refl).
Qed.

(** *** Where the emitted files come from *)

Lemma keptWithin_incl (files : list PRFile) (file : PRFile) :
  In file (keptWithin files) -> In file files.
Proof.
  unfold keptWithin. destruct (fits files); [auto|]. intros H.
  apply filter_In in H. apply H.
Qed.

(** X8. Every file of an emitted group comes from a file of the input that
    passed [filterFile]: it is that file with its token length cached, and
    then its conversation fits alone, or it is the stripped copy of a file
    whose conversation did not fit alone and keeps the token length cached
    before stripping. *)
Theorem packGroups_files_origin :
  forall (files group : list PRFile) (file : PRFile),
    In group (packGroups files) ->
    In file group ->
    exists original,
      In original files /\ Filter.filterFile original = true /\
      filename file = filename original /\
      ((file = withTokenLength original /\ fits [file] = true) \/
       (file = stripRemovedLines (withTokenLength original) /\
        fits [withTokenLength original] = false /\
        patchTokenLength file = getTokenLength (patchBuilder renderPatch original))).
Proof.
  intros files group file Hg Hf.
  assert (Hin : In file (concat (packGroups files)))
    by (apply in_concat; exists group; auto).
  apply (Permutation_in _ (packGroups_files files)) in Hin.
  assert (Origin : forall cached, In cached (filteredFiles files) ->
                     exists original, In original files /\
                       Filter.filterFile original = true /\
                       cached = withTokenLength original).
  { intros cached Hc. unfold filteredFiles in Hc. apply in_map_iff in Hc.
    destruct Hc as (original & <- & Ho). apply filter_In in Ho.
    exists original. split; [apply Ho|]. split; [apply Ho|reflexivity]. }
  apply in_app_or in Hin. destruct Hin as [Hin|Hin].
  - apply keptWithin_incl in Hin. unfold patchesWithinModelLimit in Hin.
    apply filter_In in Hin. destruct Hin as [Hc P].
    destruct (Origin file Hc) as (original & Ho & Hfil & ->).
    exists original. split; [exact Ho|]. split; [exact Hfil|]. split; [reflexivity|].
    left. split; [reflexivity|exact P].
  - assert (Hs : In file (map stripRemovedLines (patchesOutsideModelLimit files))).
    { unfold keptOutside in Hin.
      destruct (fits (map stripRemovedLines (patchesOutsideModelLimit files)));
        [exact Hin|].
      apply keptWithin_incl in Hin. apply filter_In in Hin. apply Hin. }
    apply in_map_iff in Hs. destruct Hs as (cached & <- & Hc).
    unfold patchesOutsideModelLimit in Hc. apply filter_In in Hc. destruct Hc as [Hc P].
    apply negb_true_iff in P.
    destruct (Origin cached Hc) as (original & Ho & Hfil & ->).
    exists original. split; [exact Ho|]. split; [exact Hfil|]. split; [reflexivity|].
    right. split; [reflexivity|]. split; [exact P|reflexivity].
Qed.

End PackerFacts.

(** The facts above, on the small instance. *)

Lemma processWithinLimitFiles_single_extension_example :
  exists k, k <> "" /\
            Forall (fun file => extensionKey file = Some k)
              [Demo.cached Demo.a; Demo.cached Demo.b].
Proof.
  apply (processWithinLimitFiles_single_extension Demo.renderPatch
           Demo.isConversationWithinLimit Demo.convoBuilder
           [Demo.cached Demo.c; Demo.cached Demo.a; Demo.cached Demo.b]
           [Demo.cached Demo.a; Demo.cached Demo.b]).
  - vm_compute. reflexivity.
  - vm_compute. left. reflexivity.
Defined.

Lemma packBucket_groups_maximal_example :
  Demo.probe [Demo.cached Demo.a; Demo.cached Demo.b; Demo.cached Demo.c] = false.
Proof.
  destruct (packBucket_groups_maximal Demo.renderPatch
              Demo.isConversationWithinLimit Demo.convoBuilder
              [Demo.cached Demo.c; Demo.cached Demo.a; Demo.cached Demo.b] eq_refl)
    as [_ M].
  destruct (M 0%nat [Demo.cached Demo.a; Demo.cached Demo.b] [Demo.cached Demo.c]
              eq_refl eq_refl) as (file & rest & E & P).
  injection E as <- <-. exact P.
Defined.

Lemma packGroups_files_origin_example :
  exists original,
    In original [Demo.big; Demo.a] /\ Filter.filterFile original = true /\
    filename (stripRemovedLines (Demo.cached Demo.big)) = filename original.
Proof.
  destruct (packGroups_files_origin Demo.renderPatch Demo.getTokenLength
              Demo.isConversationWithinLimit Demo.convoBuilder
              [Demo.big; Demo.a] [stripRemovedLines (Demo.cached Demo.big)]
              (stripRemovedLines (Demo.cached Demo.big)))
    as (original & Ho & Hf & Hn & _).
  - vm_compute. right. left. reflexivity.
  - left. reflexivity.
  - exists original. auto.
Defined.

(** ** indentCodeFix *)

Section Indent.

(** Only white space. *)
Fixpoint allSpace (s : string) : bool :=
  match s with
  | EmptyString => true
  | String c rest => Js.isSpace c && allSpace rest
  end.

Lemma leadingSpace_allSpace (s : string) : allSpace (Js.leadingSpace s) = true.
Proof.
  induction s as [|c rest IH]; [reflexivity|]. cbn [Js.leadingSpace].
  destruct (Js.isSpace c) eqn:E; [|reflexivity]. cbn [allSpace]. rewrite E, IH. reflexivity.
Qed.

Lemma leadingSpace_prefix (s : string) :
  exists rest, s = Js.leadingSpace s ++ rest.
Proof.
  induction s as [|c r IH]; [exists ""; reflexivity|]. cbn [Js.leadingSpace].
  destruct (Js.isSpace c); [|exists (String c r); reflexivity].
  destruct IH as [rest E]. exists rest. cbn [append]. rewrite <- E. reflexivity.
Qed.

Lemma occurs_leadingSpace (c : ascii) (s : string) :
  Js.occurs c s = false -> Js.occurs c (Js.leadingSpace s) = false.
Proof.
  induction s as [|a r IH]; [auto|]. cbn [Js.occurs Js.leadingSpace]. intros H.
  apply orb_false_iff in H. destruct H as [Ha Hr].
  destruct (Js.isSpace a); [|reflexivity]. cbn [Js.occurs]. rewrite Ha, (IH Hr). reflexivity.
Qed.

Lemma trimStart_allSpace (ind s : string) :
  allSpace ind = true -> Js.trimStart (ind ++ s) = Js.trimStart s.
Proof.
  induction ind as [|c ind IH]; [reflexivity|]. cbn [allSpace append Js.trimStart].
  intros H. apply andb_true_iff in H. destruct H as [Hc Hi]. rewrite Hc. exact (IH Hi).
Qed.

Lemma jsIndex_Some {A : Type} (arr : list A) (i : Z) (a : A) :
  jsIndex arr i = Some a ->
  (0 <= i < Z.of_nat (length arr))%Z /\ nth_error arr (Z.to_nat i) = Some a.
Proof.
  unfold jsIndex. destruct ((0 <=? i)%Z && (i <? Z.of_nat (length arr))%Z) eqn:E;
    [|discriminate].
  apply andb_true_iff in E. destruct E as [E1 E2].
  apply Z.leb_le in E1. apply Z.ltb_lt in E2. intros H. split; [lia|exact H].
Qed.

Lemma jsIndex_None {A : Type} (arr : list A) (i : Z) :
  jsIndex arr i = None <-> (i < 0 \/ Z.of_nat (length arr) <= i)%Z.
Proof.
  unfold jsIndex. destruct (0 <=? i)%Z eqn:E1; destruct (i <? Z.of_nat (length arr))%Z eqn:E2;
    cbn [andb]; rewrite ?Z.leb_le, ?Z.leb_gt, ?Z.ltb_lt, ?Z.ltb_ge in *.
  - split; [|lia]. intros H. apply nth_error_None in H. lia.
  - split; [lia|reflexivity].
  - split; [lia|reflexivity].
  - split; [lia|reflexivity].
Qed.

(** X10. [indentCodeFix] returns exactly when the contents are not null
    and [lineStart] is the number of one of their lines; it then keeps the
    number of lines of the code and puts before each of them the leading
    white space of line [lineStart], and nothing else. *)
Theorem indentCodeFix_lines :
  forall (file : option string) (code : string) (lineStart : Z),
    ((exists indented, indentCodeFix file code lineStart = Ok indented) <->
     (exists contents, file = Some contents /\
                       (1 <= lineStart <= Z.of_nat (length (linesOf contents)))%Z)) /\
    (forall contents indented,
        file = Some contents ->
        indentCodeFix file code lineStart = Ok indented ->
        exists firstLine rest,
          nth_error (linesOf contents) (Z.to_nat (lineStart - 1)) = Some firstLine /\
          firstLine = Js.leadingSpace firstLine ++ rest /\
          allSpace (Js.leadingSpace firstLine) = true /\
          linesOf indented
          = map (fun line => Js.leadingSpace firstLine ++ line) (linesOf code)).
Proof.
  intros file code lineStart. split.
  - unfold indentCodeFix, linesOf. destruct file as [contents|].
    + destruct (jsIndex (Js.split Js.LF contents) (lineStart - 1)) as [firstLine|] eqn:J.
      * apply jsIndex_Some in J. split.
        -- intros _. exists contents. split; [reflexivity|lia].
        -- intros _. eexists. reflexivity.
      * apply jsIndex_None in J. split.
        -- intros [r H]. discriminate H.
        -- intros (c & [= <-] & H). lia.
    + split; [intros [r H]; discriminate H|]. intros (c & H & _). discriminate H.
  - intros contents indented -> H. unfold indentCodeFix in H. unfold linesOf.
    destruct (jsIndex (Js.split Js.LF contents) (lineStart - 1)) as [firstLine|] eqn:J;
      [|discriminate H].
    injection H as <-. apply jsIndex_Some in J. destruct J as [_ J].
    destruct (leadingSpace_prefix firstLine) as [rest E].
    exists firstLine, rest. split; [exact J|]. split; [exact E|].
    split; [apply leadingSpace_allSpace|].
    unfold Js.nl. apply Js.split_join.
    + pose proof (Js.split_nonempty Js.LF code) as NE.
      destruct (Js.split Js.LF code); [contradiction|discriminate].
    + apply Forall_forall. intros line Hin. apply in_map_iff in Hin.
      destruct Hin as (l & <- & Hl). rewrite Filter.occurs_app.
      apply orb_false_iff. split.
      * apply occurs_leadingSpace.
        pose proof (Js.split_no_sep Js.LF contents) as F. rewrite Forall_forall in F.
        apply F. eapply nth_error_In. exact J.
      * pose proof (Js.split_no_sep Js.LF code) as F. rewrite Forall_forall in F.
        apply F. exact Hl.
Qed.

(** X11. For a replacement of one line the re-indentation does not count in
    the novelty check: the indented code and the code are equal once
    trimmed. *)
Theorem indentCodeFix_one_line_trim :
  forall (file : option string) (code : string) (lineStart : Z) (indented : string),
    Js.occurs Js.LF code = false ->
    indentCodeFix file code lineStart = Ok indented ->
    Js.trim indented = Js.trim code.
Proof.
  intros file code lineStart indented Hone H. unfold indentCodeFix in H.
  destruct file as [contents|]; [|discriminate H].
  destruct (jsIndex (Js.split Js.LF contents) (lineStart - 1)) as [firstLine|];
    [|discriminate H].
  injection H as <-. rewrite (Js.split_single Js.LF code Hone). cbn [map Js.join String.concat].
  unfold Js.trim. rewrite trimStart_allSpace by apply leadingSpace_allSpace. reflexivity.
Qed.

Lemma indentCodeFix_one_line_trim_example :
  Js.trim "    pass" = Js.trim "pass  ".
Proof.
  rewrite <- (indentCodeFix_one_line_trim (Some exampleContents) "pass  " 2 "    pass  ");
    vm_compute; reflexivity.
Defined.

End Indent.

(** ** generateInlineComments: what a returned fix is *)

Section ReturnedFix.

Variable getInlineFixPrompt : option string -> Suggestion.t -> result (list Message).
Variable generateChatCompletion : list Message -> result ChatMessage.
Variable JSON_parse : string -> result FixArgs.

Abbreviation generateInlineComments :=
  (generateInlineComments getInlineFixPrompt generateChatCompletion JSON_parse).
Abbreviation inlineCommentFor :=
  (inlineCommentFor getInlineFixPrompt generateChatCompletion JSON_parse).
Abbreviation inlineComments :=
  (inlineComments getInlineFixPrompt generateChatCompletion JSON_parse).

Lemma returned_fix_file (suggestion : Suggestion.t) (file : PRFile)
  (codeFix : CodeSuggestion.t) :
  generateInlineComments suggestion file = Ok (Some codeFix) ->
  exists contents,
    current_contents file = Some contents /\
    CodeSuggestion.file codeFix = Suggestion.filename suggestion.
Proof.
  intros H. unfold generateInlineComments, inlineFixAttempt, tryCatch, bind in H.
  destruct (current_contents file) as [contents|] eqn:C.
  - exists contents. split; [reflexivity|].
    destruct (getInlineFixPrompt (Some contents) suggestion) as [messages|];
      [|discriminate H].
    destruct (generateChatCompletion messages) as [reply|]; [|discriminate H].
    destruct (function_call reply) as [call|]; [|discriminate H].
    destruct (JSON_parse (arguments call)) as [args|]; [|discriminate H].
    destruct (indentCodeFix (Some contents) (arg_code args) (arg_lineStart args))
      as [indented|]; [|discriminate H].
    destruct (isCodeSuggestionNew contents _); [|discriminate H].
    injection H as <-. reflexivity.
  - exfalso.
    destruct (getInlineFixPrompt None suggestion) as [messages|]; [|discriminate H].
    destruct (generateChatCompletion messages) as [reply|]; [|discriminate H].
    destruct (function_call reply) as [call|]; [|discriminate H].
    destruct (JSON_parse (arguments call)) as [args|]; [|discriminate H].
    cbn [indentCodeFix] in H. discriminate H.
Qed.

(** X12. A fix returned by [generateInlineComments] is filed under the file
    name of the suggestion, carries the line numbers and the comment the
    model gave, starts at an existing line of the current contents, holds the
    model's code re-indented, and differs, once trimmed, from the text it is
    to replace. *)
Theorem generateInlineComments_returned_fix :
  forall (suggestion : Suggestion.t) (file : PRFile) (codeFix : CodeSuggestion.t),
    generateInlineComments suggestion file = Ok (Some codeFix) ->
    exists contents messages reply call args,
      current_contents file = Some contents /\
      getInlineFixPrompt (Some contents) suggestion = Ok messages /\
      generateChatCompletion messages = Ok reply /\
      function_call reply = Some call /\
      JSON_parse (arguments call) = Ok args /\
      CodeSuggestion.file codeFix = Suggestion.filename suggestion /\
      CodeSuggestion.line_start codeFix = arg_lineStart args /\
      CodeSuggestion.line_end codeFix = arg_lineEnd args /\
      CodeSuggestion.comment codeFix = arg_comment args /\
      (1 <= CodeSuggestion.line_start codeFix <= Z.of_nat (length (linesOf contents)))%Z /\
      indentCodeFix (Some contents) (arg_code args) (arg_lineStart args)
        = Ok (CodeSuggestion.correction codeFix) /\
      Js.trim (targetLines contents (arg_lineStart args) (arg_lineEnd args))
        <> Js.trim (CodeSuggestion.correction codeFix).
Proof.
  intros suggestion file codeFix H.
  unfold generateInlineComments, inlineFixAttempt, tryCatch, bind in H.
  destruct (current_contents file) as [contents|] eqn:C.
  - destruct (getInlineFixPrompt (Some contents) suggestion) as [messages|] eqn:P;
      [|discriminate H].
    destruct (generateChatCompletion messages) as [reply|] eqn:R; [|discriminate H].
    destruct (function_call reply) as [call|] eqn:F; [|discriminate H].
    destruct (JSON_parse (arguments call)) as [args|] eqn:A; [|discriminate H].
    destruct (indentCodeFix (Some contents) (arg_code args) (arg_lineStart args))
      as [indented|] eqn:I; [|discriminate H].
    destruct (isCodeSuggestionNew contents _) eqn:N; [|discriminate H].
    injection H as <-. cbn [CodeSuggestion.file CodeSuggestion.line_start
      CodeSuggestion.line_end CodeSuggestion.comment CodeSuggestion.correction].
    exists contents, messages, reply, call, args.
    repeat (split; [first [reflexivity|assumption]|]).
    split.
    + unfold indentCodeFix in I. unfold linesOf.
      destruct (jsIndex (Js.split Js.LF contents) (arg_lineStart args - 1)) eqn:J;
        [|discriminate I].
      apply jsIndex_Some in J. lia.
    + split; [exact I|].
      unfold isCodeSuggestionNew in N. cbn [CodeSuggestion.line_start
        CodeSuggestion.line_end CodeSuggestion.correction] in N.
      destruct (String.eqb_spec
                  (Js.trim (targetLines contents (arg_lineStart args) (arg_lineEnd args)))
                  (Js.trim indented)) as [E|NE]; [discriminate N|exact NE].
  - exfalso.
    destruct (getInlineFixPrompt None suggestion) as [messages|]; [|discriminate H].
    destruct (generateChatCompletion messages) as [reply|]; [|discriminate H].
    destruct (function_call reply) as [call|]; [|discriminate H].
    destruct (JSON_parse (arguments call)) as [args|]; [|discriminate H].
    cbn [indentCodeFix] in H. discriminate H.
Qed.

Lemma nonNull_In {A : Type} (l : list (option A)) (a : A) :
  In a (nonNull l) <-> In (Some a) l.
Proof.
  induction l as [|[x|] l IH]; cbn [nonNull In]; [tauto| |].
  - rewrite IH. split; intros [H|H]; auto; left; congruence.
  - rewrite IH. split; [auto|]. intros [H|H]; [discriminate H|exact H].
Qed.

Lemma nonNull_length {A : Type} (l : list (option A)) :
  (length (nonNull l) <= length l)%nat.
Proof.
  induction l as [|[x|] l IH]; cbn [nonNull length]; lia.
Qed.

Lemma promiseAll_values {A : Type} (promises : list (result A)) (values : list A) :
  promiseAll promises = Ok values -> promises = map Ok values.
Proof.
  revert values. induction promises as [|p rest IH]; intros values H; cbn [promiseAll] in H.
  - injection H as <-. reflexivity.
  - destruct p as [a|e]; [|discriminate H].
    destruct (promiseAll rest) as [others|e] eqn:E; [|discriminate H].
    injection H as <-. cbn [map]. rewrite (IH others eq_refl). reflexivity.
Qed.

Lemma inlineComments_names (files : list PRFile) (structuredComments : list Suggestion.t) :
  exists fixes,
    inlineComments files structuredComments = Ok fixes /\
    (length fixes <= length structuredComments)%nat /\
    (forall codeFix, In codeFix fixes ->
       exists file, In file files /\ CodeSuggestion.file codeFix = filename file).
Proof.
  unfold inlineComments.
  destruct (promiseAll_Ok (map (inlineCommentFor files) structuredComments))
    as (values & E & M).
  { apply forallb_forall. intros p Hp. apply in_map_iff in Hp.
    destruct Hp as (s & <- & _). unfold inlineCommentFor.
    destruct (find _ files); [apply generateInlineComments_settled|reflexivity]. }
  rewrite E. cbn [bind]. exists (nonNull values). split; [reflexivity|]. split.
  - apply (f_equal (@length _)) in M. rewrite !length_map in M.
    pose proof (nonNull_length values). lia.
  - intros codeFix Hin. apply nonNull_In in Hin.
    apply (in_map Ok) in Hin. rewrite M in Hin. apply in_map_iff in Hin.
    destruct Hin as (suggestion & Hs & Hsin). unfold inlineCommentFor in Hs.
    destruct (find (fun file => String.eqb (filename file) (Suggestion.filename suggestion))
                files) as [file|] eqn:F; [|discriminate Hs].
    apply find_some in F. destruct F as [Hfin Hname]. apply String.eqb_eq in Hname.
    destruct (returned_fix_file suggestion file codeFix Hs) as (contents & _ & Hfile).
    exists file. split; [exact Hfin|congruence].
Qed.

(** X13. The inline fixes of a review: at most one per structured
    suggestion, and each for a suggestion whose file name is the name of a
    file of the pull request with contents at hand. *)
Theorem inlineComments_sound :
  forall (files : list PRFile) (structuredComments : list Suggestion.t),
    exists fixes,
      inlineComments files structuredComments = Ok fixes /\
      (length fixes <= length structuredComments)%nat /\
      (forall codeFix, In codeFix fixes ->
         exists suggestion file contents,
           In suggestion structuredComments /\ In file files /\
           filename file = Suggestion.filename suggestion /\
           CodeSuggestion.file codeFix = filename file /\
           current_contents file = Some contents /\
           generateInlineComments suggestion file = Ok (Some codeFix)).
Proof.
  intros files structuredComments. unfold inlineComments.
  destruct (promiseAll_Ok (map (inlineCommentFor files) structuredComments))
    as (values & E & M).
  { apply forallb_forall. intros p Hp. apply in_map_iff in Hp.
    destruct Hp as (s & <- & _). unfold inlineCommentFor.
    destruct (find _ files); [apply generateInlineComments_settled|reflexivity]. }
  rewrite E. cbn [bind]. exists (nonNull values). split; [reflexivity|]. split.
  - apply (f_equal (@length _)) in M. rewrite !length_map in M.
    pose proof (nonNull_length values). lia.
  - intros codeFix Hin. apply nonNull_In in Hin.
    apply (in_map Ok) in Hin. rewrite M in Hin. apply in_map_iff in Hin.
    destruct Hin as (suggestion & Hs & Hsin). unfold inlineCommentFor in Hs.
    destruct (find (fun file => String.eqb (filename file) (Suggestion.filename suggestion))
                files) as [file|] eqn:F; [|discriminate Hs].
    apply find_some in F. destruct F as [Hfin Hname]. apply String.eqb_eq in Hname.
    destruct (returned_fix_file suggestion file codeFix Hs) as (contents & Hc & Hfile).
    exists suggestion, file, contents. repeat split; try assumption. congruence.
Qed.

End ReturnedFix.

Definition exampleParseNew (payload : string) : result FixArgs :=
  Ok (mkArgs "return 1" 2 2 "Return a value").

Lemma generateInlineComments_returned_fix_example :
  generateInlineComments examplePrompt exampleReply exampleParseNew
    exampleSuggestion exampleFile
    = Ok (Some (CodeSuggestion.make "f.py" 2 2 "    return 1" "Return a value")) /\
  Js.trim (targetLines exampleContents 2 2) <> Js.trim "    return 1".
Proof.
  assert (H : generateInlineComments examplePrompt exampleReply exampleParseNew
                exampleSuggestion exampleFile
              = Ok (Some (CodeSuggestion.make "f.py" 2 2 "    return 1" "Return a value")))
    by (vm_compute; reflexivity).
  split; [exact H|].
  destruct (generateInlineComments_returned_fix examplePrompt exampleReply exampleParseNew
              exampleSuggestion exampleFile _ H)
    as (contents & messages & reply & call & args & Hc & _ & _ & _ & Ha & _ & _ & _ & _ & _ & _ & N).
  injection Hc as <-. injection Ha as <-. exact N.
Defined.

(** ** dedupSuggestions: order and size *)

Section DedupOrder.

Variable identity : Suggestion.t -> string.

Lemma keys_set_addKey {V : Type} (k : string) (v : V) (m : JsMap.t V) :
  JsMap.keys (JsMap.set k v m) = addKey (JsMap.keys m) k.
Proof.
  unfold addKey. destruct (mem k (JsMap.keys m)) eqn:M.
  - apply JsMap.keys_set_present. apply mem_In. exact M.
  - rewrite JsMap.set_fresh.
    + unfold JsMap.keys. rewrite map_app. reflexivity.
    + intros Hin. apply mem_In in Hin. congruence.
Qed.

Lemma dedup_fold_keys (l : list Suggestion.t) (m : JsMap.t Suggestion.t) :
  JsMap.keys (fold_left (dedupStep identity) l m)
  = fold_left addKey (map identity l) (JsMap.keys m).
Proof.
  revert m. induction l as [|s l IH]; intros m; cbn [fold_left map]; [reflexivity|].
  rewrite IH. unfold dedupStep. rewrite keys_set_addKey. reflexivity.
Qed.

Lemma firstOccurrences_length (l : list string) :
  (length (firstOccurrences l) <= length l)%nat.
Proof.
  induction l as [|k l IH]; cbn [firstOccurrences length]; [lia|].
  pose proof (filter_length_le (fun x => negb (String.eqb x k)) (firstOccurrences l)). lia.
Qed.

(** X14. [dedupSuggestions] returns its suggestions in the order in which
    their identities first occur in the input; it returns no more
    suggestions than it was given, and only suggestions it was given. *)
Theorem dedupSuggestions_order :
  forall suggestions : list Suggestion.t,
    map identity (dedupSuggestions identity suggestions)
      = firstOccurrences (map identity suggestions) /\
    (length (dedupSuggestions identity suggestions) <= length suggestions)%nat /\
    (forall s, In s (dedupSuggestions identity suggestions) -> In s suggestions).
Proof.
  intros suggestions.
  assert (K : map identity (dedupSuggestions identity suggestions)
              = firstOccurrences (map identity suggestions)).
  { unfold dedupSuggestions.
    rewrite (keyed_values identity) by (apply fold_keyed; constructor).
    rewrite dedup_fold_keys, addKey_fold. cbn [JsMap.keys JsMap.empty map app].
    apply filter_all. apply Forall_forall. intros x _. reflexivity. }
  split; [exact K|]. split.
  - apply (f_equal (@length string)) in K. rewrite length_map in K. rewrite K.
    rewrite <- (length_map identity suggestions). apply firstOccurrences_length.
  - intros s Hin. apply dedup_In in Hin. apply lastWith_Some in Hin.
    destruct Hin as (before & after & -> & _). apply in_or_app. right. left. reflexivity.
Qed.

End DedupOrder.

(** ** Grouping by a string key, as the comment renderer does *)

Section GroupBy.

Context {A : Type}.
Variable key : A -> string.

(** [if (!map.has(k)) map.set(k, []); map.get(k).push(x)]; the bucket is
    there when [get] is reached. *)
Definition groupByStep (m : JsMap.t (list A)) (x : A) : JsMap.t (list A) :=
  let k := key x in
  let m := if negb (JsMap.has k m) then JsMap.set k [] m else m in
  match JsMap.get k m with
  | Some bucket => JsMap.set k (bucket ++ [x])%list m
  | None => m
  end.

Definition groupBy (l : list A) : JsMap.t (list A) :=
  fold_left groupByStep l JsMap.empty.

Definition keyed_as (k : string) (x : A) : bool := String.eqb (key x) k.

Lemma groupByStep_eq (m : JsMap.t (list A)) (x : A) :
  groupByStep m x
  = match JsMap.get (key x) m with
    | Some bucket => JsMap.set (key x) (bucket ++ [x])%list m
    | None => (m ++ [(key x, [x])])%list
    end.
Proof.
  unfold groupByStep, JsMap.has. cbv zeta.
  destruct (JsMap.get (key x) m) as [bucket|] eqn:G; cbn [negb].
  - rewrite G. reflexivity.
  - rewrite JsMap.get_set_eq, JsMap.set_set. cbn [app].
    apply JsMap.set_fresh. apply JsMap.get_None_keys. exact G.
Qed.

Lemma groupByStep_keys (m : JsMap.t (list A)) (x : A) :
  JsMap.keys (groupByStep m x) = addKey (JsMap.keys m) (key x).
Proof.
  rewrite groupByStep_eq. destruct (JsMap.get (key x) m) as [bucket|] eqn:G.
  - apply keys_set_addKey.
  - rewrite <- (JsMap.set_fresh (key x) [x] m) by (apply JsMap.get_None_keys; exact G).
    apply keys_set_addKey.
Qed.

Lemma groupBy_fold_keys (l : list A) (m : JsMap.t (list A)) :
  JsMap.keys (fold_left groupByStep l m) = fold_left addKey (map key l) (JsMap.keys m).
Proof.
  revert m. induction l as [|x l IH]; intros m; cbn [fold_left map]; [reflexivity|].
  rewrite IH, groupByStep_keys. reflexivity.
Qed.

(** The bucket of [k] after [l], from the bucket before. *)
Definition grown (k : string) (before : option (list A)) (l : list A) : option (list A) :=
  match before, filter (keyed_as k) l with
  | Some bucket, added => Some (bucket ++ added)%list
  | None, [] => None
  | None, added => Some added
  end.

Lemma groupByStep_get (k : string) (m : JsMap.t (list A)) (x : A) :
  JsMap.get k (groupByStep m x) = grown k (JsMap.get k m) [x].
Proof.
  rewrite groupByStep_eq. unfold grown, keyed_as. cbn [filter].
  destruct (String.eqb_spec (key x) k) as [<-|N].
  - destruct (JsMap.get (key x) m) as [bucket|] eqn:G.
    + apply JsMap.get_set_eq.
    + rewrite get_app_fresh by exact G. rewrite String.eqb_refl. reflexivity.
  - destruct (JsMap.get (key x) m) as [bucket|] eqn:G.
    + rewrite JsMap.get_set_neq by exact N.
      destruct (JsMap.get k m); [rewrite app_nil_r|]; reflexivity.
    + rewrite get_app_fresh by exact G.
      destruct (String.eqb_spec (key x) k); [contradiction|].
      destruct (JsMap.get k m); [rewrite app_nil_r|]; reflexivity.
Qed.

Lemma grown_app (k : string) (before : option (list A)) (l1 l2 : list A) :
  grown k (grown k before l1) l2 = grown k before (l1 ++ l2)%list.
Proof.
  unfold grown. rewrite filter_app. destruct before as [bucket|].
  - rewrite app_assoc. reflexivity.
  - destruct (filter (keyed_as k) l1); reflexivity.
Qed.

Lemma groupBy_fold_get (k : string) (l : list A) (m : JsMap.t (list A)) :
  JsMap.get k (fold_left groupByStep l m) = grown k (JsMap.get k m) l.
Proof.
  revert m. induction l as [|x l IH]; intros m; cbn [fold_left].
  - unfold grown. cbn [filter]. destruct (JsMap.get k m); [rewrite app_nil_r|]; reflexivity.
  - rewrite IH, groupByStep_get. apply (grown_app k (JsMap.get k m) [x] l).
Qed.

Lemma firstOccurrences_NoDup (l : list string) : NoDup (firstOccurrences l).
Proof.
  induction l as [|k l IH]; cbn [firstOccurrences]; constructor.
  - intros Hin. apply filter_In in Hin. destruct Hin as [_ H].
    rewrite String.eqb_refl in H. discriminate H.
  - apply NoDup_filter, IH.
Qed.

Lemma groupBy_keys (l : list A) :
  JsMap.keys (groupBy l) = firstOccurrences (map key l).
Proof.
  unfold groupBy. rewrite groupBy_fold_keys, addKey_fold. cbn [JsMap.keys JsMap.empty map app].
  apply filter_all. apply Forall_forall. intros x _. reflexivity.
Qed.

(** The map built by grouping: a bucket per key, in order of first
    occurrence, holding the elements of that key in input order. *)
Lemma groupBy_spec (l : list A) :
  groupBy l = map (fun k => (k, filter (keyed_as k) l)) (firstOccurrences (map key l)).
Proof.
  rewrite <- groupBy_keys. apply (map_keyed (fun k => filter (keyed_as k) l)).
  assert (ND : NoDup (JsMap.keys (groupBy l)))
    by (rewrite groupBy_keys; apply firstOccurrences_NoDup).
  apply Forall_forall. intros [k b] Hin. cbn [fst snd].
  apply (JsMap.In_get k b _ ND) in Hin. unfold groupBy in Hin.
  rewrite groupBy_fold_get in Hin. unfold grown in Hin. cbn [JsMap.get JsMap.empty] in Hin.
  destruct (filter (keyed_as k) l); [discriminate Hin|congruence].
Qed.

End GroupBy.

(** ** Rendering suggestions as comments *)

(** The replacement text of [replace] with a string pattern: [$$], [$&],
    the text before and the text after the match are substituted, every
    other character stands for itself. *)
Fixpoint getSubstitution (matched before after replacement : string) : string :=
  match replacement with
  | EmptyString => EmptyString
  | String "$" (String "$" rest) => String "$" (getSubstitution matched before after rest)
  | String "$" (String "&" rest) => matched ++ getSubstitution matched before after rest
  | String "$" (String "`" rest) => before ++ getSubstitution matched before after rest
  | String "$" (String "'" rest) => after ++ getSubstitution matched before after rest
  | String c rest => String c (getSubstitution matched before after rest)
  end.

(** [s.replace(pattern, replacement)] for a string pattern. *)
Definition jsReplace (pattern replacement s : string) : string :=
  match findSplit pattern s with
  | Some (before, after) =>
      before ++ getSubstitution pattern before after replacement ++ after
  | None => s
  end.

Section Comments.

(** [encodeURIComponent], and the comment template of [./prompts]. *)
Variable encodeURIComponent : string -> string.
Variable PR_SUGGESTION_TEMPLATE : string.

Definition issueUrlBase (owner repoName title body : string) : string :=
  "https://github.com/" ++ owner ++ "/" ++ repoName ++ "/issues/new?title="
    ++ encodeURIComponent title ++ "&body=" ++ encodeURIComponent body.

Definition generateGithubIssueUrl (owner repoName title body : string)
  (codeblock : option string) : string :=
  let encodedCodeBlock :=
    if Filter.truthy codeblock
    then encodeURIComponent (Js.nl ++ stringRaw codeblock ++ Js.nl)
    else "" in
  let url := issueUrlBase owner repoName title body ++ encodedCodeBlock in
  let url :=
    if (2048 <? String.length url)%nat
    then issueUrlBase owner repoName title body
    else url in
  "[Create Issue](" ++ url ++ ")".

(** One entry of a comment: the template with its three placeholders
    replaced, in this order. *)
Definition renderSuggestion (owner repo : string) (suggestion : Suggestion.t) : string :=
  let issueLink :=
    generateGithubIssueUrl owner repo (Suggestion.describe suggestion)
      (Suggestion.comment suggestion) (Some (Suggestion.code suggestion)) in
  jsReplace "{ISSUE_LINK}" issueLink
    (jsReplace "{CODE}" (Suggestion.code suggestion)
       (jsReplace "{COMMENT}" (Suggestion.comment suggestion) PR_SUGGESTION_TEMPLATE)).

Definition renderFile (owner repo : string) (entry : string * list Suggestion.t) : string :=
  let (name, suggestions) := entry in
  let temp := ("## " ++ name ++ Js.nl) :: map (renderSuggestion owner repo) suggestions in
  Js.join Js.nl temp.

Definition convertPRSuggestionToComment (owner repo : string)
  (suggestions : list Suggestion.t) : list string :=
  let suggestionsMap := groupBy Suggestion.filename suggestions in
  map (renderFile owner repo) suggestionsMap.

Lemma prefix_app (a b : string) : String.prefix a (a ++ b) = true.
Proof.
  induction a as [|c a IH]; cbn [append String.prefix]; [destruct b; reflexivity|].
  destruct (ascii_dec c c) as [_|N]; [exact IH|contradiction].
Qed.

(** X15. The issue link is the marker [Create Issue] around a URL that
    always starts with the address built from owner, repository, title and
    body; the encoded code block follows only when there is a non-empty code
    block and the whole stays within 2048 characters; the address itself is
    never shortened, so the URL is longer than 2048 characters only when the
    address alone is. *)
Theorem generateGithubIssueUrl_cap :
  forall (owner repoName title body : string) (codeblock : option string),
    let base := issueUrlBase owner repoName title body in
    exists url,
      generateGithubIssueUrl owner repoName title body codeblock
        = "[Create Issue](" ++ url ++ ")" /\
      String.prefix base url = true /\
      ((String.length url <= 2048)%nat \/ url = base) /\
      (url <> base ->
       exists code, codeblock = Some code /\ code <> "" /\
                    url = base ++ encodeURIComponent (Js.nl ++ code ++ Js.nl)) /\
      (codeblock = None \/ codeblock = Some "" -> url = base).
Proof.
  intros owner repoName title body codeblock base. unfold generateGithubIssueUrl.
  fold base.
  set (encoded := if Filter.truthy codeblock
                  then encodeURIComponent (Js.nl ++ stringRaw codeblock ++ Js.nl) else "").
  destruct (2048 <? String.length (base ++ encoded))%nat eqn:L.
  - exists base. split; [reflexivity|].
    split; [rewrite <- (Js.append_nil_r base) at 2; apply prefix_app|].
    split; [right; reflexivity|]. split; [intros N; contradiction|auto].
  - exists (base ++ encoded). split; [reflexivity|]. split; [apply prefix_app|].
    apply Nat.ltb_ge in L. split; [left; exact L|]. unfold encoded. split.
    + intros N. destruct codeblock as [code|]; cbn [Filter.truthy] in *.
      * destruct (String.eqb_spec code "") as [->|NE]; cbn [negb] in *.
        -- rewrite Js.append_nil_r in N. contradiction.
        -- exists code. repeat split; try assumption.
      * rewrite Js.append_nil_r in N. contradiction.
    + intros [->| ->]; cbn [Filter.truthy String.eqb negb]; apply Js.append_nil_r.
Qed.

(** X16. [convertPRSuggestionToComment] writes one comment per file name,
    in the order in which the file names first occur among the suggestions;
    the comment of a file is its heading followed by the entries of the
    suggestions of that file, in input order. *)
Theorem convertPRSuggestionToComment_by_file :
  forall (owner repo : string) (suggestions : list Suggestion.t),
    convertPRSuggestionToComment owner repo suggestions
    = map (fun name =>
             Js.join Js.nl
               (("## " ++ name ++ Js.nl)
                :: map (renderSuggestion owner repo)
                     (filter (fun s => String.eqb (Suggestion.filename s) name)
                        suggestions)))
          (firstOccurrences (map Suggestion.filename suggestions)) /\
    (length (convertPRSuggestionToComment owner repo suggestions)
     <= length suggestions)%nat.
Proof.
  intros owner repo suggestions. unfold convertPRSuggestionToComment.
  rewrite groupBy_spec, map_map. split; [reflexivity|].
  rewrite length_map, <- (length_map Suggestion.filename suggestions).
  apply firstOccurrences_length.
Qed.

End Comments.

(** ** The response builders *)

Section Builders.

Variable parseStringPromise : string -> result XmlDocument.
Variable identity : Suggestion.t -> string.
Variable render : list Suggestion.t -> list string.

Abbreviation xmlResponseBuilder := (xmlResponseBuilder parseStringPromise identity render).
Abbreviation processXMLSuggestions := (processXMLSuggestions parseStringPromise).
Abbreviation parseFeedback := (parseFeedback parseStringPromise).

(** A suggestion element that has its five children, the code as text. *)
Definition completeSuggestion (raw : XmlSuggestion) : option RawSuggestion :=
  match xml_describe raw, xml_type raw, xml_comment raw, xml_code raw, xml_filename raw with
  | Some describe, Some type, Some comment, Some (CodeText code), Some filename =>
      Some (mkRaw describe type comment code filename)
  | _, _, _, _, _ => None
  end.

Fixpoint allSome {A : Type} (l : list (option A)) : option (list A) :=
  match l with
  | [] => Some []
  | Some x :: rest => option_map (cons x) (allSome rest)
  | None :: _ => None
  end.

(** The suggestions of a document that is a review of complete suggestions. *)
Definition documentSuggestions (sug : XmlDocument) : option (list RawSuggestion) :=
  match sug with
  | Review suggestion => allSome (map completeSuggestion suggestion)
  | _ => None
  end.

(** The suggestions read from a feedback, when it is a text that parses to
    such a review. *)
Definition rawSuggestions (fb : Feedback) : option (list RawSuggestion) :=
  match fb with
  | Some text =>
      match parseStringPromise (wrapCdata text) with
      | Ok sug => documentSuggestions sug
      | Throw _ => None
      end
  | None => None
  end.

Lemma allSome_Some {A : Type} (l : list (option A)) (values : list A) :
  allSome l = Some values <-> l = map Some values.
Proof.
  revert values. induction l as [|[x|] l IH]; intros values; cbn [allSome].
  - split; [intros [= <-]; reflexivity|]. destruct values; [reflexivity|discriminate].
  - destruct (allSome l) as [rest|] eqn:E; cbn [option_map].
    + split.
      * intros [= <-]. cbn [map]. f_equal. apply IH. reflexivity.
      * destruct values as [|v values]; [discriminate|]. cbn [map]. intros [= <- H].
        apply IH in H. congruence.
    + split; [discriminate|].
      destruct values as [|v values]; [discriminate|]. cbn [map]. intros [= _ H].
      apply IH in H. discriminate H.
  - split; [discriminate|]. destruct values; discriminate.
Qed.

Lemma mapThrow_app {A B : Type} (f : A -> result B) (l1 l2 : list A) :
  mapThrow f (l1 ++ l2)
  = (xs <- mapThrow f l1 ;; ys <- mapThrow f l2 ;; Ok (xs ++ ys)%list).
Proof.
  induction l1 as [|x l1 IH]; cbn [app mapThrow bind].
  - destruct (mapThrow f l2); reflexivity.
  - destruct (f x) as [y|e]; cbn [bind]; [|reflexivity].
    rewrite IH. destruct (mapThrow f l1) as [xs|e]; cbn [bind]; [|reflexivity].
    destruct (mapThrow f l2); reflexivity.
Qed.

(** The callback returns on a complete suggestion and throws a TypeError
    on every other. *)
Lemma convertRawSuggestion_complete (raw : XmlSuggestion) :
  match completeSuggestion raw with
  | Some rawSuggestion =>
      convertRawSuggestion (Some raw) = Ok (convertSuggestion rawSuggestion)
  | None => exists message, convertRawSuggestion (Some raw) = Throw (TypeError message)
  end.
Proof.
  unfold completeSuggestion, convertRawSuggestion, cannotRead.
  destruct raw as [d t c code f]; cbn [xml_describe xml_type xml_comment xml_code xml_filename].
  destruct code as [[code|]|]; destruct d, t, c, f; cbn [elementZero bind];
    try reflexivity; eexists; reflexivity.
Qed.

Lemma convert_suggestions (suggestion : list XmlSuggestion) :
  match allSome (map completeSuggestion suggestion) with
  | Some raws =>
      mapThrow convertRawSuggestion (map Some suggestion) = Ok (map convertSuggestion raws)
  | None =>
      exists message,
        mapThrow convertRawSuggestion (map Some suggestion) = Throw (TypeError message)
  end.
Proof.
  induction suggestion as [|raw rest IH]; cbn [map allSome mapThrow]; [reflexivity|].
  pose proof (convertRawSuggestion_complete raw) as H.
  destruct (completeSuggestion raw) as [r|].
  - rewrite H. cbn [bind].
    destruct (allSome (map completeSuggestion rest)) as [raws|]; cbn [option_map].
    + rewrite IH. reflexivity.
    + destruct IH as [message ->]. exists message. reflexivity.
  - destruct H as [message ->]. exists message. reflexivity.
Qed.

(** The conversion of the parsed documents. *)
Lemma convert_documents (parsedSuggestions : list XmlDocument) :
  match allSome (map documentSuggestions parsedSuggestions) with
  | Some raws =>
      (perFeedback <- mapThrow suggestionOf parsedSuggestions ;;
       mapThrow convertRawSuggestion (concat perFeedback))
      = Ok (map convertSuggestion (concat raws))
  | None =>
      exists message,
        (perFeedback <- mapThrow suggestionOf parsedSuggestions ;;
         mapThrow convertRawSuggestion (concat perFeedback))
        = Throw (TypeError message)
  end.
Proof.
  induction parsedSuggestions as [|sug rest IH]; cbn [map allSome mapThrow]; [reflexivity|].
  destruct sug as [| | |suggestion]; cbn [documentSuggestions suggestionOf bind];
    try (eexists; reflexivity).
  - destruct (mapThrow suggestionOf rest) as [perFeedback|e] eqn:E; cbn [bind concat app mapThrow].
    + eexists. reflexivity.
    + cbn [bind] in IH.
      destruct (allSome (map documentSuggestions rest)); [discriminate IH|exact IH].
  - pose proof (convert_suggestions suggestion) as S.
    destruct (mapThrow suggestionOf rest) as [perFeedback|e] eqn:E; cbn [bind concat] in *.
    + rewrite mapThrow_app.
      destruct (allSome (map completeSuggestion suggestion)) as [raws|]; cbn [option_map].
      * rewrite S. cbn [bind].
        destruct (allSome (map documentSuggestions rest)) as [others|]; cbn [option_map].
        -- rewrite IH. cbn [bind concat]. rewrite map_app. reflexivity.
        -- destruct IH as [message ->]. exists message. reflexivity.
      * destruct S as [message ->]. exists message. reflexivity.
    + destruct (allSome (map documentSuggestions rest)) as [others|]; [discriminate IH|].
      destruct (allSome (map completeSuggestion suggestion)); exact IH.
Qed.

Lemma allSome_None {A : Type} (l : list (option A)) :
  allSome l = None <-> In None l.
Proof.
  induction l as [|[x|] l IH]; cbn [allSome In].
  - split; [discriminate|intros []].
  - destruct (allSome l); cbn [option_map].
    + split; [discriminate|]. intros [H|H]; [discriminate H|]. apply IH in H. discriminate H.
    + split; [|reflexivity]. intros _. right. apply IH. reflexivity.
  - split; auto.
Qed.

(** X17. [xmlResponseBuilder] returns exactly when every feedback is a
    text that, its code payloads wrapped in CDATA sections, parses to a
    review whose suggestions all have their five children with the code as
    text. Its structured comments are then the converted suggestions of all
    feedbacks, in order and with their duplicates, while the comment text is
    rendered from the deduplicated ones. It throws what the parser throws on
    a feedback, or a TypeError: when a feedback is null, or when a parsed
    document is empty, has another root, is a review without suggestion, or
    has a suggestion that lacks a child or whose code is not text. *)
Theorem xmlResponseBuilder_structured :
  forall feedbacks : list Feedback,
    (forall response,
        xmlResponseBuilder feedbacks = Ok response ->
        exists raws,
          map rawSuggestions feedbacks = map Some raws /\
          structuredComments response = map convertSuggestion (concat raws) /\
          comment response
          = Js.join Js.nl (render (dedupSuggestions identity (structuredComments response)))) /\
    ((exists e, xmlResponseBuilder feedbacks = Throw e) <->
     (exists fb, In fb feedbacks /\ rawSuggestions fb = None)) /\
    (forall e,
        xmlResponseBuilder feedbacks = Throw e ->
        (exists text, In (Some text) feedbacks /\
                      parseStringPromise (wrapCdata text) = Throw e) \/
        (exists message, e = TypeError message)) /\
    (In None feedbacks ->
     exists message, xmlResponseBuilder feedbacks = Throw (TypeError message)) /\
    (forall fb raws,
        rawSuggestions fb = Some raws <->
        exists text suggestion,
          fb = Some text /\
          parseStringPromise (wrapCdata text) = Ok (Review suggestion) /\
          map xml_describe suggestion = map (fun r => Some (raw_describe r)) raws /\
          map xml_type suggestion = map (fun r => Some (raw_type r)) raws /\
          map xml_comment suggestion = map (fun r => Some (raw_comment r)) raws /\
          map xml_code suggestion = map (fun r => Some (CodeText (raw_code r))) raws /\
          map xml_filename suggestion = map (fun r => Some (raw_filename r)) raws).
Proof.
  intros feedbacks.
  assert (Run : match mapThrow parseFeedback feedbacks with
                | Ok promises =>
                    ~ In None feedbacks /\
                    match promiseAll promises with
                    | Ok parsedSuggestions =>
                        map rawSuggestions feedbacks
                        = map documentSuggestions parsedSuggestions
                    | Throw e =>
                        exists text, In (Some text) feedbacks /\
                                     parseStringPromise (wrapCdata text) = Throw e
                    end
                | Throw e => (exists message, e = TypeError message) /\ In None feedbacks
                end).
  { induction feedbacks as [|[text|] rest IH]; cbn [mapThrow parseFeedback bind].
    - split; [intros []|reflexivity].
    - destruct (mapThrow parseFeedback rest) as [promises|e]; cbn [bind].
      + destruct IH as [Hnone IH]. split; [intros [H|H]; [discriminate H|contradiction]|].
        cbn [promiseAll map rawSuggestions].
        destruct (parseStringPromise (wrapCdata text)) as [sug|e] eqn:P.
        * destruct (promiseAll promises) as [others|e].
          -- cbn [map]. rewrite IH. reflexivity.
          -- destruct IH as (text' & Hin & Hthrow). exists text'.
             split; [right; exact Hin|exact Hthrow].
        * exists text. split; [left; reflexivity|exact P].
      + destruct IH as [T Hin]. split; [exact T|right; exact Hin].
    - split; [eexists; reflexivity|left; reflexivity]. }
  assert (Complete : forall raw r,
             completeSuggestion raw = Some r <->
             xml_describe raw = Some (raw_describe r) /\
             xml_type raw = Some (raw_type r) /\
             xml_comment raw = Some (raw_comment r) /\
             xml_code raw = Some (CodeText (raw_code r)) /\
             xml_filename raw = Some (raw_filename r)).
  { intros [d t c code f] [d' t' c' code' f']. unfold completeSuggestion.
    cbn [xml_describe xml_type xml_comment xml_code xml_filename
         raw_describe raw_type raw_comment raw_code raw_filename].
    destruct d, t, c, code as [[code|]|], f; split;
      try discriminate; try (intros (? & ? & ? & ? & ?); discriminate).
    - intros [= -> -> -> -> ->]. repeat split.
    - intros ([= ->] & [= ->] & [= ->] & [= ->] & [= ->]). reflexivity. }
  assert (Raw : forall fb rs,
             rawSuggestions fb = Some rs <->
             exists text suggestion,
               fb = Some text /\
               parseStringPromise (wrapCdata text) = Ok (Review suggestion) /\
               map xml_describe suggestion = map (fun r => Some (raw_describe r)) rs /\
               map xml_type suggestion = map (fun r => Some (raw_type r)) rs /\
               map xml_comment suggestion = map (fun r => Some (raw_comment r)) rs /\
               map xml_code suggestion = map (fun r => Some (CodeText (raw_code r))) rs /\
               map xml_filename suggestion = map (fun r => Some (raw_filename r)) rs).
  { clear Run. intros [text|] rs; unfold rawSuggestions;
      [|split; [discriminate|intros (x & l & H & _); discriminate H]].
    destruct (parseStringPromise (wrapCdata text)) as [[| | |suggestion]|e] eqn:P;
      cbn [documentSuggestions];
      try (split; [discriminate|intros (x & l & [= <-] & H & _); congruence]).
    rewrite allSome_Some. split.
    - intros H. exists text, suggestion. split; [reflexivity|]. split; [exact P|].
      clear P. revert rs H. induction suggestion as [|x l IH]; intros [|r rs] H;
        cbn [map] in *; try discriminate H; [repeat split|].
      injection H as Hx Hl. apply Complete in Hx.
      destruct Hx as (H1 & H2 & H3 & H4 & H5).
      destruct (IH rs Hl) as (I1 & I2 & I3 & I4 & I5).
      rewrite H1, H2, H3, H4, H5, I1, I2, I3, I4, I5. repeat split.
    - intros (x & l & [= <-] & Hl & H). rewrite P in Hl. injection Hl as <-.
      clear P. revert rs H.
      induction suggestion as [|x l IH]; intros [|r rs] H; cbn [map] in *;
        destruct H as (H1 & H2 & H3 & H4 & H5); try discriminate H1; [reflexivity|].
      injection H1 as X1 L1. injection H2 as X2 L2. injection H3 as X3 L3.
      injection H4 as X4 L4. injection H5 as X5 L5.
      f_equal; [apply Complete; auto|apply IH; auto]. }
  unfold xmlResponseBuilder, processXMLSuggestions.
  destruct (mapThrow parseFeedback feedbacks) as [promises|e1]; cbn [bind].
  2:{ destruct Run as [[message ->] Hnull].
      split; [intros response H; discriminate H|].
      split; [|split; [|split; [|exact Raw]]].
      - split; [|intros _; eexists; reflexivity]. intros _.
        exists None. split; [exact Hnull|reflexivity].
      - intros e [= <-]. right. exists message. reflexivity.
      - intros _. exists message. reflexivity. }
  destruct Run as [Hnonull Run].
  destruct (promiseAll promises) as [parsedSuggestions|e0]; cbn [bind].
  - pose proof (convert_documents parsedSuggestions) as C. rewrite <- Run in C.
    destruct (allSome (map rawSuggestions feedbacks)) as [raws|] eqn:A.
    + rewrite C. cbn [bind]. apply allSome_Some in A.
      split; [|split; [|split; [|split; [|exact Raw]]]].
      * intros response [= <-]. exists raws. cbn [structuredComments comment]. auto.
      * split; [intros [e H]; discriminate H|].
        intros (fb & Hin & Hnone). exfalso.
        apply (in_map rawSuggestions) in Hin. rewrite A, Hnone in Hin.
        apply in_map_iff in Hin. destruct Hin as (x & Hx & _). discriminate Hx.
      * intros e H. discriminate H.
      * intros H. contradiction.
    + destruct C as [message C]. rewrite C. cbn [bind].
      split; [intros response H; discriminate H|].
      split; [|split; [|split; [|exact Raw]]].
      * split; [|intros _; eexists; reflexivity]. intros _.
        apply allSome_None in A. apply in_map_iff in A.
        destruct A as (fb & Hnone & Hin). exists fb. auto.
      * intros e [= <-]. right. exists message. reflexivity.
      * intros H. contradiction.
  - destruct Run as (text & Hin & Hthrow).
    split; [intros response H; discriminate H|].
    split; [|split; [|split; [|exact Raw]]].
    + split; [|intros _; eexists; reflexivity]. intros _.
      exists (Some text). split; [exact Hin|]. unfold rawSuggestions.
      rewrite Hthrow. reflexivity.
    + intros e [= <-]. left. exists text. auto.
    + intros H. contradiction.
Qed.

End Builders.

(** A parser that knows two documents: a review without suggestions, and a
    review of one suggestion whose code payload arrives wrapped. *)
Definition sampleFeedback : string :=
  "<review><suggestion><describe>Rename</describe><type>style</type>"
  ++ "<comment>Use a longer name.</comment><code>  let t = 0; </code>"
  ++ "<filename>src/a.ts</filename></suggestion></review>".

Definition sampleDocument : string :=
  "<review><suggestion><describe>Rename</describe><type>style</type>"
  ++ "<comment>Use a longer name.</comment><code><![CDATA[  let t = 0; ]]></code>"
  ++ "<filename>src/a.ts</filename></suggestion></review>".

Definition sampleXmlParser (fb : string) : result XmlDocument :=
  if String.eqb fb "<review></review>" then Ok ReviewWithoutSuggestion
  else if String.eqb fb sampleDocument
  then Ok (Review [mkXmlSuggestion (Some "Rename") (Some "style")
                     (Some "Use a longer name.") (Some (CodeText "  let t = 0; "))
                     (Some "src/a.ts")])
  else Throw (SyntaxError "Non-whitespace before first tag.").

Lemma wrapCdata_example :
  wrapCdata sampleFeedback = sampleDocument /\
  splitOn "<code>" "a<code>b<code>" = ["a"; "b"; ""] /\
  wrapCdata "Looks fine." = "Looks fine.".
Proof. repeat split; vm_compute; reflexivity. Qed.

(** A review without suggestion elements parses and is then refused by the
    conversion, with a TypeError; the sample review is converted. *)
Lemma xmlResponseBuilder_structured_example :
  xmlResponseBuilder sampleXmlParser DemoReview.identity DemoReview.render
    [Some sampleFeedback; Some "<review></review>"]
  = Throw (TypeError "Cannot read properties of undefined (reading 'code')") /\
  (exists fb, In fb [Some sampleFeedback; Some "<review></review>"] /\
              rawSuggestions sampleXmlParser fb = None) /\
  xmlResponseBuilder sampleXmlParser DemoReview.identity DemoReview.render
    [Some sampleFeedback]
  = Ok (mkResponse "Use a longer name."
          [Suggestion.make "Rename" "style" "Use a longer name." "let t = 0;" "src/a.ts"]).
Proof.
  destruct (xmlResponseBuilder_structured sampleXmlParser DemoReview.identity
              DemoReview.render [Some sampleFeedback; Some "<review></review>"])
    as (_ & T & _).
  split; [vm_compute; reflexivity|]. split; [|vm_compute; reflexivity].
  apply T. eexists. vm_compute. reflexivity.
Defined.

Section PlainStrategy.

Variable renderPatch : string -> option string -> option string -> option string -> string.
Variable getTokenLength : string -> Z.
Variable isConversationWithinLimit : list Message -> bool.
Variable reviewDiff : nat -> nat -> list Message -> result Feedback.

Abbreviation reviewChanges :=
  (reviewChanges renderPatch getTokenLength isConversationWithinLimit reviewDiff).
Abbreviation reviewFiles := (reviewFiles renderPatch reviewDiff).
Abbreviation packGroups :=
  (packGroups renderPatch getTokenLength isConversationWithinLimit).

Lemma mapi_length {A B : Type} (f : nat -> A -> B) (i : nat) (l : list A) :
  length (mapi f i l) = length l.
Proof.
  revert i. induction l as [|x l IH]; intros i; cbn [mapi length]; [reflexivity|].
  rewrite IH. reflexivity.
Qed.

Lemma promiseAll_throws {A : Type} (promises : list (result A)) (e : exn) :
  promiseAll promises = Throw e ->
  exists i e', nth_error promises i = Some (Throw e').
Proof.
  revert e. induction promises as [|p rest IH]; intros e H; cbn [promiseAll] in H;
    [discriminate H|].
  destruct p as [a|e0].
  - destruct (promiseAll rest) as [others|e1] eqn:E; [discriminate H|].
    destruct (IH e1 eq_refl) as (i & e' & Hi). exists (S i), e'. exact Hi.
  - exists 0%nat, e0. reflexivity.
Qed.

(** X18. With the plain response builder a run of [reviewChanges] throws
    only when the model call of one of its groups throws; when it returns
    there are no structured comments and the comment is the feedbacks of the
    groups, one per group in group order, joined by line breaks (a null
    feedback is joined as the empty text). *)
Theorem reviewChanges_plain :
  forall (attempt : nat) (files : list PRFile) (convo : string -> list Message),
    let strategy := mkBuilders convo basicResponseBuilder in
    let groups := packGroups convo files in
    (forall response,
        reviewChanges attempt files strategy = Ok response ->
        structuredComments response = [] /\
        exists feedbacks : list Feedback,
          length feedbacks = length groups /\
          comment response = joinNullable Js.nl feedbacks /\
          forall index group,
            nth_error groups index = Some group ->
            exists feedback,
              nth_error feedbacks index = Some feedback /\
              reviewFiles attempt index convo group = Ok feedback) /\
    (forall e,
        reviewChanges attempt files strategy = Throw e ->
        exists index group e',
          nth_error groups index = Some group /\
          reviewFiles attempt index convo group = Throw e').
Proof.
  intros attempt files convo strategy groups.
  unfold reviewChanges, bind. cbn [convoBuilder responseBuilder strategy]. fold groups.
  destruct (promiseAll (mapi (fun index patchGroup => reviewFiles attempt index convo patchGroup)
                          0 groups)) as [feedbacks|e0] eqn:E.
  - split; [|intros e H; discriminate H].
    intros response H. cbn [tryCatch basicResponseBuilder] in H. injection H as <-.
    cbn [structuredComments comment]. split; [reflexivity|].
    apply promiseAll_values in E. exists feedbacks. split.
    + apply (f_equal (@length _)) in E. rewrite mapi_length, length_map in E. auto.
    + split; [reflexivity|]. intros index group Hg.
      assert (N : nth_error (map Ok feedbacks) index
                  = Some (reviewFiles attempt index convo group)).
      { rewrite <- E, nth_error_mapi, Hg. reflexivity. }
      rewrite nth_error_map in N.
      destruct (nth_error feedbacks index) as [fb|]; [|discriminate N].
      injection N as N. exists fb. split; [reflexivity|]. symmetry. exact N.
  - split; [intros response H; discriminate H|]. intros e _.
    destruct (promiseAll_throws _ e0 E) as (i & e' & Hi).
    rewrite nth_error_mapi in Hi. cbn [Nat.add] in Hi.
    destruct (nth_error groups i) as [group|] eqn:G; [|discriminate Hi].
    injection Hi as Hi. exists i, group, e'. split; [exact G|exact Hi].
Qed.

End PlainStrategy.

(** ** processPullRequest *)

(** The two branches whose contents are fetched. *)
Inductive Branch : Type := BaseBranch | HeadBranch.

Section PullRequest.

Variable renderPatch : string -> option string -> option string -> option string -> string.
Variable getTokenLength : string -> Z.
Variable isConversationWithinLimit : list Message -> bool.
Variable reviewDiff : nat -> nat -> list Message -> result Feedback.

(** The two conversation builders of [./prompts]. *)
Variable getXMLReviewPrompt : string -> list Message.
Variable getReviewPrompt : string -> list Message.

Variable parseStringPromise : string -> result XmlDocument.
Variable identity : Suggestion.t -> string.
Variable encodeURIComponent : string -> string.
Variable PR_SUGGESTION_TEMPLATE : string.

(** [getGitFile]: the contents of a file on a branch, [null] when the file
    is not there; the fetch may fail. *)
Variable getGitFile : Branch -> string -> result (option string).

Variable getInlineFixPrompt : option string -> Suggestion.t -> result (list Message).
Variable generateChatCompletion : list Message -> result ChatMessage.
Variable JSON_parse : string -> result FixArgs.

(** [payload.repository.owner.login] and [payload.repository.name]. *)
Variable owner : string.
Variable repoName : string.

(** The file after [preprocessFile]: both contents fetched and stored. *)
Definition preprocessFile (file : PRFile) : result PRFile :=
  oldContents <- getGitFile BaseBranch (filename file) ;;
  currentContents <- getGitFile HeadBranch (filename file) ;;
  Ok {| filename := filename file;
        patch := patch file;
        patchTokenLength := patchTokenLength file;
        old_contents := oldContents;
        current_contents := currentContents |}.

(** The caller's files after the preprocessing of the filtered ones. *)
Definition preprocessAll (files : list PRFile) : result (list PRFile) :=
  promiseAll (map (fun file => if Filter.filterFile file then preprocessFile file else Ok file)
                  files).

Definition curriedXmlResponseBuilder : list Feedback -> result BuilderResponse :=
  xmlResponseBuilder parseStringPromise identity
    (convertPRSuggestionToComment encodeURIComponent PR_SUGGESTION_TEMPLATE owner repoName).

Definition strategies : list Builders :=
  [mkBuilders getXMLReviewPrompt curriedXmlResponseBuilder;
   mkBuilders getReviewPrompt basicResponseBuilder].

Record ReviewResult : Type := mkResult {
  review : option BuilderResponse;
  suggestions : list CodeSuggestion.t
}.

Definition processPullRequest (files : list PRFile) (includeSuggestions : bool)
  : result ReviewResult :=
  if isEmpty (filter Filter.filterFile files) then Ok (mkResult None [])
  else
    files <- preprocessAll files ;;
    let filteredFiles := filter Filter.filterFile files in
    if includeSuggestions then
      reviewComments <-
        reviewChangesRetry renderPatch getTokenLength isConversationWithinLimit reviewDiff
          filteredFiles strategies ;;
      let files := cacheTokenLengths renderPatch getTokenLength files in
      inlineComments <-
        (if isEmpty (structuredComments reviewComments) then Ok []
         else inlineComments getInlineFixPrompt generateChatCompletion JSON_parse
                files (structuredComments reviewComments)) ;;
      Ok (mkResult (Some reviewComments) inlineComments)
    else
      review <-
        reviewChangesRetry renderPatch getTokenLength isConversationWithinLimit reviewDiff
          filteredFiles strategies ;;
      Ok (mkResult (Some review) []).

Lemma firstSuccess_Throw (attempts : list (result BuilderResponse)) (e : exn) :
  firstSuccess attempts = Throw e -> e = Error "All convoBuilders failed.".
Proof.
  induction attempts as [|[r|e0] rest IH]; cbn [firstSuccess]; intros H.
  - congruence.
  - discriminate H.
  - exact (IH H).
Qed.

Lemma retry_Throw (files : list PRFile) (builders : list Builders) (e : exn) :
  reviewChangesRetry renderPatch getTokenLength isConversationWithinLimit reviewDiff
    files builders = Throw e ->
  e = Error "All convoBuilders failed.".
Proof.
  unfold reviewChangesRetry.
  rewrite (retryFrom_firstSuccess renderPatch getTokenLength isConversationWithinLimit
             reviewDiff builders 0 files files) by reflexivity.
  apply firstSuccess_Throw.
Qed.

Lemma preprocessAll_names (files store : list PRFile) :
  preprocessAll files = Ok store -> map filename store = map filename files.
Proof.
  unfold preprocessAll. intros H. apply promiseAll_values in H.
  revert store H. induction files as [|f files IH]; intros [|s store] H; cbn [map] in *;
    try discriminate H; [reflexivity|].
  injection H as Hf H. rewrite (IH store H). f_equal.
  destruct (Filter.filterFile f).
  - unfold preprocessFile, bind in Hf.
    destruct (getGitFile BaseBranch (filename f)); [|discriminate Hf].
    destruct (getGitFile HeadBranch (filename f)); [|discriminate Hf].
    injection Hf as <-. reflexivity.
  - injection Hf as <-. reflexivity.
Qed.

Lemma preprocessAll_Throw (files : list PRFile) (e : exn) :
  preprocessAll files = Throw e ->
  exists file branch e',
    In file files /\ Filter.filterFile file = true /\
    getGitFile branch (filename file) = Throw e'.
Proof.
  unfold preprocessAll. intros H. apply promiseAll_throws in H.
  destruct H as (i & e' & Hi). rewrite nth_error_map in Hi.
  destruct (nth_error files i) as [f|] eqn:F; [|discriminate Hi].
  cbn [option_map] in Hi. injection Hi as Hi. apply nth_error_In in F.
  destruct (Filter.filterFile f) eqn:Hf; [|discriminate Hi].
  unfold preprocessFile, bind in Hi.
  destruct (getGitFile BaseBranch (filename f)) as [o|e1] eqn:B.
  - destruct (getGitFile HeadBranch (filename f)) as [c|e2] eqn:Hd; [discriminate Hi|].
    exists f, HeadBranch, e2. auto.
  - exists f, BaseBranch, e1. auto.
Qed.

Lemma cacheTokenLengths_names (files : list PRFile) :
  map filename (cacheTokenLengths renderPatch getTokenLength files) = map filename files.
Proof.
  unfold cacheTokenLengths. rewrite map_map. apply map_ext. intros f.
  destruct (Filter.filterFile f); reflexivity.
Qed.

(** X19. [processPullRequest] returns the empty result, whatever the
    fetches and the model would answer, when no file passes the filter;
    the review is null in that case only. Otherwise it throws
    only when a fetch of the contents of a filtered file throws or when both
    strategies throw, with the aggregate error; without [includeSuggestions]
    it returns no inline fix, and every inline fix it returns is for a file
    name of the pull request. *)
Theorem processPullRequest_outcomes :
  forall (files : list PRFile) (includeSuggestions : bool),
    (filter Filter.filterFile files = [] ->
     processPullRequest files includeSuggestions = Ok (mkResult None [])) /\
    (forall e,
        processPullRequest files includeSuggestions = Throw e ->
        (exists file branch e',
            In file files /\ Filter.filterFile file = true /\
            getGitFile branch (filename file) = Throw e') \/
        e = Error "All convoBuilders failed.") /\
    (forall outcome,
        processPullRequest files includeSuggestions = Ok outcome ->
        (includeSuggestions = false -> suggestions outcome = []) /\
        (review outcome = None <-> filter Filter.filterFile files = []) /\
        (length (suggestions outcome)
         <= match review outcome with
            | Some response => length (structuredComments response)
            | None => 0
            end)%nat /\
        (forall codeFix, In codeFix (suggestions outcome) ->
                         In (CodeSuggestion.file codeFix) (map filename files))).
Proof.
  intros files includeSuggestions. unfold processPullRequest.
  destruct (filter Filter.filterFile files) as [|f0 fs] eqn:F; cbn [isEmpty].
  { split; [reflexivity|]. split; [intros e H; discriminate H|].
    intros outcome [= <-]. cbn [suggestions review]. repeat split; auto.
    intros codeFix []. }
  split; [intros H; discriminate H|].
  destruct (preprocessAll files) as [store|e0] eqn:P; cbn [bind].
  2:{ split; [|intros outcome H; discriminate H].
      intros e _. left. exact (preprocessAll_Throw files e0 P). }
  pose proof (preprocessAll_names files store P) as Names.
  destruct (reviewChangesRetry renderPatch getTokenLength isConversationWithinLimit
              reviewDiff (filter Filter.filterFile store) strategies)
    as [response|e1] eqn:R.
  2:{ apply retry_Throw in R. subst e1.
      destruct includeSuggestions; cbn [bind];
        (split; [intros e [= <-]; right; reflexivity|intros outcome H; discriminate H]). }
  destruct includeSuggestions; cbn [bind].
  - destruct (isEmpty (structuredComments response)) eqn:Emp; cbn [bind].
    + split; [intros e H; discriminate H|]. intros outcome [= <-].
      cbn [suggestions review]. split; [intros H; discriminate H|].
      split; [split; intros H; discriminate H|]. split; [cbn [length]; lia|intros c []].
    + destruct (inlineComments_names getInlineFixPrompt generateChatCompletion JSON_parse
                  (cacheTokenLengths renderPatch getTokenLength store)
                  (structuredComments response)) as (fixes & E & L & S).
      rewrite E. cbn [bind]. split; [intros e H; discriminate H|].
      intros outcome [= <-]. cbn [suggestions review].
      split; [intros H; discriminate H|].
      split; [split; intros H; discriminate H|]. split; [exact L|].
      intros codeFix Hin. destruct (S codeFix Hin) as (file & Hfile & Hn).
      rewrite Hn, <- Names, <- cacheTokenLengths_names. apply in_map. exact Hfile.
  - split; [intros e H; discriminate H|]. intros outcome [= <-].
    cbn [suggestions review]. split; [reflexivity|].
    split; [split; intros H; discriminate H|]. split; [cbn [length]; lia|intros c []].
Qed.

Lemma plain_no_structured (attempt : nat) (files : list PRFile)
  (convo : string -> list Message) (response : BuilderResponse) :
  reviewChanges renderPatch getTokenLength isConversationWithinLimit reviewDiff
    attempt files (mkBuilders convo basicResponseBuilder) = Ok response ->
  structuredComments response = [].
Proof.
  unfold reviewChanges, bind. cbn [convoBuilder responseBuilder].
  destruct (promiseAll _) as [feedbacks|e]; [|discriminate].
  cbn [tryCatch basicResponseBuilder]. intros [= <-]. reflexivity.
Qed.

(** X20. When the run of the XML strategy throws, the review that
    [processPullRequest] returns comes from the plain strategy: it has no
    structured comments, and no inline fix is returned, also with
    [includeSuggestions]. *)
Theorem processPullRequest_fallback :
  forall (files store : list PRFile) (includeSuggestions : bool)
         (e : exn) (outcome : ReviewResult),
    preprocessAll files = Ok store ->
    reviewChanges renderPatch getTokenLength isConversationWithinLimit reviewDiff
      0 (filter Filter.filterFile store)
      (mkBuilders getXMLReviewPrompt curriedXmlResponseBuilder) = Throw e ->
    processPullRequest files includeSuggestions = Ok outcome ->
    suggestions outcome = [] /\
    (filter Filter.filterFile files = [] \/
     exists response,
       review outcome = Some response /\ structuredComments response = [] /\
       reviewChanges renderPatch getTokenLength isConversationWithinLimit reviewDiff
         1 (filter Filter.filterFile store)
         (mkBuilders getReviewPrompt basicResponseBuilder) = Ok response).
Proof.
  intros files store includeSuggestions e outcome P X H. unfold processPullRequest in H.
  destruct (filter Filter.filterFile files) as [|f0 fs] eqn:F; cbn [isEmpty] in H.
  { injection H as <-. split; [reflexivity|left; reflexivity]. }
  rewrite P in H. cbn [bind] in H.
  assert (R : reviewChangesRetry renderPatch getTokenLength isConversationWithinLimit
                reviewDiff (filter Filter.filterFile store) strategies
              = match reviewChanges renderPatch getTokenLength isConversationWithinLimit
                        reviewDiff 1 (filter Filter.filterFile store)
                        (mkBuilders getReviewPrompt basicResponseBuilder) with
                | Ok response => Ok response
                | Throw _ => Throw (Error "All convoBuilders failed.")
                end).
  { unfold reviewChangesRetry.
    rewrite (retryFrom_firstSuccess renderPatch getTokenLength isConversationWithinLimit
               reviewDiff strategies 0 (filter Filter.filterFile store)
               (filter Filter.filterFile store)) by reflexivity.
    unfold strategies. cbn [mapi firstSuccess]. rewrite X.
    destruct (reviewChanges _ _ _ _ 1 _ _); reflexivity. }
  rewrite R in H.
  destruct (reviewChanges renderPatch getTokenLength isConversationWithinLimit reviewDiff
              1 (filter Filter.filterFile store)
              (mkBuilders getReviewPrompt basicResponseBuilder)) as [response|e1] eqn:B.
  2:{ destruct includeSuggestions; discriminate H. }
  pose proof (plain_no_structured 1 _ _ response B) as S.
  destruct includeSuggestions; cbn [bind] in H.
  - rewrite S in H. cbn [isEmpty bind] in H. injection H as <-.
    cbn [suggestions review]. split; [reflexivity|]. right. exists response. auto.
  - injection H as <-. cbn [suggestions review]. split; [reflexivity|].
    right. exists response. auto.
Qed.

End PullRequest.

(** ** The Python parser: findEnclosingContext *)

Module PythonParser.

(** What the search reads of a syntax node of the parse tree. *)
Record SyntaxNode : Type := mkNode {
  nodeType : string;
  nameText : option string;
  startIndex : Z;
  endIndex : Z;
  startRow : Z;
  startColumn : Z;
  endRow : Z;
  endColumn : Z
}.

Inductive ContextType : Type := ClassDeclaration | FunctionDeclaration | Module.

Record Position : Type := mkPosition {
  line : Z;
  column : Z
}.

(** The enclosing context handed back (its comment fields are always null). *)
Record Node : Type := mkContext {
  type : ContextType;
  name : string;
  start : Z;
  finish : Z;
  loc_start : Position;
  loc_end : Position
}.

Definition nodeToEnclosingContext (node : SyntaxNode) : Node :=
  {| type := if String.eqb (nodeType node) "class_definition"
             then ClassDeclaration else FunctionDeclaration;
     name := match nameText node with Some text => text | None => "" end;
     start := startIndex node;
     finish := endIndex node;
     loc_start := mkPosition (startRow node + 1) (startColumn node);
     loc_end := mkPosition (endRow node + 1) (endColumn node) |}.

(** The test of the loop: a class or function definition around the rows. *)
Definition encloses (startPointRow endPointRow : Z) (currentNode : SyntaxNode) : bool :=
  (String.eqb (nodeType currentNode) "class_definition"
   || String.eqb (nodeType currentNode) "function_definition")
  && (startRow currentNode <=? startPointRow)%Z
  && (endPointRow <=? endRow currentNode)%Z.

Section Find.

(** The parser, once initialised: for a file and a row, the smallest node
    at column 0 of that row followed by its ancestors, innermost first, up
    to the root. Initialising and parsing may throw. *)
Variable ancestorsAt : string -> Z -> result (list SyntaxNode).

(** The context chosen on a chain of ancestors. *)
Definition contextOn (file : string) (startPointRow endPointRow : Z)
  (chain : list SyntaxNode) : Node :=
  match find (encloses startPointRow endPointRow) chain with
  | Some currentNode => nodeToEnclosingContext currentNode
  | None =>
      let lineCount := Z.of_nat (length (Js.split Js.LF file)) in
      {| type := Module;
         name := "module";
         start := 0;
         finish := lineCount;
         loc_start := mkPosition 1 0;
         loc_end := mkPosition lineCount 0 |}
  end.

Definition findEnclosingContext (file : string) (lineStart lineEnd : Z) : result Node :=
  let startPointRow := (lineStart - 1)%Z in
  let endPointRow := (lineEnd - 1)%Z in
  chain <- ancestorsAt file startPointRow ;;
  Ok (contextOn file startPointRow endPointRow chain).

Lemma find_first {A : Type} (p : A -> bool) (l : list A) (a : A) :
  find p l = Some a ->
  exists before after,
    l = (before ++ a :: after)%list /\ p a = true /\ Forall (fun x => p x = false) before.
Proof.
  induction l as [|x l IH]; cbn [find]; [discriminate|].
  destruct (p x) eqn:E.
  - intros [= <-]. exists [], l. auto.
  - intros H. destruct (IH H) as (before & after & -> & Ha & Hb).
    exists (x :: before), after. auto.
Qed.

(** The specification's vocabulary: a class or function definition, and a
    node whose lines, counted from 1, include the lines of the range. *)
Definition isDefinition (node : SyntaxNode) : Prop :=
  nodeType node = "class_definition" \/ nodeType node = "function_definition".

Definition spans (node : SyntaxNode) (lineStart lineEnd : Z) : Prop :=
  (startRow node + 1 <= lineStart)%Z /\ (lineEnd <= endRow node + 1)%Z.

Lemma encloses_spec (lineStart lineEnd : Z) (node : SyntaxNode) :
  encloses (lineStart - 1) (lineEnd - 1) node = true <->
  isDefinition node /\ spans node lineStart lineEnd.
Proof.
  unfold encloses, isDefinition, spans.
  rewrite !andb_true_iff, orb_true_iff, !String.eqb_eq, !Z.leb_le.
  split; intros H; repeat split; try tauto; lia.
Qed.

(** X21. Once the file is parsed, [findEnclosingContext] returns a context
    for the range of lines. It is the module, spanning lines 1 to the number
    of lines of the file, exactly when no class or function definition among
    the ancestors of the start of the range spans the range. Otherwise it is
    made from the innermost ancestor that is a class or function definition
    and spans the range: a class declaration for a class definition, a
    function declaration for a function definition, with the name of the
    node (empty when it has none), its offsets, and its lines counted from
    1, which include the range. *)
Theorem findEnclosingContext_encloses :
  forall (file : string) (lineStart lineEnd : Z) (chain : list SyntaxNode),
    ancestorsAt file (lineStart - 1) = Ok chain ->
    exists context,
      findEnclosingContext file lineStart lineEnd = Ok context /\
      (type context = Module <->
       forall node, In node chain ->
                    ~ (isDefinition node /\ spans node lineStart lineEnd)) /\
      (type context = Module ->
       context = mkContext Module "module" 0 (Z.of_nat (length (Js.split Js.LF file)))
                   (mkPosition 1 0)
                   (mkPosition (Z.of_nat (length (Js.split Js.LF file))) 0) /\
       (1 <= line (loc_end context))%Z) /\
      (type context <> Module ->
       exists inner node outer,
         chain = (inner ++ node :: outer)%list /\
         isDefinition node /\ spans node lineStart lineEnd /\
         (forall n, In n inner -> ~ (isDefinition n /\ spans n lineStart lineEnd)) /\
         (type context = ClassDeclaration <-> nodeType node = "class_definition") /\
         (type context = FunctionDeclaration <-> nodeType node = "function_definition") /\
         name context = match nameText node with Some text => text | None => "" end /\
         start context = startIndex node /\ finish context = endIndex node /\
         loc_start context = mkPosition (startRow node + 1) (startColumn node) /\
         loc_end context = mkPosition (endRow node + 1) (endColumn node) /\
         (line (loc_start context) <= lineStart)%Z /\
         (lineEnd <= line (loc_end context))%Z).
Proof.
  intros file lineStart lineEnd chain P. unfold findEnclosingContext. cbv zeta.
  rewrite P. cbn [bind]. eexists. split; [reflexivity|]. unfold contextOn.
  destruct (find (encloses (lineStart - 1) (lineEnd - 1)) chain) as [node|] eqn:F.
  - destruct (find_first _ _ _ F) as (inner & outer & E & Hn & Hinner).
    apply encloses_spec in Hn. destruct Hn as [Hdef Hspan].
    assert (T : type (nodeToEnclosingContext node) <> Module).
    { unfold nodeToEnclosingContext. cbn [type].
      destruct (String.eqb (nodeType node) "class_definition"); discriminate. }
    split; [|split].
    + split; [intros H; contradiction|]. intros H. exfalso.
      apply (H node); [|split; assumption].
      rewrite E. apply in_or_app. right. left. reflexivity.
    + intros H. contradiction.
    + intros _. exists inner, node, outer.
      split; [exact E|]. split; [exact Hdef|]. split; [exact Hspan|]. split.
      { intros n Hin Hn. rewrite Forall_forall in Hinner.
        apply encloses_spec in Hn. rewrite (Hinner n Hin) in Hn. discriminate Hn. }
      unfold nodeToEnclosingContext.
      cbn [type name start finish loc_start loc_end line].
      destruct Hspan as [Hs He].
      destruct (String.eqb_spec (nodeType node) "class_definition") as [C|C].
      * repeat split; auto; try discriminate; try lia.
        intros H. rewrite C in H. discriminate H.
      * destruct Hdef as [D|D]; [contradiction|].
        repeat split; auto; try discriminate; try lia; intros H; contradiction.
  - cbn [type loc_start loc_end line]. split; [|split].
    + split; [intros _|reflexivity]. intros n Hin Hn.
      apply encloses_spec in Hn. rewrite (find_none _ _ F n Hin) in Hn. discriminate Hn.
    + intros _. split; [reflexivity|].
      pose proof (Js.split_nonempty Js.LF file) as NE.
      destruct (Js.split Js.LF file); [contradiction|cbn [length]; lia].
    + intros H. contradiction.
Qed.

End Find.

(** A file with a method inside a class, and the ancestors of its line 3. *)
Definition sampleFile : string :=
  "class A:" ++ Js.nl ++ "    def f(self):" ++ Js.nl ++ "        return 1" ++ Js.nl.

Definition sampleChain : list SyntaxNode :=
  [mkNode "return_statement" None 34 42 2 8 2 16;
   mkNode "block" None 34 42 2 8 2 16;
   mkNode "function_definition" (Some "f") 13 42 1 4 2 16;
   mkNode "block" None 13 42 1 4 2 16;
   mkNode "class_definition" (Some "A") 0 42 0 0 2 16;
   mkNode "module" None 0 43 0 0 3 0].

Definition sampleParser (file : string) (row : Z) : result (list SyntaxNode) :=
  if (row =? 2)%Z then Ok sampleChain
  else Ok [mkNode "class_definition" (Some "A") 0 42 0 0 2 16;
           mkNode "module" None 0 43 0 0 3 0].

Lemma findEnclosingContext_encloses_example :
  findEnclosingContext sampleParser sampleFile 3 3
    = Ok (mkContext FunctionDeclaration "f" 13 42 (mkPosition 2 4) (mkPosition 3 16)) /\
  findEnclosingContext sampleParser sampleFile 1 3
    = Ok (mkContext ClassDeclaration "A" 0 42 (mkPosition 1 0) (mkPosition 3 16)) /\
  findEnclosingContext sampleParser sampleFile 1 4
    = Ok (mkContext Module "module" 0 4 (mkPosition 1 0) (mkPosition 4 0)).
Proof.
  destruct (findEnclosingContext_encloses sampleParser sampleFile 3 3 sampleChain eq_refl)
    as (context & E & _).
  split; [rewrite E; vm_compute in E; injection E as <-; reflexivity|].
  split; vm_compute; reflexivity.
Defined.

End PythonParser.

(** ** processPullRequest on the small instance *)

Module DemoPull.

Definition getGitFile (branch : Branch) (name : string) : result (option string) :=
  match branch with
  | BaseBranch => Ok None
  | HeadBranch => Ok (Some exampleContents)
  end.

Definition encodeURIComponent (text : string) : string := text.

Definition process : list PRFile -> bool -> result ReviewResult :=
  processPullRequest Demo.renderPatch Demo.getTokenLength Demo.isConversationWithinLimit
    DemoReview.reviewDiff Demo.convoBuilder Demo.convoBuilder DemoReview.parseStringPromise
    DemoReview.identity encodeURIComponent "{COMMENT} {CODE} {ISSUE_LINK}" getGitFile
    examplePrompt exampleReply exampleParse "owner" "repo".

Definition fetched (file : PRFile) : PRFile :=
  mkPRFile (filename file) (patch file) (patchTokenLength file) None (Some exampleContents).

End DemoPull.

Lemma processPullRequest_fallback_example :
  exists response,
    DemoPull.process DemoReview.files true = Ok (mkResult (Some response) []) /\
    structuredComments response = [].
Proof.
  assert (H : DemoPull.process DemoReview.files true
              = Ok (mkResult
                      (Some (mkResponse ("Looks fine." ++ Js.nl ++ "Looks fine.") [])) []))
    by (vm_compute; reflexivity).
  destruct (processPullRequest_fallback Demo.renderPatch Demo.getTokenLength
              Demo.isConversationWithinLimit DemoReview.reviewDiff Demo.convoBuilder
              Demo.convoBuilder DemoReview.parseStringPromise DemoReview.identity
              DemoPull.encodeURIComponent "{COMMENT} {CODE} {ISSUE_LINK}" DemoPull.getGitFile
              examplePrompt exampleReply exampleParse "owner" "repo"
              DemoReview.files (map DemoPull.fetched DemoReview.files) true
              (SyntaxError "Non-whitespace before first tag.") _
              eq_refl eq_refl H) as [S _].
  eexists. split; [exact H|reflexivity].
Defined.

(** ** isCodeSuggestionNew: the lines it compares with *)

Section TargetLines.

(** The lines numbered [first] to [last] of a file, counted from 1 and both
    included. *)
Definition linesBetween {A : Type} (fileLines : list A) (first last : Z) : list A :=
  firstn (Z.to_nat (last - first + 1)) (skipn (Z.to_nat (first - 1)) fileLines).

Lemma skipn_past {A : Type} (n m : nat) (l : list A) :
  (length l <= n)%nat -> (length l <= m)%nat -> skipn n l = skipn m l.
Proof. intros Hn Hm. rewrite !skipn_all2 by assumption. reflexivity. Qed.

(** [slice] read in line numbers. *)
Lemma jsSlice_lines {A : Type} (arr : list A) (line_start line_end : Z) :
  let count := Z.of_nat (length arr) in
  let first := if (line_start <? 1)%Z then Z.max (count + line_start) 1 else line_start in
  let last := if (line_end <? 0)%Z then (count + line_end)%Z else Z.min line_end count in
  jsSlice arr (line_start - 1) line_end = linesBetween arr first last.
Proof.
  intros count first last. unfold jsSlice, relativeIndex, linesBetween. fold count.
  destruct (Z_le_gt_dec (line_start - 1) count) as [Hin|Hout].
  - assert (K : Z.to_nat (if (line_start - 1 <? 0)%Z
                          then Z.max (count + (line_start - 1)) 0
                          else Z.min (line_start - 1) count)
                = Z.to_nat (first - 1)).
    { unfold first. destruct (Z.ltb_spec (line_start - 1) 0);
        destruct (Z.ltb_spec line_start 1); lia. }
    rewrite K. f_equal. unfold first, last.
    destruct (Z.ltb_spec (line_start - 1) 0); destruct (Z.ltb_spec line_start 1);
      destruct (Z.ltb_spec line_end 0); lia.
  - assert (F : first = line_start).
    { unfold first. destruct (Z.ltb_spec line_start 1); [unfold count in *; lia|reflexivity]. }
    rewrite F.
    destruct (Z.ltb_spec (line_start - 1) 0) as [H|H]; [unfold count in *; lia|].
    rewrite (skipn_past (Z.to_nat (Z.min (line_start - 1) count)) (Z.to_nat (line_start - 1)))
      by (unfold count in *; lia).
    rewrite skipn_all2 by (unfold count in *; lia). rewrite !firstn_nil. reflexivity.
Qed.

Lemma Forall_firstn_skipn {A : Type} (P : A -> Prop) (n m : nat) (l : list A) :
  Forall P l -> Forall P (firstn n (skipn m l)).
Proof.
  intros F. rewrite <- (firstn_skipn m l) in F. apply Forall_app in F.
  destruct F as [_ F]. rewrite <- (firstn_skipn n (skipn m l)) in F.
  apply Forall_app in F. apply F.
Qed.

(** X22. The text [isCodeSuggestionNew] compares the correction with is
    made of the lines [first] to [last] of the contents, counted from 1 and
    both included. [first] is [line_start], or for a [line_start] below 1
    the line so far before the end of the file (at least 1); [last] is
    [line_end] cut at the end of the file, or for a negative [line_end] the
    line so far before the end. When [last] is below [first] the text is
    empty, and only a correction of white space is then taken as already
    there. *)
Theorem targetLines_range :
  forall (contents : string) (line_start line_end : Z),
    let fileLines := linesOf contents in
    let count := Z.of_nat (length fileLines) in
    let first := if (line_start <? 1)%Z then Z.max (count + line_start) 1 else line_start in
    let last := if (line_end <? 0)%Z then (count + line_end)%Z else Z.min line_end count in
    (1 <= first)%Z /\ (last <= count)%Z /\
    targetLines contents line_start line_end
    = Js.join Js.nl (linesBetween fileLines first last) /\
    ((first <= last)%Z ->
     linesOf (targetLines contents line_start line_end) = linesBetween fileLines first last /\
     Z.of_nat (length (linesOf (targetLines contents line_start line_end)))
     = (last - first + 1)%Z /\
     forall n, (first <= n <= last)%Z ->
               nth_error (linesOf (targetLines contents line_start line_end))
                 (Z.to_nat (n - first))
               = nth_error fileLines (Z.to_nat (n - 1))) /\
    ((last < first)%Z ->
     targetLines contents line_start line_end = "" /\
     forall fix_,
       CodeSuggestion.line_start fix_ = line_start ->
       CodeSuggestion.line_end fix_ = line_end ->
       isCodeSuggestionNew contents fix_
       = negb (String.eqb "" (Js.trim (CodeSuggestion.correction fix_)))).
Proof.
  intros contents line_start line_end fileLines count first last.
  assert (H1 : (1 <= first)%Z).
  { unfold first. destruct (Z.ltb_spec line_start 1); lia. }
  assert (Hc : (last <= count)%Z).
  { unfold last. destruct (Z.ltb_spec line_end 0); lia. }
  assert (T : targetLines contents line_start line_end
              = Js.join Js.nl (linesBetween fileLines first last)).
  { unfold targetLines. fold (linesOf contents). fold fileLines.
    rewrite jsSlice_lines. reflexivity. }
  split; [exact H1|]. split; [exact Hc|]. split; [exact T|]. split.
  - intros Hle.
    assert (L : length (linesBetween fileLines first last) = Z.to_nat (last - first + 1)).
    { unfold linesBetween. rewrite length_firstn, length_skipn. unfold count in Hc. lia. }
    assert (S : linesOf (targetLines contents line_start line_end)
                = linesBetween fileLines first last).
    { rewrite T. unfold linesOf, Js.nl. apply Js.split_join.
      - intros N. rewrite N in L. cbn [length] in L. lia.
      - apply Forall_firstn_skipn. apply Js.split_no_sep. }
    split; [exact S|]. split; [rewrite S, L; lia|].
    intros n Hn. rewrite S. unfold linesBetween.
    rewrite nth_error_firstn.
    destruct (Nat.ltb_spec (Z.to_nat (n - first)) (Z.to_nat (last - first + 1))) as [_|N];
      [|lia].
    rewrite nth_error_skipn. f_equal. lia.
  - intros Hinv.
    assert (E : targetLines contents line_start line_end = "").
    { rewrite T. unfold linesBetween.
      replace (Z.to_nat (last - first + 1)) with 0%nat by lia. reflexivity. }
    split; [exact E|]. intros fix_ Hs He. unfold isCodeSuggestionNew.
    rewrite Hs, He, E. cbn [Js.trim Js.trimStart Js.trimEnd].
    destruct (String.eqb "" (Js.trim (CodeSuggestion.correction fix_))); reflexivity.
Qed.

(** Lines 1 to 2 of the example; a range that ends before it starts; and a
    negative end, which counts from the end of the file. *)
Lemma targetLines_range_example :
  linesOf (targetLines exampleContents 1 2) = ["def f():"; "    pass"] /\
  targetLines exampleContents 2 1 = "" /\
  targetLines exampleContents 2 (-1) = "    pass" /\
  targetLines exampleContents 0 2 = "".
Proof.
  destruct (targetLines_range exampleContents 1 2) as (_ & _ & _ & A & _).
  destruct (targetLines_range exampleContents 2 1) as (_ & _ & _ & _ & B).
  destruct (targetLines_range exampleContents 2 (-1)) as (_ & _ & C & _).
  split; [|split; [|split]].
  - destruct A as [A _]; [vm_compute; discriminate|]. rewrite A. vm_compute. reflexivity.
  - destruct B as [B _]; [vm_compute; reflexivity|exact B].
  - rewrite C. vm_compute. reflexivity.
  - vm_compute. reflexivity.
Defined.

End TargetLines.

(** ** generateInlineComments: a redundant replacement of one line *)

(** X23. A replacement of one line that equals, once trimmed, the trimmed
    text of the lines it is to replace gives no fix, whatever white space
    surrounds the replacement and whatever the indentation of the file. *)
Theorem generateInlineComments_one_line_redundant :
  forall (getInlineFixPrompt : option string -> Suggestion.t -> result (list Message))
         (generateChatCompletion : list Message -> result ChatMessage)
         (JSON_parse : string -> result FixArgs)
         (suggestion : Suggestion.t) (file : PRFile)
         (contents : string) (messages : list Message) (reply : ChatMessage)
         (call : FunctionCall) (args : FixArgs),
    current_contents file = Some contents ->
    getInlineFixPrompt (Some contents) suggestion = Ok messages ->
    generateChatCompletion messages = Ok reply ->
    function_call reply = Some call ->
    JSON_parse (arguments call) = Ok args ->
    Js.occurs Js.LF (arg_code args) = false ->
    Js.trim (arg_code args)
      = Js.trim (targetLines contents (arg_lineStart args) (arg_lineEnd args)) ->
    generateInlineComments getInlineFixPrompt generateChatCompletion JSON_parse
      suggestion file = Ok None.
Proof.
  intros prompt chat parse suggestion file contents messages reply call args
    Hc Hp Hr Hf Ha Hone Heq.
  unfold generateInlineComments, inlineFixAttempt.
  rewrite Hc, Hp. cbn [bind]. rewrite Hr. cbn [bind]. rewrite Hf, Ha. cbn [bind].
  destruct (indentCodeFix (Some contents) (arg_code args) (arg_lineStart args))
    as [indented|e] eqn:I; cbn [bind tryCatch]; [|reflexivity].
  unfold isCodeSuggestionNew.
  cbn [CodeSuggestion.line_start CodeSuggestion.line_end CodeSuggestion.correction].
  assert (T : Js.trim indented = Js.trim (arg_code args)).
  { unfold indentCodeFix in I.
    destruct (jsIndex (Js.split Js.LF contents) (arg_lineStart args - 1)) as [firstLine|];
      [|discriminate I].
    injection I as <-. rewrite (Js.split_single Js.LF _ Hone).
    cbn [map Js.join String.concat]. unfold Js.trim.
    rewrite trimStart_allSpace by apply leadingSpace_allSpace. reflexivity. }
  rewrite T, Heq, String.eqb_refl. reflexivity.
Qed.

Definition exampleParseSpaced (payload : string) : result FixArgs :=
  Ok (mkArgs "  pass   " 2 2 "Same as before").

Lemma generateInlineComments_one_line_redundant_example :
  generateInlineComments examplePrompt exampleReply exampleParseSpaced
    exampleSuggestion exampleFile = Ok None.
Proof.
  apply (generateInlineComments_one_line_redundant
           examplePrompt exampleReply exampleParseSpaced exampleSuggestion exampleFile
           exampleContents
           [mkMessage "user" (exampleContents ++ Js.nl ++ "The body can be simplified.")]
           (mkReply None (Some (mkCall "fix" "{code: pass, lineStart: 2, lineEnd: 2}")))
           (mkCall "fix" "{code: pass, lineStart: 2, lineEnd: 2}")
           (mkArgs "  pass   " 2 2 "Same as before"));
    vm_compute; reflexivity.
Defined.

(** ** Filling the comment template *)

Section Template.

Lemma prefix_drop (p s : string) :
  String.prefix p s = true -> s = p ++ dropChars (String.length p) s.
Proof.
  revert s. induction p as [|c p IH]; intros s H; [reflexivity|].
  destruct s as [|d s]; [discriminate H|]. cbn [String.prefix] in H.
  destruct (ascii_dec c d) as [<-|N]; [|discriminate H].
  cbn [String.length dropChars append]. f_equal. exact (IH s H).
Qed.












End Template.




(** ** The split on a separator of several characters *)

Section SplitOn.

Variable separator : string.

Lemma splitSkip_nonempty (skip : nat) (s : string) : splitSkip separator skip s <> [].
Proof.
  revert skip. induction s as [|c rest IH]; intros skip; cbn [splitSkip]; [discriminate|].
  destruct skip as [|k]; [|apply IH].
  destruct (String.prefix separator (String c rest)); [discriminate|].
  destruct (splitSkip separator 0 rest); discriminate.
Qed.

(** Joining the pieces with the separator gives the text back: nothing but
    occurrences of the separator is taken out by the split. *)
Lemma join_splitSkip (skip : nat) (s : string) :
  separator <> "" ->
  Js.join separator (splitSkip separator skip s) = dropChars skip s.
Proof.
  intros NE. revert skip. induction s as [|c rest IH]; intros skip.
  - destruct skip; reflexivity.
  - cbn [splitSkip]. destruct skip as [|k]; [|apply IH]. cbn [dropChars].
    destruct (String.prefix separator (String c rest)) eqn:P.
    + pose proof (splitSkip_nonempty (String.length separator - 1) rest) as N.
      pose proof (IH (String.length separator - 1)%nat) as J.
      destruct (splitSkip separator (String.length separator - 1) rest) as [|h t];
        [contradiction|].
      change (Js.join separator ("" :: h :: t))
        with ("" ++ separator ++ Js.join separator (h :: t)).
      rewrite J. cbn [append]. rewrite (prefix_drop separator (String c rest) P) at 1.
      destruct separator as [|d sep']; [contradiction|].
      cbn [String.length dropChars Nat.sub]. try rewrite Nat.sub_0_r. reflexivity.
    + pose proof (splitSkip_nonempty 0 rest) as N. pose proof (IH 0%nat) as J.
      destruct (splitSkip separator 0 rest) as [|h t]; [contradiction|].
      cbn [dropChars] in J. rewrite <- J.
      destruct t as [|h' t']; reflexivity.
Qed.

Lemma join_splitOn (s : string) :
  separator <> "" -> Js.join separator (splitOn separator s) = s.
Proof. intros NE. apply (join_splitSkip 0 s NE). Qed.

End SplitOn.
